(** * Verification of [utils.py] of the conformal-classification repository

    The development embeds the metric helpers ([sort_sum], [AverageMeter],
    [coverage_size], [accuracy]), the model selector ([get_model]) and the
    logit pipeline ([get_logits_targets], [get_logits_dataset]) and proves
    the properties the specification states about them.

    Conventions of the embedding:
    - floating-point scores are exact rationals ([Q], compared with [==]);
      the one non-finite value the code can produce, the mean of an empty
      array, is the constructor [NaN] of [npfloat].  What is proved of the
      functions over the rationals is stated so that it does not depend on
      sums being exact; where the result of the code depends on rounding
      ([np.cumsum], the percentage of [accuracy]) the function is embedded
      a second time over the IEEE 754 floats of [SpecFloat], in the
      modules [Float64] and [Torch];
    - class labels and array indices are natural numbers; the labels the
      inference runner copies are 64-bit integers ([Z]);
    - a Python exception is a value of [exn], and a call that may raise
      returns [result A = exn + A];
    - arrays are lists (a matrix is the list of its rows). *)

From Stdlib Require Import ZArith QArith Lia Lqa Ascii String.
From Corelib Require Import SpecFloat.
From stdpp Require Import base decidable option list sorting gmap strings.

Local Open Scope Q_scope.

(** ** Exceptions and fallible calls *)

Inductive exn : Type :=
  | IndexError
  | ValueError
  | ZeroDivisionError
  | RuntimeError
  | NotImplementedError
  | TypeError
  | FileNotFoundError
  | UnpicklingError.

Definition result (A : Type) : Type := (exn + A)%type.

Definition ok {A} (a : A) : result A := inr a.
Definition raise {A} (e : exn) : result A := inl e.

Definition bind {A B} (m : result A) (k : A -> result B) : result B :=
  match m with
  | inl e => inl e
  | inr a => k a
  end.

Notation "'let!' x ':=' m 'in' k" := (bind m (fun x => k))
  (at level 10, x pattern, m at level 100, k at level 200).

Definition is_ok {A} (m : result A) : bool :=
  match m with inr _ => true | inl _ => false end.

(** [for x in xs: acc = body(acc, x)], stopping at the first exception. *)
Fixpoint for_each {A S} (body : S -> A -> result S) (xs : list A) (s : S)
  : result S :=
  match xs with
  | [] => ok s
  | x :: xs' => let! s' := body s x in for_each body xs' s'
  end.

(** [[f(x) for x in xs]], stopping at the first exception. *)
Fixpoint map_result {A B} (f : A -> result B) (xs : list A) : result (list B) :=
  match xs with
  | [] => ok []
  | x :: xs' =>
      let! y := f x in
      let! ys := map_result f xs' in
      ok (y :: ys)
  end.

(** ** Numbers *)

Definition Qnat (n : nat) : Q := inject_Z (Z.of_nat n).

Definition Qbool (b : bool) : Q := if b then 1 else 0.

(** Sum of an array, added left to right starting from zero. *)
Definition Qsum (l : list Q) : Q := fold_left Qplus l 0.

#[global] Instance Qle_dec : RelDecision Qle :=
  fun x y => Z_le_dec (Qnum x * QDen y) (Qnum y * QDen x).

(** The value of a float cell: a finite number or NaN. *)
Inductive npfloat : Type :=
  | Num (q : Q)
  | NaN.

(** Equality of float cells up to the representation of a rational. *)
Definition npfloat_eq (x y : npfloat) : Prop :=
  match x, y with
  | Num p, Num q => p == q
  | NaN, NaN => True
  | _, _ => False
  end.

Infix "=f=" := npfloat_eq (at level 70, no associativity).

(** ** IEEE 754 arithmetic

    A float is a [spec_float] of the standard library's specification of
    IEEE 754, and an operation returns the float of its format nearest to
    the exact result, ties to even.  [Float64] is the format of numpy's
    [float64] and of Python's [float], [Float32] the one of torch's
    [float32]. *)

Module Float64.

Definition prec : Z := 53.
Definition emax : Z := 1024.

(** The float nearest to an integer: [float(z)]. *)
Definition of_Z (z : Z) : spec_float := binary_normalize prec emax z 0 false.

Definition add : spec_float -> spec_float -> spec_float := SFadd prec emax.
Definition div : spec_float -> spec_float -> spec_float := SFdiv prec emax.


(** [np.cumsum(row)] on a row of floats: every entry is the float sum of
    the entry before it and the next score. *)
Fixpoint cumsum_from (acc : spec_float) (row : list spec_float)
  : list spec_float :=
  match row with
  | [] => []
  | x :: row' => add acc x :: cumsum_from (add acc x) row'
  end.

Definition np_cumsum (row : list spec_float) : list spec_float :=
  match row with
  | [] => []
  | x :: row' => x :: cumsum_from x row'
  end.

End Float64.

Module Float32.

Definition prec : Z := 24.
Definition emax : Z := 128.

Definition of_Z (z : Z) : spec_float := binary_normalize prec emax z 0 false.

Definition mul : spec_float -> spec_float -> spec_float := SFmul prec emax.

(** The [float32] nearest to a [float64]. *)
Definition of_float64 (x : spec_float) : spec_float :=
  match x with
  | S754_finite s m e => binary_normalize prec emax (cond_Zopp s (Zpos m)) e s
  | _ => x
  end.

End Float32.

(** The number a finite float stands for. *)
Definition SF2Q (x : spec_float) : option Q :=
  match x with
  | S754_zero _ => Some 0
  | S754_finite s m e => Some (inject_Z (cond_Zopp s (Zpos m)) * Qpower 2 e)
  | S754_infinity _ | S754_nan => None
  end.

(** ** [sort_sum]

<<
def sort_sum(scores):
    I = scores.argsort(axis=1)[:, ::-1]
    ordered = np.sort(scores, axis=1)[:, ::-1]
    cumsum = np.cumsum(ordered, axis=1)
    return I, ordered, cumsum
>>
    [np.sort] and [argsort] sort every row in ascending order; they are
    embedded as a merge sort, which fixes the order of tied entries (numpy
    leaves it to the sorting kind). *)

Definition score_at (row : list Q) (i : nat) : Q := nth i row 0.

(** The order [argsort] sorts the column indices by. *)
Definition by_score (row : list Q) : relation nat :=
  fun i j => score_at row i <= score_at row j.

#[global] Instance by_score_dec (row : list Q) : RelDecision (by_score row) :=
  fun i j => Qle_dec (score_at row i) (score_at row j).

(** [row.argsort()]: the column indices ordered by ascending score. *)
Definition np_argsort (row : list Q) : list nat :=
  merge_sort (by_score row) (seq 0 (length row)).

(** [np.sort(row)]: the scores in ascending order. *)
Definition np_sort (row : list Q) : list Q := merge_sort Qle row.

(** [np.cumsum(row)]: running sums, [acc] being the sum of what came before. *)
Fixpoint cumsum_from (acc : Q) (row : list Q) : list Q :=
  match row with
  | [] => []
  | x :: row' => (acc + x) :: cumsum_from (acc + x) row'
  end.

Definition np_cumsum (row : list Q) : list Q := cumsum_from 0 row.

Record sort_sum_result : Type := mk_sort_sum {
  ss_I : list (list nat);
  ss_ordered : list (list Q);
  ss_cumsum : list (list Q)
}.

Definition sort_sum (scores : list (list Q)) : sort_sum_result :=
  let I := map (fun row => reverse (np_argsort row)) scores in
  let ordered := map (fun row => reverse (np_sort row)) scores in
  let cumsum := map np_cumsum ordered in
  mk_sort_sum I ordered cumsum.

(** ** [AverageMeter]

<<
    def reset(self):
        self.val = 0
        self.avg = 0
        self.sum = 0
        self.count = 0

    def update(self, val, n=1):
        self.val = val
        self.sum += val * n
        self.count += n
        self.avg = self.sum / self.count
>>
    The object is a record of its attributes; a method maps the record
    before the call to the record after it.  [update] assigns [val], [sum]
    and [count] before it divides, so when the division raises
    [ZeroDivisionError] the three assignments have happened and [avg]
    keeps its old value. *)

Module AverageMeter.

Record t : Type := mk {
  name : string;
  fmt : string;
  val : Q;
  avg : Q;
  sum : Q;
  count : Z
}.

Definition reset (self : t) : t :=
  mk (name self) (fmt self) 0 0 0 0%Z.

(** [__init__(self, name, fmt=':f')]; the attributes [reset] assigns do
    not exist before it runs. *)
Definition init (name fmt : string) : t :=
  reset (mk name fmt 0 0 0 0%Z).

Definition update (self : t) (v : Q) (n : Z) : t * result unit :=
  let sum' := sum self + v * inject_Z n in
  let count' := (count self + n)%Z in
  if (count' =? 0)%Z
  then (mk (name self) (fmt self) v (avg self) sum' count',
        raise ZeroDivisionError)
  else (mk (name self) (fmt self) v (sum' / inject_Z count') sum' count',
        ok tt).

(** The object after a sequence of [update(val_i, n_i)] calls, every
    call being made whether or not an earlier one raised. *)
Definition updates (self : t) (calls : list (Q * Z)) : t :=
  fold_left (fun m c => fst (update m (fst c) (snd c))) calls self.

(** The same calls in a caller that does not catch: the first exception
    ends the sequence. *)
Fixpoint updates_uncaught (self : t) (calls : list (Q * Z)) : t * result unit :=
  match calls with
  | [] => (self, ok tt)
  | c :: calls' =>
      match update self (fst c) (snd c) with
      | (m, inr _) => updates_uncaught m calls'
      | (m, inl e) => (m, raise e)
      end
  end.

End AverageMeter.

(** ** numpy helpers used by [coverage_size] *)

(** [np.mean] of a one-dimensional array; the mean of no element is NaN. *)
Definition np_mean (l : list Q) : npfloat :=
  match l with
  | [] => NaN
  | _ => Num (Qsum l / Qnat (length l))
  end.

(** [a == True] on a boolean array, elementwise. *)
Definition eq_True (l : list bool) : list bool :=
  map (fun b => Bool.eqb b true) l.

(** [np.mean] of a boolean array: the fraction of [True] entries. *)
Definition np_mean_bool (l : list bool) : npfloat := np_mean (map Qbool l).

(** [sets.sum(1)]: the number of [True] entries of every row. *)
Definition row_sums (sets : list (list bool)) : list Q :=
  map (fun row => Qsum (map Qbool row)) sets.

(** [sets[rows, cols]] with two integer index arrays of one length: the
    entries [sets[rows[i], cols[i]]]; an index outside the array raises. *)
Definition take_pairs (sets : list (list bool)) (rows cols : list nat)
  : result (list bool) :=
  map_result
    (fun rc : nat * nat =>
       match sets !! fst rc with
       | None => raise IndexError
       | Some row =>
           match row !! snd rc with
           | None => raise IndexError
           | Some b => ok b
           end
       end)
    (zip rows cols).

(** [targets == cls], elementwise. *)
Definition eq_mask (targets : list nat) (cls : nat) : list bool :=
  map (fun t => Nat.eqb t cls) targets.

(** [sets[mask, :]]: the rows at which the boolean mask holds; a mask of
    another length than the array raises. *)
Definition mask_rows (sets : list (list bool)) (mask : list bool)
  : result (list (list bool)) :=
  if Nat.eqb (length mask) (length sets)
  then ok (map snd (filter (fun mr => fst mr = true) (zip mask sets)))
  else raise IndexError.

(** [sets[mask, cls]]: column [cls] of the rows at which the mask holds. *)
Definition mask_col (sets : list (list bool)) (mask : list bool) (cls : nat)
  : result (list bool) :=
  let! rows := mask_rows sets mask in
  map_result
    (fun row : list bool =>
       match row !! cls with
       | None => raise IndexError
       | Some b => ok b
       end)
    rows.

(** [np.unique(targets, return_counts=True)]: the distinct labels in
    ascending order and how often each occurs. *)
Definition np_unique (targets : list nat) : list nat * list nat :=
  let classes := remove_dups (merge_sort le targets) in
  (classes, map (fun c => length (filter (fun t => t = c) targets)) classes).

(** An n-dimensional float array: its shape and its cells in row-major
    order. *)
Record ndarray : Type := mk_ndarray {
  nd_shape : list nat;
  nd_data : list npfloat
}.

Definition prod_list (l : list nat) : nat := fold_right Nat.mul 1%nat l.

(** [np.zeros(shape)]; numpy refuses more than [maxdims] dimensions (32
    or 64, by version).  Running out of memory is not represented. *)
Definition np_zeros (maxdims : nat) (shape : list nat) : result ndarray :=
  if Nat.ltb maxdims (length shape)
  then raise ValueError
  else ok (mk_ndarray shape (replicate (prod_list shape) (Num 0))).

(** [a[i] = v] for an integer [i] and a scalar [v]: every cell of the
    [i]-th slice along the first axis becomes [v]. *)
Definition nd_setitem (a : ndarray) (i : nat) (v : npfloat) : result ndarray :=
  match nd_shape a with
  | [] => raise IndexError
  | d :: rest =>
      if Nat.ltb i d
      then
        let stride := prod_list rest in
        ok (mk_ndarray (nd_shape a)
              (take (i * stride) (nd_data a) ++ replicate stride v
                 ++ drop ((i + 1) * stride) (nd_data a)))
      else raise IndexError
  end.

Definition Qmin (x y : Q) : Q := if decide (x <= y) then x else y.
Definition Qmax (x y : Q) : Q := if decide (x <= y) then y else x.

(** The finite cells of an array, or [None] when one of them is NaN. *)
Fixpoint finite_cells (l : list npfloat) : option (list Q) :=
  match l with
  | [] => Some []
  | NaN :: _ => None
  | Num q :: l' =>
      match finite_cells l' with
      | None => None
      | Some qs => Some (q :: qs)
      end
  end.

(** [a.min()] and [a.max()] over all cells; NaN wins, no cell raises. *)
Definition nd_reduce (op : Q -> Q -> Q) (a : ndarray) : result npfloat :=
  match nd_data a with
  | [] => raise ValueError
  | _ =>
      match finite_cells (nd_data a) with
      | None => ok NaN
      | Some [] => raise ValueError
      | Some (q :: qs) => ok (Num (fold_left op qs q))
      end
  end.

Definition nd_min : ndarray -> result npfloat := nd_reduce Qmin.
Definition nd_max : ndarray -> result npfloat := nd_reduce Qmax.

(** The median of sorted finite values: the middle one, or the mean of
    the two middle ones. *)
Definition median_sorted (s : list Q) : npfloat :=
  let n := length s in
  if Nat.eqb n 0 then NaN
  else if Nat.odd n then Num (nth (n / 2) s 0)
  else Num ((nth (n / 2 - 1) s 0 + nth (n / 2) s 0) / 2).

(** [np.median(a)] over all cells. *)
Definition np_median (a : ndarray) : npfloat :=
  match finite_cells (nd_data a) with
  | None => NaN
  | Some qs => median_sorted (merge_sort Qle qs)
  end.

(** ** [coverage_size]

<<
def coverage_size(sets, targets):
    n_test = targets.shape[0]
    cvg = np.mean(sets[range(n_test), targets] == True)
    sz = sets.sum(1).mean()
    classes, counts = np.unique(targets, return_counts=True)
    cvgs, szs = np.zeros(counts), np.zeros(counts)
    for i, cls in enumerate(classes):
        cvgs[i] = np.mean(sets[targets == cls, cls] == True)
        szs[i] = sets[targets == cls, :].sum(1).mean()
    cls_cvg_min = cvgs.min()
    ...
>>
    [np.zeros(counts)] takes the array of counts as the SHAPE of the new
    array: [cvgs] and [szs] have one axis per observed class, the axis of
    class number [j] having [counts[j]] entries. *)

Record coverage_stats : Type := mk_coverage_stats {
  cvg : npfloat;
  sz : npfloat;
  cls_cvg_min : npfloat;
  cls_cvg_max : npfloat;
  cls_cvg_median : npfloat;
  cls_sz_min : npfloat;
  cls_sz_max : npfloat;
  cls_sz_median : npfloat
}.

(** [enumerate(l)] *)
Definition enumerate {A} (l : list A) : list (nat * A) :=
  zip (seq 0 (length l)) l.

(** One turn of the loop over the observed classes. *)
Definition class_step (sets : list (list bool)) (targets : list nat)
    (st : ndarray * ndarray) (ic : nat * nat) : result (ndarray * ndarray) :=
  let i := fst ic in
  let cls := snd ic in
  let! col := mask_col sets (eq_mask targets cls) cls in
  let! cvgs := nd_setitem (fst st) i (np_mean_bool (eq_True col)) in
  let! rows := mask_rows sets (eq_mask targets cls) in
  let! szs := nd_setitem (snd st) i (np_mean (row_sums rows)) in
  ok (cvgs, szs).

Definition coverage_size (maxdims : nat)
    (sets : list (list bool)) (targets : list nat) : result coverage_stats :=
  let n_test := length targets in
  let! hit := take_pairs sets (seq 0 n_test) targets in
  let cvg := np_mean_bool (eq_True hit) in
  let sz := np_mean (row_sums sets) in
  let classes := fst (np_unique targets) in
  let counts := snd (np_unique targets) in
  let! cvgs0 := np_zeros maxdims counts in
  let! szs0 := np_zeros maxdims counts in
  let! arrays :=
    for_each (class_step sets targets) (enumerate classes) (cvgs0, szs0) in
  let cvgs := fst arrays in
  let szs := snd arrays in
  let! cls_cvg_min := nd_min cvgs in
  let! cls_cvg_max := nd_max cvgs in
  let cls_cvg_median := np_median cvgs in
  let! cls_sz_min := nd_min szs in
  let! cls_sz_max := nd_max szs in
  let cls_sz_median := np_median szs in
  ok (mk_coverage_stats cvg sz cls_cvg_min cls_cvg_max cls_cvg_median
        cls_sz_min cls_sz_max cls_sz_median).

(** ** [accuracy]

<<
def accuracy(output, target, topk=(1, )):
    maxk = max(topk)
    batch_size = target.size(0)
    _, pred = output.topk(maxk, 1, True, True)
    pred = pred.t()
    correct = pred.eq(target.view(1, -1).expand_as(pred))
    res = []
    for k in topk:
        correct_k = correct[:k].float().sum()
        res.append(correct_k.mul_(100.0 / batch_size))
    return res
>>
    [output] has one row of scores per example.  [topk] picks, per row, the
    indices of the [maxk] largest scores, largest first; torch leaves the
    choice among equal scores open, the embedding takes the order its merge
    sort produces.  The number of columns of a matrix without rows is not
    represented. *)

(** [max(topk)]; the maximum of an empty tuple raises. *)
Definition py_max (l : list nat) : result nat :=
  match l with
  | [] => raise ValueError
  | x :: l' => ok (fold_left Nat.max l' x)
  end.

(** Descending order of the scores of a row. *)
Definition by_score_desc (row : list Q) : relation nat :=
  fun i j => score_at row j <= score_at row i.

#[global] Instance by_score_desc_dec (row : list Q)
  : RelDecision (by_score_desc row) :=
  fun i j => Qle_dec (score_at row j) (score_at row i).

(** The column indices of a row, highest score first. *)
Definition argsort_desc (row : list Q) : list nat :=
  merge_sort (by_score_desc row) (seq 0 (length row)).

(** [row.topk(k)]: the indices of the [k] largest scores; asking for more
    than there are columns raises. *)
Definition topk_row (k : nat) (row : list Q) : result (list nat) :=
  if Nat.ltb (length row) k
  then raise RuntimeError
  else ok (take k (argsort_desc row)).

(** [output.topk(maxk, 1, True, True)], the indices only. *)
Definition torch_topk (k : nat) (output : list (list Q))
  : result (list (list nat)) :=
  map_result (topk_row k) output.

(** [m.t()] of a matrix with [ncols] columns. *)
Definition transpose {A} (d : A) (ncols : nat) (m : list (list A))
  : list (list A) :=
  map (fun j => map (fun row => nth j row d) m) (seq 0 ncols).

(** [target.view(1, -1).expand_as(pred)]: the row of labels repeated for
    each of the [nrows] rows of [pred]; a single label is broadcast over
    the [ncols] columns, any other length mismatch raises. *)
Definition expand_as (target : list nat) (nrows ncols : nat)
  : result (list (list nat)) :=
  if Nat.eqb (length target) ncols
  then ok (replicate nrows target)
  else
    match target with
    | [t] => ok (replicate nrows (replicate ncols t))
    | _ => raise RuntimeError
    end.

(** [pred.eq(labels)], elementwise on two matrices of one shape. *)
Definition tensor_eq (pred labels : list (list nat)) : list (list bool) :=
  zip_with (zip_with Nat.eqb) pred labels.

(** [m.float().sum()]: the number of [True] cells of a boolean matrix. *)
Definition float_sum (m : list (list bool)) : Q :=
  Qsum (map (fun row => Qsum (map Qbool row)) m).

(** [100.0 / batch_size] *)
Definition percent_per_example (batch_size : nat) : result Q :=
  if Nat.eqb batch_size 0
  then raise ZeroDivisionError
  else ok (100 / Qnat batch_size).

Definition accuracy (output : list (list Q)) (target : list nat)
    (topk : list nat) : result (list Q) :=
  let! maxk := py_max topk in
  let batch_size := length target in
  let! pred := torch_topk maxk output in
  let pred := transpose 0%nat maxk pred in
  let! labels := expand_as target maxk (length output) in
  let correct := tensor_eq pred labels in
  map_result
    (fun k =>
       let correct_k := float_sum (take k correct) in
       let! scale := percent_per_example batch_size in
       ok (correct_k * scale))
    topk.

(** *** [accuracy] as torch computes it

    [output.topk] returns, per row, the indices of [maxk] largest scores in
    descending order of score; which of several equal scores it takes, and
    in which order, is not specified, so the function is a parameter.
    [correct[:k].float().sum()] is a [float32] holding the number of [True]
    cells (exactly, up to [2^24] of them); [100.0 / batch_size] is a Python
    float, the [float64] quotient; [mul_] converts it to [float32] and
    stores the [float32] product. *)

Definition count_true (m : list (list bool)) : nat :=
  length (filter (fun b : bool => b = true) (concat m)).

Module Torch.

Section Accuracy.

Variable topk : nat -> list Q -> list nat.

Definition topk_row (k : nat) (row : list Q) : result (list nat) :=
  if Nat.ltb (length row) k
  then raise RuntimeError
  else ok (topk k row).

Definition torch_topk (k : nat) (output : list (list Q))
  : result (list (list nat)) :=
  map_result (topk_row k) output.

Definition float_sum (m : list (list bool)) : spec_float :=
  Float32.of_Z (Z.of_nat (count_true m)).

Definition percent_per_example (batch_size : nat) : result spec_float :=
  if Nat.eqb batch_size 0
  then raise ZeroDivisionError
  else ok (Float64.div (Float64.of_Z 100)
             (Float64.of_Z (Z.of_nat batch_size))).

Definition accuracy (output : list (list Q)) (target : list nat)
    (topks : list nat) : result (list spec_float) :=
  let! maxk := py_max topks in
  let batch_size := length target in
  let! pred := torch_topk maxk output in
  let pred := transpose 0%nat maxk pred in
  let! labels := expand_as target maxk (length output) in
  let correct := tensor_eq pred labels in
  map_result
    (fun k =>
       let correct_k := float_sum (take k correct) in
       let! scale := percent_per_example batch_size in
       ok (Float32.mul correct_k (Float32.of_float64 scale)))
    topks.

End Accuracy.

End Torch.

(** ** [get_model]

<<
def get_model(modelname):
    if modelname == 'ResNet18':
        model = torchvision.models.resnet18(pretrained=True, progress=True)
    elif modelname == 'ResNet50':
    ...
    else:
        raise NotImplementedError
    model.eval()
    model = torch.nn.DataParallel(model).cuda()
    return model
>>
    The value returned for a recognized name stands for the pretrained
    torchvision network of that architecture. *)

Inductive architecture : Type :=
  | resnet18
  | resnet50
  | resnet101
  | resnet152
  | resnext101_32x8d
  | vgg16
  | shufflenet_v2_x1_0
  | inception_v3
  | densenet161.

Definition get_model (modelname : string) : result architecture :=
  if String.eqb modelname "ResNet18" then ok resnet18
  else if String.eqb modelname "ResNet50" then ok resnet50
  else if String.eqb modelname "ResNet101" then ok resnet101
  else if String.eqb modelname "ResNet152" then ok resnet152
  else if String.eqb modelname "ResNeXt101" then ok resnext101_32x8d
  else if String.eqb modelname "VGG16" then ok vgg16
  else if String.eqb modelname "ShuffleNet" then ok shufflenet_v2_x1_0
  else if String.eqb modelname "Inception" then ok inception_v3
  else if String.eqb modelname "DenseNet161" then ok densenet161
  else raise NotImplementedError.

(** The nine architecture identifiers the specification lists. *)
Definition recognized_names : list string :=
  ["ResNet18"; "ResNet50"; "ResNet101"; "ResNet152"; "ResNeXt101";
   "VGG16"; "ShuffleNet"; "Inception"; "DenseNet161"]%string.

(** ** [get_logits_targets]

<<
def get_logits_targets(model, loader):
    logits = torch.zeros((len(loader.dataset), 1000))
    labels = torch.zeros((len(loader.dataset), ))
    i = 0
    with torch.no_grad():
        for x, targets in tqdm(loader):
            batch_logits = model(x.cuda()).detach().cpu()
            logits[i:(i + x.shape[0]), :] = batch_logits
            labels[i:(i + x.shape[0])] = targets.cpu()
            i = i + x.shape[0]
    dataset_logits = torch.utils.data.TensorDataset(logits, labels.long())
    return dataset_logits
>>
    A loader is the length of its dataset and the batches it yields; a
    batch is the images [x] and the labels [targets].  The network is a
    function from a batch of images to a matrix of logits that may raise.
    The label vector is a [float32] tensor: a label is rounded to a float
    when it is stored, and [labels.long()] reads the integers back. *)

Record TensorDataset : Type := mk_TensorDataset {
  td_logits : list (list Q);
  td_labels : list Z
}.

(** The width of the logits table: [1000  # 1000 classes in Imagenet]. *)
Definition n_classes : nat := 1000.

(** The value a [float32] cell holds after an [int64] is stored in it:
    the integer rounded to 24 significant bits, ties to even. *)
Definition float32_of_long (z : Z) : Z :=
  let a := Z.abs z in
  if (a <? 2 ^ 24)%Z then z
  else
    let e := (Z.log2 a - 23)%Z in
    let q := (a / 2 ^ e)%Z in
    let r := (a mod 2 ^ e)%Z in
    let half := (2 ^ (e - 1))%Z in
    let q' :=
      if (r <? half)%Z then q
      else if (half <? r)%Z then (q + 1)%Z
      else if Z.even q then q else (q + 1)%Z in
    (Z.sgn z * (q' * 2 ^ e))%Z.

(** Broadcasting along one axis: a source of the size of the target is
    taken as it is, a source of size one is repeated, any other raises. *)
Definition broadcast_to {A} (n : nat) (src : list A) : result (list A) :=
  if Nat.eqb (length src) n then ok src
  else
    match src with
    | [x] => ok (replicate n x)
    | _ => raise RuntimeError
    end.

(** [table[i:j] = src]: the slice is clipped to the table, the source is
    broadcast to the clipped slice. *)
Definition assign_slice {A} (table : list A) (i j : nat) (src : list A)
  : result (list A) :=
  let lo := Nat.min i (length table) in
  let hi := Nat.max lo (Nat.min j (length table)) in
  let! cells := broadcast_to (hi - lo) src in
  ok (take lo table ++ cells ++ drop hi table).

(** [logits[i:j, :] = src]: as [assign_slice], every row of the source
    being broadcast to the width of the table as well. *)
Definition assign_rows (table : list (list Q)) (i j : nat)
    (src : list (list Q)) : result (list (list Q)) :=
  let! rows := map_result (broadcast_to n_classes) src in
  assign_slice table i j rows.

Section InferenceRunner.

Context {Image : Type}.

Record Loader : Type := mk_Loader {
  dataset_len : nat;
  batches : list (list Image * list Z)
}.

(** The local variables of the loop. *)
Record runner_state : Type := mk_runner_state {
  rs_logits : list (list Q);
  rs_labels : list Z;
  rs_i : nat
}.

Variable model : list Image -> result (list (list Q)).

Definition batch_step (st : runner_state) (batch : list Image * list Z)
  : result runner_state :=
  let x := fst batch in
  let targets := snd batch in
  let i := rs_i st in
  let! batch_logits := model x in
  let! logits := assign_rows (rs_logits st) i (i + length x) batch_logits in
  let! labels :=
    assign_slice (rs_labels st) i (i + length x)
      (map float32_of_long targets) in
  ok (mk_runner_state logits labels (i + length x)).

Definition runner_init (loader : Loader) : runner_state :=
  mk_runner_state
    (replicate (dataset_len loader) (replicate n_classes 0))
    (replicate (dataset_len loader) 0%Z)
    0.

Definition get_logits_targets (loader : Loader) : result TensorDataset :=
  let! st := for_each batch_step (batches loader) (runner_init loader) in
  ok (mk_TensorDataset (rs_logits st) (rs_labels st)).

End InferenceRunner.

(** ** [get_logits_dataset]

<<
def get_logits_dataset(modelname, datasetname, datasetpath, cache=...):
    fname = cache + datasetname + '/' + modelname + '.pkl'
    if os.path.exists(fname):
        with open(fname, 'rb') as handle:
            return pickle.load(handle)
    model = get_model(modelname)
    transform = transforms.Compose([...])
    dataset = torchvision.datasets.ImageFolder(datasetpath, transform)
    loader = torch.utils.data.DataLoader(dataset, batch_size=32,
                                         shuffle=False, pin_memory=True)
    dataset_logits = get_logits_targets(model, loader)
    os.makedirs(os.path.dirname(fname), exist_ok=True)
    with open(fname, 'wb') as handle:
        pickle.dump(dataset_logits, handle, protocol=pickle.HIGHEST_PROTOCOL)
    return dataset_logits
>>
    The function runs in a world: the regular files of the disk, by path,
    and the log of the costly effects performed so far. *)

(** [os.path.dirname] on POSIX paths. *)
Definition is_slash (c : ascii) : bool := Ascii.eqb c "/"%char.

Fixpoint drop_while {A} (f : A -> bool) (l : list A) : list A :=
  match l with
  | [] => []
  | x :: l' => if f x then drop_while f l' else l
  end.

Definition dirname (p : string) : string :=
  let head := rev (drop_while (fun c => negb (is_slash c))
                     (rev (list_ascii_of_string p))) in
  if forallb is_slash head
  then string_of_list_ascii head
  else string_of_list_ascii (rev (drop_while is_slash (rev head))).

(** [DataLoader(dataset, batch_size, shuffle=False)]: the examples in
    dataset order, cut into batches of [batch_size] (the last one may be
    shorter); [fuel] bounds the number of batches. *)
Fixpoint chunks {A} (fuel batch_size : nat) (l : list A) : list (list A) :=
  match fuel with
  | 0%nat => []
  | S fuel' =>
      match l with
      | [] => []
      | _ => take batch_size l :: chunks fuel' batch_size (drop batch_size l)
      end
  end.

Definition collate {Image} (examples : list (Image * Z)) : list Image * list Z :=
  (map fst examples, map snd examples).

Definition DataLoader {Image} (dataset : list (Image * Z)) (batch_size : nat)
  : @Loader Image :=
  mk_Loader (length dataset)
    (map collate (chunks (length dataset) batch_size dataset)).

Inductive event : Type :=
  | EvInference (a : architecture) (n_examples : nat)
  | EvMakedirs (dir : string)
  | EvWrite (fname : string).

Section LogitCache.

(** What the function takes from its environment: the images, the
    serialized form of a dataset with [pickle]'s two directions, the
    image folder found at a path (after the fixed preprocessing), and the
    forward pass of each pretrained network. *)
Context {Image bytes : Type}.
Variable pickle_dump : TensorDataset -> bytes.
Variable pickle_load : bytes -> result TensorDataset.
Variable ImageFolder : string -> result (list (Image * Z)).
Variable forward : architecture -> list Image -> result (list (list Q)).

Record world : Type := mk_world {
  files : gmap string bytes;
  events : list event
}.

Definition log (e : event) (w : world) : world :=
  mk_world (files w) (events w ++ [e]).

Definition write_file (fname : string) (content : bytes) (w : world) : world :=
  mk_world (<[fname := content]> (files w)) (events w ++ [EvWrite fname]).

Definition cache_path (cache datasetname modelname : string) : string :=
  cache +:+ datasetname +:+ "/" +:+ modelname +:+ ".pkl".

(** The part of the function after the cache test: the full pass. *)
Definition recompute (modelname datasetpath fname : string) (w : world)
  : result TensorDataset * world :=
  match get_model modelname with
  | inl e => (raise e, w)
  | inr model =>
      match ImageFolder datasetpath with
      | inl e => (raise e, w)
      | inr dataset =>
          let loader := DataLoader dataset 32 in
          let w1 := log (EvInference model (length dataset)) w in
          match get_logits_targets (forward model) loader with
          | inl e => (raise e, w1)
          | inr dataset_logits =>
              let w2 := log (EvMakedirs (dirname fname)) w1 in
              let w3 := write_file fname (pickle_dump dataset_logits) w2 in
              (ok dataset_logits, w3)
          end
      end
  end.

Definition get_logits_dataset (modelname datasetname datasetpath cache : string)
    (w : world) : result TensorDataset * world :=
  let fname := cache_path cache datasetname modelname in
  match files w !! fname with
  | Some content => (pickle_load content, w)
  | None => recompute modelname datasetpath fname w
  end.

End LogitCache.

(** ** [data2tensor]

<<
def data2tensor(data):
    imgs = torch.cat([x[0].unsqueeze(0) for x in data], dim=0).cuda()
    targets = torch.cat([torch.Tensor([int(x[1])]) for x in data],
                        dim=0).long()
    return imgs, targets
>>
    [torch.cat] refuses an empty list, with [ValueError] in the current
    releases of torch, and tensors of different shapes, with
    [RuntimeError].  The labels go through [torch.Tensor], a [float32]
    tensor, before [.long()]: they are rounded as in [get_logits_targets]
    (labels beyond the range of [int64] are not represented). *)

Section Data2Tensor.

Context {Image : Type}.
Variable shape : Image -> list nat.

(** [torch.cat([x.unsqueeze(0) for x in xs], dim=0)]: the images stacked
    along a new first axis. *)
Definition torch_cat_images (xs : list Image) : result (list Image) :=
  match xs with
  | [] => raise ValueError
  | x :: rest =>
      if forallb (fun y => bool_decide (shape y = shape x)) rest
      then ok xs
      else raise RuntimeError
  end.

(** [torch.cat] of one-element vectors. *)
Definition torch_cat_scalars {A} (xs : list A) : result (list A) :=
  match xs with
  | [] => raise ValueError
  | _ => ok xs
  end.

Definition data2tensor (data : list (Image * Z)) : result (list Image * list Z) :=
  let! imgs := torch_cat_images (map fst data) in
  let! targets :=
    torch_cat_scalars (map (fun x => float32_of_long (snd x)) data) in
  ok (imgs, targets).

End Data2Tensor.

(** ** [split2] and [split2ImageFolder]

<<
def split2ImageFolder(path, transform, n1, n2):
    dataset = torchvision.datasets.ImageFolder(path, transform)
    data1, data2 = torch.utils.data.random_split(dataset,
                                                 [n1, len(dataset) - n1])
    data2, _ = torch.utils.data.random_split(data2,
                                             [n2, len(dataset) - n1 - n2])
    return data1, data2

def split2(dataset, n1, n2):
    data1, temp = torch.utils.data.random_split(
        dataset, [n1, dataset.tensors[0].shape[0] - n1])
    data2, _ = torch.utils.data.random_split(
        temp, [n2, dataset.tensors[0].shape[0] - n1 - n2])
    return data1, data2
>>
    [random_split] is torch's:
<<
    if math.isclose(sum(lengths), 1) and sum(lengths) <= 1:
        subset_lengths = []
        for i, frac in enumerate(lengths):
            if frac < 0 or frac > 1:
                raise ValueError(...)
            subset_lengths.append(int(math.floor(len(dataset) * frac)))
        remainder = len(dataset) - sum(subset_lengths)
        for i in range(remainder):
            subset_lengths[i % len(subset_lengths)] += 1
        lengths = subset_lengths
    if sum(lengths) != len(dataset):
        raise ValueError(...)
    indices = randperm(sum(lengths)).tolist()
    return [Subset(dataset, indices[offset - length:offset])
            for offset, length in zip(_accumulate(lengths), lengths)]
>>
    The first [if] came with torch 1.13; the flag [fractions] of the
    embedding tells whether it is there.  The lengths the two functions
    pass are integers.  The permutation [randperm] draws is an argument of
    the embedding.  A dataset is the list of its examples (for [split2] a
    [TensorDataset], whose length is [tensors[0].shape[0]]) and a [Subset]
    the list of the examples its indices select (an index outside the
    dataset raises when the subset is built, where Python raises when the
    example is read). *)

(** [l[a:b]] for integers of either sign. *)
Definition clamp_index (len i : Z) : Z :=
  let i := if (i <? 0)%Z then (i + len)%Z else i in
  Z.max 0 (Z.min len i).

Definition py_slice {A} (l : list A) (a b : Z) : list A :=
  let len := Z.of_nat (length l) in
  let a' := clamp_index len a in
  let b' := clamp_index len b in
  take (Z.to_nat (b' - a')) (drop (Z.to_nat a') l).

(** [zip(_accumulate(lengths), lengths)] as the bounds [offset - length]
    and [offset] of each slice, [start] being the sum so far. *)
Fixpoint slice_bounds (start : Z) (lengths : list Z) : list (Z * Z) :=
  match lengths with
  | [] => []
  | len :: rest =>
      ((start + len - len)%Z, (start + len)%Z)
        :: slice_bounds (start + len) rest
  end.

(** [Subset(dataset, indices)] *)
Definition Subset {A} (dataset : list A) (indices : list nat) : result (list A) :=
  map_result
    (fun i => match dataset !! i with
              | Some x => ok x
              | None => raise IndexError
              end)
    indices.

Definition sum_Z (l : list Z) : Z := fold_right Z.add 0%Z l.

(** Lengths read as fractions of a dataset of [len] examples. *)
Definition fraction_lengths (len : Z) (lengths : list Z) : result (list Z) :=
  let! subset_lengths :=
    map_result
      (fun frac =>
         if ((frac <? 0) || (1 <? frac))%Z
         then raise ValueError
         else ok (len * frac)%Z)
      lengths in
  let remainder := Z.to_nat (len - sum_Z subset_lengths) in
  ok (fold_left
        (fun ls i => alter (Z.add 1) (i mod length ls)%nat ls)
        (seq 0 remainder) subset_lengths).

Definition random_split {A} (fractions : bool) (randperm : list nat)
    (dataset : list A) (lengths : list Z) : result (list (list A)) :=
  let len := Z.of_nat (length dataset) in
  let! lengths :=
    if fractions && (sum_Z lengths =? 1)%Z
    then fraction_lengths len lengths
    else ok lengths in
  if negb (sum_Z lengths =? len)%Z
  then raise ValueError
  else
    map_result
      (fun bounds => Subset dataset (py_slice randperm (fst bounds) (snd bounds)))
      (slice_bounds 0 lengths).

(** [a, b = parts]: unpacking a list of another length raises. *)
Definition unpack2 {A} (parts : list A) : result (A * A) :=
  match parts with
  | [a; b] => ok (a, b)
  | _ => raise ValueError
  end.

(** [draw1] and [draw2] are the permutations the two calls of
    [random_split] draw. *)
Definition split2 {A} (fractions : bool) (draw1 draw2 : list nat)
    (dataset : list A) (n1 n2 : Z) : result (list A * list A) :=
  let len := Z.of_nat (length dataset) in
  let! parts := random_split fractions draw1 dataset [n1; (len - n1)%Z] in
  let! data1_temp := unpack2 parts in
  let data1 := fst data1_temp in
  let temp := snd data1_temp in
  let! parts := random_split fractions draw2 temp [n2; (len - n1 - n2)%Z] in
  let! data2_rest := unpack2 parts in
  ok (data1, fst data2_rest).

(** [image_folder] stands for [torchvision.datasets.ImageFolder] with the
    given transform: the examples found at the path, or an exception. *)
Definition split2ImageFolder {A} (fractions : bool)
    (image_folder : string -> result (list A))
    (draw1 draw2 : list nat) (path : string) (n1 n2 : Z)
  : result (list A * list A) :=
  let! dataset := image_folder path in
  let len := Z.of_nat (length dataset) in
  let! parts := random_split fractions draw1 dataset [n1; (len - n1)%Z] in
  let! data1_data2 := unpack2 parts in
  let data1 := fst data1_data2 in
  let data2 := snd data1_data2 in
  let! parts := random_split fractions draw2 data2 [n2; (len - n1 - n2)%Z] in
  let! data2_rest := unpack2 parts in
  ok (data1, fst data2_rest).

(** ** The metric functions on arrays in memory

    The definitions above give the value each function computes.  To state
    what the functions do to the arrays they are handed, the three metric
    functions are transcribed once more over a store of array buffers: an
    array object is a reference to a buffer together with the view it reads
    the buffer through (a slice, a transposition and an expansion share the
    buffer of the array they are taken from), a call that returns a new
    array allocates a buffer, and an in-place operation ([a[i] = v],
    [mul_]) overwrites one. *)

Module Store.

Inductive buffer : Type :=
  | BFloat (m : list (list Q))
  | BBool (m : list (list bool))
  | BInt (m : list (list nat))
  | BLabels (v : list nat)
  | BStats (a : ndarray)
  | BScalar (x : Q).

Abbreviation heap := (list buffer).

Record array : Type := mk_array {
  base : nat;
  through : buffer -> buffer
}.

(** The content of an array object in a heap. *)
Definition deref (h : heap) (a : array) : option buffer :=
  through a <$> h !! base a.

(** Computations that read and write the heap and may raise. *)
Definition M (A : Type) : Type := heap -> result A * heap.

Definition ret {A} (a : A) : M A := fun h => (ok a, h).

Definition lift {A} (r : result A) : M A := fun h => (r, h).

Definition mbind {A B} (m : M A) (k : A -> M B) : M B :=
  fun h =>
    match m h with
    | (inl e, h') => (inl e, h')
    | (inr a, h') => k a h'
    end.

Notation "x <- m ;; k" := (mbind m (fun x => k))
  (at level 100, m at next level, right associativity).

Definition alloc (b : buffer) : M array :=
  fun h => (ok (mk_array (length h) (fun b => b)), h ++ [b]).

Definition load (a : array) : M buffer :=
  fun h =>
    match deref h a with
    | Some b => (ok b, h)
    | None => (raise RuntimeError, h)
    end.

(** Overwrite the buffer an array object owns. *)
Definition store (a : array) (b : buffer) : M unit :=
  fun h => (ok tt, <[base a := b]> h).

Definition load_float (a : array) : M (list (list Q)) :=
  b <- load a ;;
  match b with BFloat m => ret m | _ => lift (raise TypeError) end.

Definition load_bool (a : array) : M (list (list bool)) :=
  b <- load a ;;
  match b with BBool m => ret m | _ => lift (raise TypeError) end.

Definition load_int (a : array) : M (list (list nat)) :=
  b <- load a ;;
  match b with BInt m => ret m | _ => lift (raise TypeError) end.

Definition load_labels (a : array) : M (list nat) :=
  b <- load a ;;
  match b with BLabels v => ret v | _ => lift (raise TypeError) end.

Definition load_stats (a : array) : M ndarray :=
  b <- load a ;;
  match b with BStats x => ret x | _ => lift (raise TypeError) end.

Definition load_scalar (a : array) : M Q :=
  b <- load a ;;
  match b with BScalar x => ret x | _ => lift (raise TypeError) end.

(** [for x in xs: body(x)] *)
Fixpoint for_M {A} (body : A -> M unit) (xs : list A) : M unit :=
  match xs with
  | [] => ret tt
  | x :: xs' => _ <- body x ;; for_M body xs'
  end.

(** [res = []; for x in xs: res.append(body(x))] *)
Fixpoint map_M {A B} (body : A -> M B) (xs : list A) : M (list B) :=
  match xs with
  | [] => ret []
  | x :: xs' => y <- body x ;; ys <- map_M body xs' ;; ret (y :: ys)
  end.

(** Views: [a[:, ::-1]], [a.t()], [a[:k]] and
    [a.view(1, -1).expand_as(b)]. *)
Definition flip_columns (b : buffer) : buffer :=
  match b with
  | BFloat m => BFloat (map reverse m)
  | BBool m => BBool (map reverse m)
  | BInt m => BInt (map reverse m)
  | _ => b
  end.

Definition transposed (ncols : nat) (b : buffer) : buffer :=
  match b with
  | BFloat m => BFloat (transpose 0 ncols m)
  | BBool m => BBool (transpose false ncols m)
  | BInt m => BInt (transpose 0%nat ncols m)
  | _ => b
  end.

Definition first_rows (k : nat) (b : buffer) : buffer :=
  match b with
  | BFloat m => BFloat (take k m)
  | BBool m => BBool (take k m)
  | BInt m => BInt (take k m)
  | _ => b
  end.

Definition expanded (nrows ncols : nat) (b : buffer) : buffer :=
  match b with
  | BLabels v =>
      match expand_as v nrows ncols with
      | inr m => BInt m
      | inl _ => b
      end
  | _ => b
  end.

Definition view (f : buffer -> buffer) (a : array) : array :=
  mk_array (base a) (fun b => f (through a b)).

Definition sort_sum (scores : array) : M (array * array * array) :=
  s <- load_float scores ;;
  ascending_I <- alloc (BInt (map np_argsort s)) ;;
  let I := view flip_columns ascending_I in
  s <- load_float scores ;;
  ascending <- alloc (BFloat (map np_sort s)) ;;
  let ordered := view flip_columns ascending in
  o <- load_float ordered ;;
  cumsum <- alloc (BFloat (map np_cumsum o)) ;;
  ret (I, ordered, cumsum).

(** [a[i] = v], in place. *)
Definition setitem (a : array) (i : nat) (v : npfloat) : M unit :=
  x <- load_stats a ;;
  x' <- lift (nd_setitem x i v) ;;
  store a (BStats x').

Definition class_step (sets targets cvgs szs : array) (ic : nat * nat)
  : M unit :=
  let i := fst ic in
  let cls := snd ic in
  S <- load_bool sets ;;
  T <- load_labels targets ;;
  col <- lift (mask_col S (eq_mask T cls) cls) ;;
  _ <- setitem cvgs i (np_mean_bool (eq_True col)) ;;
  S <- load_bool sets ;;
  T <- load_labels targets ;;
  rows <- lift (mask_rows S (eq_mask T cls)) ;;
  setitem szs i (np_mean (row_sums rows)).

Definition coverage_size (maxdims : nat) (sets targets : array)
  : M coverage_stats :=
  T <- load_labels targets ;;
  let n_test := length T in
  S <- load_bool sets ;;
  hit <- lift (take_pairs S (seq 0 n_test) T) ;;
  let cvg := np_mean_bool (eq_True hit) in
  S <- load_bool sets ;;
  let sz := np_mean (row_sums S) in
  T <- load_labels targets ;;
  let classes := fst (np_unique T) in
  let counts := snd (np_unique T) in
  z <- lift (np_zeros maxdims counts) ;;
  cvgs <- alloc (BStats z) ;;
  z <- lift (np_zeros maxdims counts) ;;
  szs <- alloc (BStats z) ;;
  _ <- for_M (class_step sets targets cvgs szs) (enumerate classes) ;;
  a <- load_stats cvgs ;;
  cls_cvg_min <- lift (nd_min a) ;;
  a <- load_stats cvgs ;;
  cls_cvg_max <- lift (nd_max a) ;;
  a <- load_stats cvgs ;;
  let cls_cvg_median := np_median a in
  a <- load_stats szs ;;
  cls_sz_min <- lift (nd_min a) ;;
  a <- load_stats szs ;;
  cls_sz_max <- lift (nd_max a) ;;
  a <- load_stats szs ;;
  let cls_sz_median := np_median a in
  ret (mk_coverage_stats cvg sz cls_cvg_min cls_cvg_max cls_cvg_median
         cls_sz_min cls_sz_max cls_sz_median).

(** One turn of the loop over [topk]: [correct[:k]] is a view,
    [.float()] and [.sum()] make new tensors, [mul_] overwrites the one
    [.sum()] made. *)
Definition topk_step (correct : array) (batch_size : nat) (k : nat)
  : M array :=
  c <- load_bool (view (first_rows k) correct) ;;
  as_float <- alloc (BFloat (map (map Qbool) c)) ;;
  f <- load_float as_float ;;
  correct_k <- alloc (BScalar (Qsum (map Qsum f))) ;;
  scale <- lift (percent_per_example batch_size) ;;
  x <- load_scalar correct_k ;;
  _ <- store correct_k (BScalar (x * scale)) ;;
  ret correct_k.

Definition accuracy (output target : array) (topk : list nat)
  : M (list array) :=
  maxk <- lift (py_max topk) ;;
  T <- load_labels target ;;
  let batch_size := length T in
  O <- load_float output ;;
  indices <- lift (torch_topk maxk O) ;;
  pred <- alloc (BInt indices) ;;
  let pred := view (transposed maxk) pred in
  T <- load_labels target ;;
  _ <- lift (expand_as T maxk (length O)) ;;
  let labels := view (expanded maxk (length O)) target in
  p <- load_int pred ;;
  l <- load_int labels ;;
  correct <- alloc (BBool (tensor_eq p l)) ;;
  map_M (topk_step correct batch_size) topk.

End Store.

(** ** Quantities the statements below are phrased with *)

(** [Σ n_i] and [Σ val_i * n_i] over a sequence of [update(val_i, n_i)]
    calls. *)
Definition total_count (calls : list (Q * Z)) : Z :=
  fold_right Z.add 0%Z (map snd calls).

Definition weighted_sum (calls : list (Q * Z)) : Q :=
  Qsum (map (fun c => fst c * inject_Z (snd c)) calls).

(** What the network returns for a batch: a matrix with one row of
    [n_classes] logits per image. *)
Definition answers {Image} (model : list Image -> result (list (list Q)))
    (batch : list Image * list Z) (out : list (list Q)) : Prop :=
  model (fst batch) = ok out /\
  length out = length (fst batch) /\
  Forall (fun r => length r = n_classes) out.

(** The number of examples a list of batches yields. *)
Definition n_examples {Image} (bs : list (list Image * list Z)) : nat :=
  length (concat (map fst bs)).

(** The classes [topk] ranks first in a row, and what it means for a set
    of classes to be a set of highest-scoring ones: no class outside the
    set scores more than a class inside. *)
Definition top_classes (k : nat) (row : list Q) : list nat :=
  take k (argsort_desc row).

Definition highest_scoring (row : list Q) (cs : list nat) : Prop :=
  NoDup cs /\
  (forall i, i ∈ cs -> (i < length row)%nat) /\
  (forall i j, i ∈ cs -> (j < length row)%nat -> j ∉ cs ->
               score_at row j <= score_at row i).

(** An example is a hit at [k] when its label is among the [k] classes
    ranked first; [hits] counts the examples that are. *)
Definition is_hit (k : nat) (example : list Q * nat) : bool :=
  bool_decide (snd example ∈ top_classes k (fst example)).

Definition hits (k : nat) (output : list (list Q)) (target : list nat) : nat :=
  length (filter (fun ex => is_hit k ex = true) (zip output target)).

(** What [topk] is known to return for [k] no more than the number of
    columns: [k] indices in descending order of score, forming a set of
    highest-scoring classes. *)
Definition topk_spec (topk : nat -> list Q -> list nat) : Prop :=
  forall k row, (k <= length row)%nat ->
    length (topk k row) = k /\
    Sorted (by_score_desc row) (topk k row) /\
    highest_scoring row (topk k row).

(** The examples whose label is among the first [k] of the [maxk] indices
    [topk] returned for their row. *)
Definition topk_hits (topk : nat -> list Q -> list nat) (maxk k : nat)
    (output : list (list Q)) (target : list nat) : nat :=
  length (filter (fun ex => bool_decide (snd ex ∈ take k (topk maxk (fst ex)))
                            = true)
            (zip output target)).

(** The percentage as [accuracy] stores it for [h] hits among [n]
    examples. *)
Definition float32_percentage (h n : nat) : spec_float :=
  Float32.mul (Float32.of_Z (Z.of_nat h))
    (Float32.of_float64
       (Float64.div (Float64.of_Z 100) (Float64.of_Z (Z.of_nat n)))).

(** The prediction set that contains the class [t] and no other, as a row
    of [C] booleans. *)
Definition one_hot (C t : nat) : list bool :=
  map (fun j => Nat.eqb j t) (seq 0 C).

(** The per-class statistics as the specification words them: for a class
    [k], the fraction of the examples labelled [k] whose set contains [k],
    and the mean cardinality of the sets of the examples labelled [k]; then
    the minimum, maximum and median of these values over the observed
    classes, one value per class. *)
Definition examples_of (sets : list (list bool)) (targets : list nat) (k : nat)
  : list (list bool) :=
  map fst (filter (fun st => snd st = k) (zip sets targets)).

Definition class_coverage (sets : list (list bool)) (targets : list nat)
    (k : nat) : npfloat :=
  np_mean_bool (map (fun row => nth k row false) (examples_of sets targets k)).

Definition class_size (sets : list (list bool)) (targets : list nat)
    (k : nat) : npfloat :=
  np_mean (row_sums (examples_of sets targets k)).

Definition observed_classes (targets : list nat) : list nat :=
  fst (np_unique targets).

(** A one-dimensional array holding the given values. *)
Definition vector (values : list npfloat) : ndarray :=
  mk_ndarray [length values] values.

Definition spec_cls_cvgs (sets : list (list bool)) (targets : list nat)
  : ndarray :=
  vector (map (class_coverage sets targets) (observed_classes targets)).

Definition spec_cls_szs (sets : list (list bool)) (targets : list nat)
  : ndarray :=
  vector (map (class_size sets targets) (observed_classes targets)).

(** A heap [h'] leaves a heap [h] unchanged when every buffer of [h] is in
    [h'] at its place with its content: [h'] is [h] followed by the buffers
    allocated since. *)
Definition unchanged (h h' : Store.heap) : Prop := h `prefix_of` h'.

(** The percentage [accuracy] computes for one [k] from the matrix
    [correct]. *)
Definition percentage_of (c : list (list bool)) (batch_size k : nat)
  : result Q :=
  let! scale := percent_per_example batch_size in
  ok (float_sum (take k c) * scale).

(** [n] calls made one after the other in a world: what each returned and
    the world after the last. *)
Fixpoint call_repeatedly {W R} (call : W -> R * W) (n : nat) (w : W)
  : list R * W :=
  match n with
  | O => ([], w)
  | S n' =>
      let rw := call w in
      let rest := call_repeatedly call n' (snd rw) in
      (fst rw :: fst rest, snd rest)
  end.

(** ** A small environment for the worked examples

    Images are numbers, the network answers an image [i] with a row of
    [n_classes] logits all equal to [i], the image folder at any path holds
    three labelled images, and a file holds either the pickle of a dataset
    or bytes that are no pickle. *)
Module Example.

Definition Image : Type := nat.

Definition net (i : Image) : list Q := replicate n_classes (Qnat i).

Definition model (x : list Image) : result (list (list Q)) := ok (map net x).

Definition forward (a : architecture) : list Image -> result (list (list Q)) :=
  model.

Definition dataset : list (Image * Z) := [(4, 3%Z); (5, 7%Z); (6, 1%Z)]%nat.

Definition ImageFolder (path : string) : result (list (Image * Z)) :=
  ok dataset.

Inductive bytes : Type :=
  | pickle_of (d : TensorDataset)
  | garbage.

Definition pickle_dump (d : TensorDataset) : bytes := pickle_of d.

Definition pickle_load (b : bytes) : result TensorDataset :=
  match b with
  | pickle_of d => ok d
  | garbage => raise UnpicklingError
  end.

Definition fname : string := "/cache/imagenet/ResNet18.pkl".

Definition fresh_disk : @world bytes := mk_world ∅ [].

Definition corrupt_disk : @world bytes := mk_world (<[fname := garbage]> ∅) [].

(** A heap with a scores matrix, its labels, a matrix of prediction sets
    and the labels of its examples. *)
Definition heap : list Store.buffer :=
  [Store.BFloat [[1 # 2; 1 # 3; 1 # 6]; [1 # 10; 7 # 10; 2 # 10]; [0; 1; 0]];
   Store.BLabels [0; 2; 1]%nat;
   Store.BBool [[true; false]; [false; true]; [true; true]; [false; true]];
   Store.BLabels [0; 1; 0; 1]%nat].

Definition array_at (l : nat) : Store.array := Store.mk_array l (fun b => b).

Definition call : @world bytes -> result TensorDataset * @world bytes :=
  get_logits_dataset pickle_dump pickle_load ImageFolder forward
    "ResNet18" "imagenet" "/data/imagenet/val" "/cache/".

End Example.

(** * Properties *)

(** ** Fallible calls *)

Lemma bind_ok {A B} (m : result A) (k : A -> result B) (b : B) :
  bind m k = inr b -> exists a, m = inr a /\ k a = inr b.
Proof. destruct m as [e|a]; simpl; [discriminate | eauto]. Qed.

Lemma map_result_total {A B} (f : A -> result B) (g : A -> B) xs :
  (forall x, x ∈ xs -> f x = inr (g x)) -> map_result f xs = inr (map g xs).
Proof.
  induction xs as [|x xs IH]; simpl; intros H; [reflexivity|].
  rewrite H by left. simpl. rewrite IH; [reflexivity|].
  intros y Hy. apply H. by right.
Qed.

(** ** Sums of rationals *)

#[global] Instance Qle_total : Total Qle.
Proof. intros x y. destruct (Qlt_le_dec x y); [left; lra | right; lra]. Qed.

#[global] Instance Qle_trans' : Transitive Qle.
Proof. intros x y z. apply Qle_trans. Qed.

Lemma fold_left_Qplus_acc (l : list Q) (acc : Q) :
  fold_left Qplus l acc == acc + Qsum l.
Proof.
  unfold Qsum. revert acc. induction l as [|x l IH]; intros acc; simpl.
  - lra.
  - rewrite (IH (acc + x)), (IH (0 + x)). lra.
Qed.

Lemma Qsum_cons (x : Q) (l : list Q) : Qsum (x :: l) == x + Qsum l.
Proof. unfold Qsum at 1. simpl. rewrite fold_left_Qplus_acc. lra. Qed.

Lemma Qsum_app (l1 l2 : list Q) : Qsum (l1 ++ l2) == Qsum l1 + Qsum l2.
Proof.
  induction l1 as [|x l1 IH]; simpl.
  - unfold Qsum at 2. simpl. lra.
  - rewrite !Qsum_cons, IH. lra.
Qed.

Lemma Qsum_Permutation (l1 l2 : list Q) : l1 ≡ₚ l2 -> Qsum l1 == Qsum l2.
Proof.
  induction 1 as [|x l1 l2 _ IH|x y l|l1 l2 l3 _ IH1 _ IH2].
  - reflexivity.
  - rewrite !Qsum_cons, IH. reflexivity.
  - rewrite !Qsum_cons. lra.
  - rewrite IH1. exact IH2.
Qed.

(** ** [sort_sum] *)

Lemma cumsum_from_length (acc : Q) (row : list Q) :
  length (cumsum_from acc row) = length row.
Proof. revert acc. induction row; intros; simpl; auto. Qed.










(** ** [AverageMeter] *)

Section AverageMeterFacts.
Import AverageMeter.

Lemma updates_snoc (m : t) (calls : list (Q * Z)) (v : Q) (n : Z) :
  updates m (calls ++ [(v, n)]) = fst (update (updates m calls) v n).
Proof. unfold updates. rewrite fold_left_app. reflexivity. Qed.

Lemma update_sum (m : t) (v : Q) (n : Z) :
  sum (fst (update m v n)) = sum m + v * inject_Z n.
Proof. unfold update. destruct (_ =? _)%Z; reflexivity. Qed.

Lemma update_count (m : t) (v : Q) (n : Z) :
  count (fst (update m v n)) = (count m + n)%Z.
Proof. unfold update. destruct (_ =? _)%Z; reflexivity. Qed.

Lemma update_val (m : t) (v : Q) (n : Z) : val (fst (update m v n)) = v.
Proof. unfold update. destruct (_ =? _)%Z; reflexivity. Qed.

Lemma update_avg (m : t) (v : Q) (n : Z) :
  count (fst (update m v n)) <> 0%Z ->
  avg (fst (update m v n)) =
    sum (fst (update m v n)) / inject_Z (count (fst (update m v n))).
Proof.
  unfold update. destruct (Z.eqb_spec (count m + n) 0) as [E|_]; simpl.
  - intros H. contradiction.
  - reflexivity.
Qed.

Lemma total_count_snoc calls v n :
  total_count (calls ++ [(v, n)]) = (total_count calls + n)%Z.
Proof.
  unfold total_count. rewrite map_app, fold_right_app.
  cbn [map fold_right snd]. generalize (map snd calls).
  intros l. induction l as [|k l IH]; cbn [fold_right]; lia.
Qed.

Lemma weighted_sum_snoc calls v n :
  weighted_sum (calls ++ [(v, n)]) == weighted_sum calls + v * inject_Z n.
Proof.
  unfold weighted_sum. rewrite map_app, Qsum_app. cbn [map fst snd].
  rewrite Qsum_cons. change (Qsum []) with 0. lra.
Qed.

Lemma updates_sum_count (m : t) (calls : list (Q * Z)) :
  sum (updates m calls) == sum m + weighted_sum calls /\
  count (updates m calls) = (count m + total_count calls)%Z.
Proof.
  induction calls as [|[v n] calls [IHs IHc]] using rev_ind.
  - change (updates m []) with m. change (weighted_sum []) with 0.
    change (total_count []) with 0%Z. split; [lra | lia].
  - rewrite updates_snoc, update_sum, update_count.
    rewrite total_count_snoc, weighted_sum_snoc, IHs, IHc.
    split; [lra | lia].
Qed.

(** A caller that does not catch sees no exception, and the same final
    object, when each call adds a positive count to a non-negative one. *)
Lemma updates_uncaught_positive (m : t) (calls : list (Q * Z)) :
  (0 <= count m)%Z ->
  Forall (fun c => (0 < snd c)%Z) calls ->
  updates_uncaught m calls = (updates m calls, ok tt).
Proof.
  intros Hm H. revert m Hm.
  induction H as [|[v n] calls Hn _ IH]; intros m Hm; [reflexivity|].
  simpl in Hn. cbn [updates_uncaught fst snd].
  unfold updates. cbn [fold_left fst snd]. unfold update.
  destruct (Z.eqb_spec (count m + n) 0) as [E|_]; [lia|].
  apply IH. simpl. lia.
Qed.

(** C10: after [reset] the four numeric fields are zero, and after any
    sequence of [update(val_i, n_i)] calls made on the reset object whose
    counts add up to a positive total, [sum] is [Σ val_i * n_i], [count]
    is [Σ n_i], [avg] is [sum / count] and [val] is the last [val_i]. *)
Theorem average_meter_invariant (m : t) (calls : list (Q * Z)) :
  (val (reset m) = 0 /\ avg (reset m) = 0 /\
   sum (reset m) = 0 /\ count (reset m) = 0%Z) /\
  ((0 < total_count calls)%Z ->
   let m' := updates (reset m) calls in
   sum m' == weighted_sum calls /\
   count m' = total_count calls /\
   avg m' = sum m' / inject_Z (count m') /\
   last (map fst calls) = Some (val m')).
Proof.
  split; [by repeat split|].
  intros Hpos m'. subst m'.
  destruct (updates_sum_count (reset m) calls) as [Hs Hc]. simpl in Hs, Hc.
  split; [rewrite Hs; lra|]. split; [exact Hc|].
  destruct calls as [|c calls _] using rev_ind.
  { unfold total_count in Hpos. simpl in Hpos. lia. }
  destruct c as [v n]. rewrite updates_snoc. split.
  - apply update_avg. rewrite <- updates_snoc, Hc. lia.
  - rewrite map_app. cbn [map fst]. rewrite last_snoc, update_val.
    reflexivity.
Qed.

(** C10 at a concrete sequence, whose first call leaves the count at
    zero and raises. *)
Lemma average_meter_invariant_witness :
  let calls := [(5, 0%Z); (3, 2%Z); (1 # 2, 4%Z)] in
  let m' := updates (reset (init "Acc@1" ":6.2f")) calls in
  (0 < total_count calls)%Z /\
  sum m' == weighted_sum calls /\
  count m' = total_count calls /\
  avg m' = sum m' / inject_Z (count m') /\
  last (map fst calls) = Some (val m').
Proof.
  intros calls m'. split; [reflexivity|].
  apply (average_meter_invariant (init "Acc@1" ":6.2f") calls).
  reflexivity.
Defined.

End AverageMeterFacts.

(** ** [get_model] *)

Ltac name_case s :=
  match goal with
  | |- context [String.eqb ?m s] =>
      destruct (String.eqb_spec m s) as [->|?];
      [right; split; [reflexivity | unfold recognized_names; set_solver]|]
  end.

(** C3: [get_model] raises [NotImplementedError] (the specification's
    [UnsupportedModelError]) when the name is none of the nine recognized
    identifiers, and returns a model when it is one of them. *)
Theorem get_model_raises_exactly_unrecognized (modelname : string) :
  (get_model modelname = raise NotImplementedError /\
   modelname ∉ recognized_names) \/
  (is_ok (get_model modelname) = true /\ modelname ∈ recognized_names).
Proof.
  unfold get_model.
  name_case "ResNet18"%string. name_case "ResNet50"%string.
  name_case "ResNet101"%string. name_case "ResNet152"%string.
  name_case "ResNeXt101"%string. name_case "VGG16"%string.
  name_case "ShuffleNet"%string. name_case "Inception"%string.
  name_case "DenseNet161"%string.
  left. split; [reflexivity|].
  unfold recognized_names. rewrite !elem_of_cons, elem_of_nil. tauto.
Qed.

Lemma get_model_unrecognized (modelname : string) :
  modelname ∉ recognized_names -> get_model modelname = raise NotImplementedError.
Proof.
  intros H. unfold get_model.
  repeat match goal with
         | |- context [String.eqb modelname ?s] =>
             destruct (String.eqb_spec modelname s) as [->|?];
             [exfalso; apply H; unfold recognized_names; set_solver|]
         end.
  reflexivity.
Qed.

(** ** [get_logits_targets] *)

Local Open Scope nat_scope.

Lemma float32_of_long_exact (z : Z) :
  (Z.abs z < 2 ^ 24)%Z -> float32_of_long z = z.
Proof.
  intros H. unfold float32_of_long.
  destruct (Z.ltb_spec (Z.abs z) (2 ^ 24)) as [_|Hge]; [reflexivity | lia].
Qed.

Lemma map_float32_of_long_exact (l : list Z) :
  Forall (fun t => (Z.abs t < 2 ^ 24)%Z) l -> map float32_of_long l = l.
Proof.
  induction 1 as [|t l Ht _ IH]; simpl; [reflexivity|].
  rewrite float32_of_long_exact, IH; auto.
Qed.

Lemma broadcast_to_same {A} (src : list A) : broadcast_to (length src) src = ok src.
Proof. unfold broadcast_to. rewrite Nat.eqb_refl. reflexivity. Qed.

Lemma broadcast_rows_same (rows : list (list Q)) :
  Forall (fun r => length r = n_classes) rows ->
  map_result (broadcast_to n_classes) rows = ok rows.
Proof.
  intros H. rewrite (map_result_total _ (fun r => r)).
  - by rewrite map_id.
  - intros r Hr. rewrite Forall_forall in H. rewrite <- (H r Hr).
    apply broadcast_to_same.
Qed.

(** Writing [src] at the cursor of a table whose first [length done] cells
    are filled and whose rest is padding replaces the head of the padding. *)
Lemma assign_slice_at_cursor {A} (done src : list A) (pad : A) (extra : nat) :
  assign_slice (done ++ replicate (length src + extra) pad)
    (length done) (length done + length src) src
  = ok ((done ++ src) ++ replicate extra pad).
Proof.
  unfold assign_slice.
  rewrite length_app, length_replicate.
  replace (Nat.min (length done) (length done + (length src + extra)))
    with (length done) by lia.
  replace (Nat.min (length done + length src)
             (length done + (length src + extra)))
    with (length done + length src) by lia.
  replace (Nat.max (length done) (length done + length src))
    with (length done + length src) by lia.
  replace (length done + length src - length done) with (length src) by lia.
  rewrite broadcast_to_same. simpl. f_equal.
  rewrite take_app_length.
  rewrite drop_app_ge by lia.
  replace (length done + length src - length done) with (length src) by lia.
  rewrite drop_replicate.
  replace (length src + extra - length src) with extra by lia.
  by rewrite <- app_assoc.
Qed.

Section InferenceRunnerFacts.

Context {Image : Type}.
Variable model : list Image -> result (list (list Q)).

Lemma n_examples_cons (b : list Image * list Z) (bs : list (list Image * list Z)) :
  n_examples (b :: bs) = length (fst b) + n_examples bs.
Proof. unfold n_examples. simpl. by rewrite length_app. Qed.

(** The loop invariant: the rows below the cursor are filled, in order,
    and the cursor has moved by the number of examples seen. *)
Lemma for_each_batch_step (bs : list (list Image * list Z))
    (outs : list (list (list Q))) (done_rows : list (list Q))
    (done_labels : list Z) (extra : nat) :
  Forall2 (answers model) bs outs ->
  Forall (fun b => length (snd b) = length (fst b)) bs ->
  length done_labels = length done_rows ->
  for_each (batch_step model) bs
    (mk_runner_state
       (done_rows ++ replicate (n_examples bs + extra) (replicate n_classes 0%Q))
       (done_labels ++ replicate (n_examples bs + extra) 0%Z)
       (length done_rows))
  = ok (mk_runner_state
          ((done_rows ++ concat outs) ++ replicate extra (replicate n_classes 0%Q))
          ((done_labels ++ map float32_of_long (concat (map snd bs)))
             ++ replicate extra 0%Z)
          (length done_rows + n_examples bs)).
Proof.
  intros Hans. revert done_rows done_labels.
  induction Hans as [|b out bs outs (Hm & Hlen & Hw) _ IH];
    intros done_rows done_labels Hbs Hdone.
  - simpl. unfold n_examples. simpl. rewrite !app_nil_r, Nat.add_0_r.
    reflexivity.
  - apply Forall_cons in Hbs as [Hb Hbs].
    cbn [for_each]. unfold batch_step at 1. cbn [rs_i rs_logits rs_labels].
    rewrite Hm. cbn [bind ok]. unfold assign_rows.
    rewrite (broadcast_rows_same out Hw). cbn [bind ok].
    rewrite n_examples_cons, <- Hlen, <- Nat.add_assoc.
    rewrite assign_slice_at_cursor. cbn [bind ok].
    rewrite <- Hdone.
    replace (length out) with (length (map float32_of_long (snd b)))
      by (rewrite length_map; lia).
    rewrite assign_slice_at_cursor. cbn [bind ok].
    rewrite length_map, Hb, Hdone.
    replace (length done_rows + length (fst b))
      with (length (done_rows ++ out)) by (rewrite length_app; lia).
    rewrite IH; [|exact Hbs| rewrite !length_app, length_map; lia].
    cbn [concat map]. rewrite map_app, !length_app, <- !app_assoc.
    do 2 f_equal. lia.
Qed.

Lemma concat_outs_length (bs : list (list Image * list Z))
    (outs : list (list (list Q))) :
  Forall2 (answers model) bs outs -> length (concat outs) = n_examples bs.
Proof.
  unfold n_examples.
  induction 1 as [|b out bs' outs' (_ & Hlen & _) _ IH]; [reflexivity|].
  simpl. rewrite !length_app. congruence.
Qed.

Lemma concat_labels_length (bs : list (list Image * list Z)) :
  Forall (fun b => length (snd b) = length (fst b)) bs ->
  length (concat (map snd bs)) = n_examples bs.
Proof.
  unfold n_examples.
  induction 1 as [|b bs' Hb _ IH]; [reflexivity|].
  simpl. rewrite !length_app. congruence.
Qed.

(** The whole pass over a loader whose batches yield no more examples
    than its dataset has: the rows the batches did not reach stay zero. *)
Lemma get_logits_targets_result (loader : @Loader Image)
    (outs : list (list (list Q))) :
  Forall2 (answers model) (batches loader) outs ->
  Forall (fun b => length (snd b) = length (fst b)) (batches loader) ->
  n_examples (batches loader) <= dataset_len loader ->
  get_logits_targets model loader
    = ok (mk_TensorDataset
            (concat outs
               ++ replicate (dataset_len loader - n_examples (batches loader))
                    (replicate n_classes 0%Q))
            (map float32_of_long (concat (map snd (batches loader)))
               ++ replicate (dataset_len loader - n_examples (batches loader))
                    0%Z)).
Proof.
  intros Hans Hlab HN.
  unfold get_logits_targets, runner_init.
  pose proof (for_each_batch_step (batches loader) outs [] []
                (dataset_len loader - n_examples (batches loader))
                Hans Hlab eq_refl) as H.
  replace (n_examples (batches loader)
           + (dataset_len loader - n_examples (batches loader)))
    with (dataset_len loader) in H by lia.
  cbn [app length] in H. rewrite H. reflexivity.
Qed.

(** C7: when the batches of the loader yield, in order, the
    [dataset_len] examples of its dataset (and the network answers every
    batch with one row of logits per image), [get_logits_targets] returns a
    table with one row per example in dataset order and the labels in the
    same order, and after each batch the cursor [i] is the number of
    examples processed so far, the rows below it being the ones written. *)
Theorem get_logits_targets_fills_table (loader : @Loader Image)
    (outs : list (list (list Q))) :
  Forall2 (answers model) (batches loader) outs ->
  Forall (fun b => length (snd b) = length (fst b)) (batches loader) ->
  n_examples (batches loader) = dataset_len loader ->
  Forall (fun t => (Z.abs t < 2 ^ 24)%Z) (concat (map snd (batches loader))) ->
  get_logits_targets model loader
    = ok (mk_TensorDataset (concat outs) (concat (map snd (batches loader)))) /\
  length (concat outs) = dataset_len loader /\
  length (concat (map snd (batches loader))) = dataset_len loader /\
  forall k, exists st,
    for_each (batch_step model) (take k (batches loader)) (runner_init loader)
      = ok st /\
    rs_i st = n_examples (take k (batches loader)) /\
    take (rs_i st) (rs_logits st) = concat (take k outs).
Proof.
  intros Hans Hlab HN Hexact.
  split; [|split; [|split]].
  - rewrite (get_logits_targets_result loader outs Hans Hlab) by lia.
    rewrite HN, Nat.sub_diag. cbn [replicate]. rewrite !app_nil_r.
    by rewrite map_float32_of_long_exact.
  - rewrite <- HN. by apply concat_outs_length.
  - rewrite <- HN. by apply concat_labels_length.
  - intros k.
    set (rest := drop k (batches loader)).
    assert (Hsplit : n_examples (batches loader)
                     = n_examples (take k (batches loader)) + n_examples rest).
    { subst rest. unfold n_examples.
      rewrite <- length_app, <- concat_app, <- map_app, take_drop.
      reflexivity. }
    pose proof (for_each_batch_step (take k (batches loader)) (take k outs)
                  [] [] (n_examples rest)) as H.
    eexists. unfold runner_init. rewrite <- HN, Hsplit.
    cbn [app length] in H. rewrite H; clear H.
    + split; [reflexivity|]. cbn [rs_i rs_logits]. split; [lia|].
      cbn [Nat.add]. rewrite take_app_length'; [reflexivity|].
      symmetry. apply concat_outs_length. by apply Forall2_take.
    + by apply Forall2_take.
    + by apply Forall_take.
    + reflexivity.
Qed.

End InferenceRunnerFacts.

(** C7 on the example loader: three images in batches of two. *)
Lemma get_logits_targets_fills_table_witness :
  let loader := DataLoader Example.dataset 2 in
  let outs := [[Example.net 4; Example.net 5]; [Example.net 6]] in
  (Forall2 (answers Example.model) (batches loader) outs /\
   Forall (fun b => length (snd b) = length (fst b)) (batches loader) /\
   n_examples (batches loader) = dataset_len loader /\
   Forall (fun t => (Z.abs t < 2 ^ 24)%Z) (concat (map snd (batches loader)))) /\
  get_logits_targets Example.model loader
    = ok (mk_TensorDataset (concat outs) [3; 7; 1]%Z).
Proof.
  intros loader outs.
  assert (H1 : Forall2 (answers Example.model) (batches loader) outs).
  { repeat constructor. }
  assert (H2 : Forall (fun b => length (snd b) = length (fst b))
                 (batches loader)).
  { repeat constructor. }
  assert (H3 : n_examples (batches loader) = dataset_len loader).
  { reflexivity. }
  assert (H4 : Forall (fun t => (Z.abs t < 2 ^ 24)%Z)
                 (concat (map snd (batches loader)))).
  { repeat constructor. }
  split; [by repeat split|].
  exact (proj1 (get_logits_targets_fills_table Example.model loader outs
                  H1 H2 H3 H4)).
Defined.

(** [DataLoader] cuts the dataset into batches that cover it in order. *)
Lemma chunks_concat {A} (fuel batch_size : nat) (l : list A) :
  0 < batch_size -> length l <= fuel ->
  concat (chunks fuel batch_size l) = l.
Proof.
  intros Hpos. revert l. induction fuel as [|fuel IH]; intros l Hlen.
  - destruct l; [reflexivity | simpl in Hlen; lia].
  - destruct l as [|x l]; [reflexivity|].
    cbn [chunks concat]. rewrite IH.
    + apply take_drop.
    + rewrite length_drop. simpl in *. lia.
Qed.

(** The pass over the loader [get_logits_dataset] builds: a network that
    answers image by image fills the table in the order of the dataset. *)
Lemma get_logits_targets_DataLoader {Image} (net : Image -> list Q)
    (dataset : list (Image * Z)) (batch_size : nat) :
  0 < batch_size ->
  (forall img, length (net img) = n_classes) ->
  get_logits_targets (fun x => ok (map net x)) (DataLoader dataset batch_size)
    = ok (mk_TensorDataset (map net (map fst dataset))
            (map float32_of_long (map snd dataset))).
Proof.
  intros Hpos Hw.
  set (cs := chunks (length dataset) batch_size dataset).
  assert (Hcs : concat cs = dataset) by (by apply chunks_concat).
  assert (Hrows : concat (map (fun c => map net (map fst c)) cs)
                  = map net (map fst (concat cs))).
  { clear. induction cs as [|c cs' IH]; [reflexivity|].
    cbn [map concat]. by rewrite !map_app, IH. }
  assert (Himgs : concat (map fst (map collate cs)) = map fst (concat cs)).
  { clear. induction cs as [|c cs' IH]; [reflexivity|].
    cbn [map concat collate fst]. by rewrite !map_app, IH. }
  assert (Hlabs : concat (map snd (map collate cs)) = map snd (concat cs)).
  { clear. induction cs as [|c cs' IH]; [reflexivity|].
    cbn [map concat collate snd]. by rewrite !map_app, IH. }
  assert (HN : n_examples (batches (DataLoader dataset batch_size))
               = dataset_len (DataLoader dataset batch_size)).
  { cbn [batches DataLoader dataset_len]. fold cs.
    unfold n_examples. by rewrite Himgs, Hcs, length_map. }
  rewrite (get_logits_targets_result _ (DataLoader dataset batch_size)
             (map (fun c => map net (map fst c)) cs)).
  - rewrite HN, Nat.sub_diag. cbn [replicate]. rewrite !app_nil_r.
    cbn [batches DataLoader]. fold cs. by rewrite Hrows, Hlabs, Hcs.
  - cbn [batches DataLoader]. fold cs. clear -Hw.
    induction cs as [|c cs' IH]; constructor; [|exact IH].
    repeat split.
    + cbn [collate fst]. by rewrite !length_map.
    + apply Forall_forall. intros r Hr.
      apply list_elem_of_fmap in Hr as (img & -> & _). apply Hw.
  - cbn [batches DataLoader]. apply Forall_forall. intros b Hb.
    apply list_elem_of_fmap in Hb as (c & -> & _).
    cbn [collate fst snd]. by rewrite !length_map.
  - by rewrite HN.
Qed.

Local Close Scope nat_scope.

(** ** [get_logits_dataset] *)

Section LogitCacheFacts.

Context {Image bytes : Type}.
Variable pickle_dump : TensorDataset -> bytes.
Variable pickle_load : bytes -> result TensorDataset.
Variable ImageFolder : string -> result (list (Image * Z)).
Variable forward : architecture -> list Image -> result (list (list Q)).

Local Abbreviation call := (get_logits_dataset pickle_dump pickle_load ImageFolder forward).
Local Abbreviation full_pass := (recompute pickle_dump ImageFolder forward).

(** A pass that succeeds ends with the write of what it returns. *)
Lemma recompute_ok (modelname datasetpath fname : string)
    (w w' : @world bytes) (ds : TensorDataset) :
  full_pass modelname datasetpath fname w = (ok ds, w') ->
  files w' = <[fname := pickle_dump ds]> (files w) /\
  exists a n, events w' =
    events w ++ [EvInference a n; EvMakedirs (dirname fname); EvWrite fname].
Proof.
  unfold recompute.
  destruct (get_model modelname) as [e|a]; [discriminate|].
  destruct (ImageFolder datasetpath) as [e|dataset]; [discriminate|].
  destruct (get_logits_targets _ _) as [e|ds']; [discriminate|].
  intros H. injection H as <- <-. split; [reflexivity|].
  exists a, (length dataset). cbn [write_file log events files].
  by rewrite <- !app_assoc.
Qed.

(** A pass that raises writes no file. *)
Lemma recompute_raises_no_write (modelname datasetpath fname : string)
    (w w' : @world bytes) (e : exn) :
  full_pass modelname datasetpath fname w = (raise e, w') ->
  files w' = files w.
Proof.
  unfold recompute.
  destruct (get_model modelname) as [e1|a]; [by intros [= _ <-]|].
  destruct (ImageFolder datasetpath) as [e2|dataset]; [by intros [= _ <-]|].
  destruct (get_logits_targets _ _) as [e3|ds']; [by intros [= _ <-]|].
  discriminate.
Qed.

(** An unknown model name ends the call before anything is done. *)
Lemma get_logits_dataset_unknown_model
    (modelname datasetname datasetpath cache : string) (w : @world bytes) :
  files w !! cache_path cache datasetname modelname = None ->
  modelname ∉ recognized_names ->
  call modelname datasetname datasetpath cache w
    = (raise NotImplementedError, w).
Proof.
  intros Hmiss Hname. unfold get_logits_dataset, recompute.
  by rewrite Hmiss, (get_model_unrecognized _ Hname).
Qed.

(** C4, as the code has it: with no file at the derived path the call makes
    the full pass and, when the pass succeeds, returns its dataset, logs the
    inference and writes the file; with a file that cannot be deserialized
    the call raises what [pickle.load] raises and recomputes nothing. *)
Theorem get_logits_dataset_missing_or_corrupt
    (modelname datasetname datasetpath cache : string) (w : @world bytes) :
  let fname := cache_path cache datasetname modelname in
  (files w !! fname = None ->
   forall a dataset ds,
     get_model modelname = ok a ->
     ImageFolder datasetpath = ok dataset ->
     get_logits_targets (forward a) (DataLoader dataset 32) = ok ds ->
     call modelname datasetname datasetpath cache w =
       (ok ds,
        mk_world (<[fname := pickle_dump ds]> (files w))
          (events w ++ [EvInference a (length dataset);
                        EvMakedirs (dirname fname); EvWrite fname]))) /\
  (forall content e,
     files w !! fname = Some content ->
     pickle_load content = raise e ->
     call modelname datasetname datasetpath cache w = (raise e, w)).
Proof.
  intros fname. split.
  - intros Hmiss a dataset ds Ha Hd Hds.
    unfold get_logits_dataset. fold fname. rewrite Hmiss.
    unfold recompute. rewrite Ha, Hd. cbn [ok]. rewrite Hds.
    unfold write_file, log. cbn [events files]. by rewrite <- !app_assoc.
  - intros content e Hfile Hload.
    unfold get_logits_dataset. fold fname. by rewrite Hfile, Hload.
Qed.

Hypothesis pickle_roundtrip : forall ds, pickle_load (pickle_dump ds) = ok ds.

(** C8: whenever a call has returned a dataset, the entry is on disk and
    every later call with the same arguments returns the same dataset and
    leaves the world as it is: no inference and no write is logged, and no
    file changes. *)
Theorem get_logits_dataset_idempotent
    (modelname datasetname datasetpath cache : string)
    (w w1 : @world bytes) (ds : TensorDataset) :
  call modelname datasetname datasetpath cache w = (ok ds, w1) ->
  (exists content,
     files w1 !! cache_path cache datasetname modelname = Some content /\
     pickle_load content = ok ds) /\
  call modelname datasetname datasetpath cache w1 = (ok ds, w1) /\
  forall n,
    call_repeatedly (call modelname datasetname datasetpath cache) n w1
    = (replicate n (ok ds), w1).
Proof.
  intros Hfirst.
  assert (Hdisk : exists content,
             files w1 !! cache_path cache datasetname modelname = Some content /\
             pickle_load content = ok ds).
  { revert Hfirst. unfold get_logits_dataset.
    set (fname := cache_path cache datasetname modelname).
    destruct (files w !! fname) as [content|] eqn:Hfile.
    - intros [= Hload <-]. eauto.
    - intros Hpass. apply recompute_ok in Hpass as [Hfiles _].
      exists (pickle_dump ds). split; [|apply pickle_roundtrip].
      rewrite Hfiles. apply lookup_insert_eq. }
  assert (Hagain : call modelname datasetname datasetpath cache w1 = (ok ds, w1)).
  { destruct Hdisk as (content & Hfile & Hload).
    unfold get_logits_dataset. by rewrite Hfile, Hload. }
  split; [exact Hdisk|]. split; [exact Hagain|].
  intros n. induction n as [|n IH]; [reflexivity|].
  cbn [call_repeatedly]. rewrite Hagain. cbn [fst snd]. by rewrite IH.
Qed.

End LogitCacheFacts.

(** C4 on the example disks: the call on the empty disk makes the pass and
    writes the entry, the call on the disk with a corrupt entry raises. *)
Lemma get_logits_dataset_missing_or_corrupt_witness :
  (files Example.fresh_disk !! Example.fname = None /\
   Example.call Example.fresh_disk =
     (ok (mk_TensorDataset (map Example.net [4; 5; 6]%nat) [3; 7; 1]%Z),
      mk_world
        (<[Example.fname :=
             Example.pickle_of
               (mk_TensorDataset (map Example.net [4; 5; 6]%nat) [3; 7; 1]%Z)]>
           ∅)
        [EvInference resnet18 3; EvMakedirs "/cache/imagenet";
         EvWrite Example.fname])) /\
  (files Example.corrupt_disk !! Example.fname = Some Example.garbage /\
   Example.call Example.corrupt_disk
     = (raise UnpicklingError, Example.corrupt_disk)).
Proof.
  pose proof (get_logits_dataset_missing_or_corrupt
                Example.pickle_dump Example.pickle_load Example.ImageFolder
                Example.forward "ResNet18" "imagenet" "/data/imagenet/val"
                "/cache/") as H.
  split.
  - split; [reflexivity|].
    refine (proj1 (H Example.fresh_disk) _ resnet18 Example.dataset _ _ _ _);
      reflexivity.
  - split; [reflexivity|].
    refine (proj2 (H Example.corrupt_disk) Example.garbage UnpicklingError _ _);
      reflexivity.
Defined.

(** C4, as stated, fails on a corrupt entry: the call raises
    [UnpicklingError], logs no inference and leaves the corrupt file. *)
Lemma get_logits_dataset_corrupt_raises :
  files Example.corrupt_disk !! Example.fname = Some Example.garbage /\
  Example.pickle_load Example.garbage = raise UnpicklingError /\
  fst (Example.call Example.corrupt_disk) = raise UnpicklingError /\
  events (snd (Example.call Example.corrupt_disk)) = [] /\
  fst (Example.call Example.corrupt_disk) <>
    fst (recompute Example.pickle_dump Example.ImageFolder Example.forward
           "ResNet18" "/data/imagenet/val" Example.fname Example.corrupt_disk).
Proof. repeat split. vm_compute. discriminate. Qed.

(** C8 on the example disk: the second call returns what the first one
    computed and changes nothing. *)
Lemma get_logits_dataset_idempotent_witness :
  let ds := mk_TensorDataset (map Example.net [4; 5; 6]%nat) [3; 7; 1]%Z in
  let w1 := snd (Example.call Example.fresh_disk) in
  (forall d, Example.pickle_load (Example.pickle_dump d) = ok d) /\
  Example.call Example.fresh_disk = (ok ds, w1) /\
  Example.call w1 = (ok ds, w1).
Proof.
  intros ds w1.
  assert (Hrt : forall d, Example.pickle_load (Example.pickle_dump d) = ok d)
    by reflexivity.
  assert (H1 : Example.call Example.fresh_disk = (ok ds, w1)) by reflexivity.
  split; [exact Hrt|]. split; [exact H1|].
  exact (proj1 (proj2 (get_logits_dataset_idempotent
                         Example.pickle_dump Example.pickle_load
                         Example.ImageFolder Example.forward Hrt
                         "ResNet18" "imagenet" "/data/imagenet/val" "/cache/"
                         Example.fresh_disk w1 ds H1))).
Defined.

(** ** [accuracy] *)

Local Open Scope nat_scope.

#[global] Instance by_score_desc_total (row : list Q) : Total (by_score_desc row).
Proof.
  intros i j. unfold by_score_desc.
  destruct (Qle_total (score_at row j) (score_at row i)); auto.
Qed.

#[global] Instance by_score_desc_trans (row : list Q) :
  Transitive (by_score_desc row).
Proof. intros i j k. unfold by_score_desc. intros H1 H2. by etrans. Qed.

Lemma argsort_desc_Permutation (row : list Q) :
  argsort_desc row ≡ₚ seq 0 (length row).
Proof. apply merge_sort_Permutation. Qed.

Lemma argsort_desc_length (row : list Q) :
  length (argsort_desc row) = length row.
Proof. by rewrite argsort_desc_Permutation, length_seq. Qed.

Lemma argsort_desc_NoDup (row : list Q) : NoDup (argsort_desc row).
Proof. rewrite argsort_desc_Permutation. apply NoDup_seq. Qed.

Lemma NoDup_take {A} (k : nat) (l : list A) : NoDup l -> NoDup (take k l).
Proof.
  intros H. rewrite <- (take_drop k l) in H. by apply NoDup_app in H as [? _].
Qed.

Lemma top_classes_length (k : nat) (row : list Q) :
  k <= length row -> length (top_classes k row) = k.
Proof.
  intros H. unfold top_classes. rewrite length_take, argsort_desc_length. lia.
Qed.

Lemma top_classes_highest_scoring (k : nat) (row : list Q) :
  highest_scoring row (top_classes k row).
Proof.
  unfold highest_scoring, top_classes. split; [|split].
  - apply NoDup_take, argsort_desc_NoDup.
  - intros i Hi. apply elem_of_take in Hi as (n & Hi & _).
    apply list_elem_of_lookup_2 in Hi.
    rewrite argsort_desc_Permutation, elem_of_seq in Hi. lia.
  - intros i j Hi Hj Hout.
    assert (Hin : j ∈ argsort_desc row).
    { rewrite argsort_desc_Permutation, elem_of_seq. lia. }
    rewrite <- (take_drop k (argsort_desc row)) in Hin.
    apply elem_of_app in Hin as [Hin|Hin]; [contradiction|].
    pose proof (StronglySorted_merge_sort (by_score_desc row)
                  (seq 0 (length row))) as Hs.
    fold (argsort_desc row) in Hs.
    rewrite <- (take_drop k (argsort_desc row)) in Hs.
    exact (StronglySorted_app_1_elem_of _ _ _ i j Hs Hi Hin).
Qed.

(** The rank-by-rank count of matches of one example is the indicator of
    a hit: the ranked classes are distinct. *)
Lemma Qbool_hit_rank (p : list nat) (t k : nat) :
  NoDup p -> k <= length p ->
  (Qsum (map (fun j => Qbool (Nat.eqb (nth j p 0%nat) t)) (seq 0%nat k))
    == Qbool (bool_decide (t ∈ take k p)))%Q.
Proof.
  intros Hnd. induction k as [|k IH]; intros Hk.
  - rewrite take_0. reflexivity.
  - rewrite seq_S, map_app, Qsum_app, IH by lia. cbn [map Nat.add].
    rewrite Qsum_cons. change (Qsum []) with 0%Q.
    destruct (nth_lookup_or_length p k 0) as [Hlk|?]; [|lia].
    rewrite (take_S_r _ _ _ Hlk).
    assert (Hnd' : NoDup (take k p ++ [nth k p 0])).
    { rewrite <- (take_S_r _ _ _ Hlk). by apply NoDup_take. }
    apply NoDup_app in Hnd' as (_ & Hdisj & _).
    destruct (Nat.eqb_spec (nth k p 0) t) as [<-|Hne].
    + rewrite (bool_decide_eq_false_2 (nth k p 0 ∈ take k p)).
      * rewrite bool_decide_eq_true_2; [simpl; lra|].
        apply elem_of_app. right. by left.
      * intros Hin. apply (Hdisj _ Hin). by left.
    + destruct (decide (t ∈ take k p)) as [Hin|Hnin].
      * rewrite !bool_decide_eq_true_2; [simpl; lra| |exact Hin].
        apply elem_of_app. by left.
      * rewrite !bool_decide_eq_false_2; [simpl; lra| |exact Hnin].
        rewrite elem_of_app, list_elem_of_singleton. intros [?|?]; auto.
Qed.

Lemma Qsum_map_Qeq {A} (f g : A -> Q) (l : list A) :
  (forall x, x ∈ l -> (f x == g x)%Q) -> (Qsum (map f l) == Qsum (map g l))%Q.
Proof.
  induction l as [|x l IH]; intros H; [reflexivity|].
  cbn [map]. rewrite !Qsum_cons.
  assert (Hx : (f x == g x)%Q) by (apply H; by left).
  assert (Hl : (Qsum (map f l) == Qsum (map g l))%Q).
  { apply IH. intros y Hy. apply H. by right. }
  rewrite Hx, Hl. reflexivity.
Qed.

Lemma Qsum_map_plus {A} (f g : A -> Q) (l : list A) :
  (Qsum (map (fun x => f x + g x) l) == Qsum (map f l) + Qsum (map g l))%Q.
Proof.
  induction l as [|x l IH]; [reflexivity|].
  cbn [map]. rewrite !Qsum_cons, IH. lra.
Qed.

Lemma Qsum_map_zero {A} (l : list A) : (Qsum (map (fun _ => 0) l) == 0)%Q.
Proof.
  induction l as [|x l IH]; [reflexivity|].
  cbn [map]. rewrite Qsum_cons, IH. lra.
Qed.

(** Summing a table by rows or by columns gives the same total. *)
Lemma Qsum_swap {A B} (F : A -> B -> Q) (js : list A) (exs : list B) :
  (Qsum (map (fun j => Qsum (map (F j) exs)) js)
   == Qsum (map (fun ex => Qsum (map (fun j => F j ex) js)) exs))%Q.
Proof.
  induction exs as [|ex exs IH].
  - cbn [map]. apply Qsum_map_zero.
  - cbn [map]. rewrite Qsum_cons, <- IH, <- Qsum_map_plus.
    apply Qsum_map_Qeq. intros j _. apply Qsum_cons.
Qed.

Lemma Qsum_Qbool_filter {A} (f : A -> bool) (l : list A) :
  (Qsum (map (fun x => Qbool (f x)) l)
   == Qnat (length (filter (fun x => f x = true) l)))%Q.
Proof.
  induction l as [|x l IH]; [reflexivity|].
  cbn [map]. rewrite Qsum_cons, IH, filter_cons.
  destruct (decide (f x = true)) as [E|E].
  - rewrite E. cbn [Qbool length]. unfold Qnat.
    rewrite Nat2Z.inj_succ, <- Z.add_1_l, inject_Z_plus. reflexivity.
  - apply not_true_is_false in E. rewrite E. cbn [Qbool]. lra.
Qed.

Lemma Qnat_nonneg (n : nat) : (0 <= Qnat n)%Q.
Proof. unfold Qnat. change 0%Q with (inject_Z 0). rewrite <- Zle_Qle. lia. Qed.

Lemma Qnat_le (m n : nat) : m <= n -> (Qnat m <= Qnat n)%Q.
Proof. intros H. unfold Qnat. rewrite <- Zle_Qle. lia. Qed.

Lemma Qnat_pos (n : nat) : 0 < n -> (0 < Qnat n)%Q.
Proof.
  intros H. unfold Qnat. change 0%Q with (inject_Z 0). rewrite <- Zlt_Qlt. lia.
Qed.

Lemma py_max_ge (topk : list nat) (maxk k : nat) :
  py_max topk = ok maxk -> k ∈ topk -> k <= maxk.
Proof.
  destruct topk as [|x l]; [discriminate|].
  cbn [py_max]. intros [= <-].
  assert (Hacc : forall l a, a <= fold_left Nat.max l a /\
                             forall y, y ∈ l -> y <= fold_left Nat.max l a).
  { clear. induction l as [|z l IH]; intros a; cbn [fold_left].
    - split; [lia|]. intros y Hy. by apply elem_of_nil in Hy.
    - destruct (IH (Nat.max a z)) as [H1 H2]. split; [lia|].
      intros y [->|Hy]%elem_of_cons; [lia | auto]. }
  destruct (Hacc l x) as [H1 H2].
  intros [->|Hk]%elem_of_cons; auto.
Qed.

Lemma torch_topk_ok (k : nat) (output : list (list Q)) (pred : list (list nat)) :
  torch_topk k output = ok pred ->
  pred = map (top_classes k) output /\
  Forall (fun row => k <= length row) output.
Proof.
  unfold torch_topk. revert pred.
  induction output as [|row output IH]; cbn [map_result map]; intros pred H.
  - injection H as <-. by split.
  - apply bind_ok in H as (p & Hp & H). apply bind_ok in H as (ps & Hps & H).
    injection H as <-. destruct (IH ps Hps) as [-> Hall].
    unfold topk_row in Hp. destruct (Nat.ltb_spec (length row) k); [discriminate|].
    injection Hp as <-. split; [reflexivity|]. by constructor.
Qed.

Lemma torch_topk_returns (k : nat) (output : list (list Q)) :
  Forall (fun row => k <= length row) output ->
  torch_topk k output = ok (map (top_classes k) output).
Proof.
  intros H. unfold torch_topk. apply map_result_total.
  intros row Hrow. rewrite Forall_forall in H. unfold topk_row.
  destruct (Nat.ltb_spec (length row) k) as [Hlt|_]; [|reflexivity].
  specialize (H row Hrow). lia.
Qed.

Lemma zip_with_replicate_r {A B C} (f : A -> B -> C) (l : list A) (y : B) :
  zip_with f l (replicate (length l) y) = map (fun x => f x y) l.
Proof. induction l as [|x l IH]; [reflexivity|]. cbn. by rewrite IH. Qed.

Lemma zip_with_map_zip {A A' B C} (f : A' -> B -> C) (g : A -> A')
    (l : list A) (k : list B) :
  zip_with f (map g l) k = map (fun ex => f (g (fst ex)) (snd ex)) (zip l k).
Proof.
  revert k. induction l as [|x l IH]; intros [|y k]; try reflexivity.
  cbn. by rewrite IH.
Qed.

(** The matrix [correct] row by row: row [j] tells, per example, whether
    the class ranked [j] is the label. *)
Lemma correct_rows (maxk : nat) (output : list (list Q)) (target : list nat) :
  tensor_eq (transpose 0 maxk (map (top_classes maxk) output))
    (replicate maxk target)
  = map (fun j =>
           map (fun ex => Nat.eqb (nth j (top_classes maxk (fst ex)) 0) (snd ex))
             (zip output target))
      (seq 0 maxk).
Proof.
  unfold tensor_eq, transpose.
  pose proof (zip_with_replicate_r (zip_with Nat.eqb)
                (map (fun j => map (fun row => nth j row 0)
                                (map (top_classes maxk) output))
                   (seq 0 maxk)) target) as H.
  rewrite length_map, length_seq in H. rewrite H, map_map.
  apply map_ext. intros j. rewrite map_map.
  apply (zip_with_map_zip Nat.eqb
           (fun row => nth j (top_classes maxk row) 0) output target).
Qed.

(** The number [correct[:k].float().sum()] is the number of hits at [k]. *)
Lemma float_sum_hits (maxk k : nat) (output : list (list Q)) (target : list nat) :
  k <= maxk ->
  Forall (fun row => maxk <= length row) output ->
  (float_sum
     (take k (tensor_eq (transpose 0%nat maxk (map (top_classes maxk) output))
                (replicate maxk target)))
   == Qnat (hits k output target))%Q.
Proof.
  intros Hk Hwide. rewrite correct_rows.
  rewrite <- fmap_take, take_seq, Nat.min_l by exact Hk.
  unfold float_sum. rewrite map_map.
  rewrite (Qsum_map_Qeq _
             (fun j => Qsum (map (fun ex =>
                                    Qbool (Nat.eqb
                                             (nth j (top_classes maxk (fst ex)) 0)
                                             (snd ex)))
                               (zip output target)))).
  2:{ intros j _. by rewrite map_map. }
  rewrite (Qsum_swap
             (fun j ex =>
                Qbool (Nat.eqb (nth j (top_classes maxk (fst ex)) 0) (snd ex)))).
  unfold hits. rewrite <- Qsum_Qbool_filter.
  apply Qsum_map_Qeq. intros [row t] Hex. cbn [fst snd].
  assert (Hrow : maxk <= length row).
  { rewrite Forall_forall in Hwide. apply Hwide.
    apply list_elem_of_lookup_1 in Hex as [i Hex].
    apply lookup_zip_with_Some in Hex as (r & t' & [= <- <-] & Hr & _).
    by eapply list_elem_of_lookup_2. }
  rewrite Qbool_hit_rank.
  - unfold is_hit, top_classes. cbn [fst snd].
    by rewrite take_take, Nat.min_l.
  - apply NoDup_take, argsort_desc_NoDup.
  - rewrite top_classes_length; lia.
Qed.

Lemma expand_as_same (target : list nat) (nrows : nat) :
  expand_as target nrows (length target) = ok (replicate nrows target).
Proof. unfold expand_as. by rewrite Nat.eqb_refl. Qed.

(** What [accuracy] returns when it returns: the scaled counts. *)
Lemma accuracy_unfold (output : list (list Q)) (target topk : list nat)
    (maxk : nat) :
  py_max topk = ok maxk ->
  length output = length target ->
  0 < length target ->
  Forall (fun row => maxk <= length row) output ->
  accuracy output target topk
  = ok (map (fun k =>
               (float_sum
                  (take k (tensor_eq
                             (transpose 0%nat maxk
                                (map (top_classes maxk) output))
                             (replicate maxk target)))
                * (100 / Qnat (length target)))%Q)
          topk).
Proof.
  intros Hmax Hlen Hpos Hwide. unfold accuracy.
  rewrite Hmax. cbn [bind ok].
  rewrite (torch_topk_returns maxk output Hwide). cbn [bind ok].
  rewrite Hlen, expand_as_same. cbn [bind ok].
  apply map_result_total. intros k _.
  unfold percent_per_example.
  destruct (Nat.eqb_spec (length target) 0) as [E|_]; [lia | reflexivity].
Qed.

(** When [accuracy] returns, every row had [maxk] columns. *)
Lemma accuracy_ok_wide (output : list (list Q)) (target topk : list nat)
    (res : list Q) :
  accuracy output target topk = ok res ->
  exists maxk, py_max topk = ok maxk /\
               Forall (fun row => maxk <= length row) output.
Proof.
  unfold accuracy. intros H.
  apply bind_ok in H as (maxk & Hmax & H).
  apply bind_ok in H as (pred & Hpred & _).
  exists maxk. split; [exact Hmax|]. by apply torch_topk_ok in Hpred as [_ ?].
Qed.

Lemma hits_le (k : nat) (output : list (list Q)) (target : list nat) :
  hits k output target <= length target.
Proof.
  unfold hits. etrans; [apply length_filter|].
  rewrite length_zip_with. lia.
Qed.

Lemma percentage_bounds (h n : nat) :
  h <= n -> 0 < n ->
  (0 <= 100 * (Qnat h / Qnat n) <= 100)%Q.
Proof.
  intros Hle Hpos.
  pose proof (Qnat_nonneg h) as H0. pose proof (Qnat_le h n Hle) as H1.
  pose proof (Qnat_pos n Hpos) as H2.
  assert (H3 : (0 <= Qnat h / Qnat n)%Q).
  { apply Qle_shift_div_l; [exact H2 | lra]. }
  assert (H4 : (Qnat h / Qnat n <= 1)%Q).
  { apply Qle_shift_div_r; [exact H2 | lra]. }
  split; lra.
Qed.

(** *** The percentages as torch stores them *)

Lemma Qnat_inj (a b : nat) : (Qnat a == Qnat b)%Q -> a = b.
Proof.
  unfold Qnat, Qeq. cbn [inject_Z Qnum Qden]. lia.
Qed.

Lemma count_true_float_sum (m : list (list bool)) :
  (Qnat (count_true m) == float_sum m)%Q.
Proof.
  unfold count_true, float_sum.
  induction m as [|row m IH]; [reflexivity|].
  cbn [concat map]. rewrite filter_app, length_app, Qsum_cons, <- IH.
  rewrite (Qsum_Qbool_filter (fun b : bool => b) row).
  unfold Qnat. rewrite Nat2Z.inj_add, inject_Z_plus. reflexivity.
Qed.

(** The matrix [correct] row by row, for any ranking of the classes. *)
Lemma correct_rows_of (f : list Q -> list nat) (maxk : nat)
    (output : list (list Q)) (target : list nat) :
  tensor_eq (transpose 0 maxk (map f output)) (replicate maxk target)
  = map (fun j =>
           map (fun ex => Nat.eqb (nth j (f (fst ex)) 0) (snd ex))
             (zip output target))
      (seq 0 maxk).
Proof.
  unfold tensor_eq, transpose.
  pose proof (zip_with_replicate_r (zip_with Nat.eqb)
                (map (fun j => map (fun row => nth j row 0) (map f output))
                   (seq 0 maxk)) target) as H.
  rewrite length_map, length_seq in H. rewrite H, map_map.
  apply map_ext. intros j. rewrite map_map.
  apply (zip_with_map_zip Nat.eqb (fun row => nth j (f row) 0) output target).
Qed.

(** The number of [True] cells of [correct[:k]] is the number of examples
    whose label is among the first [k] classes of their ranking. *)
Lemma count_true_hits (f : list Q -> list nat) (maxk k : nat)
    (output : list (list Q)) (target : list nat) :
  k <= maxk ->
  Forall (fun row => NoDup (f row) /\ maxk <= length (f row)) output ->
  count_true
    (take k (tensor_eq (transpose 0 maxk (map f output))
               (replicate maxk target)))
  = length (filter (fun ex => bool_decide (snd ex ∈ take k (f (fst ex)))
                              = true)
              (zip output target)).
Proof.
  intros Hk Hf. apply Qnat_inj. rewrite count_true_float_sum.
  rewrite correct_rows_of.
  rewrite <- fmap_take, take_seq, Nat.min_l by exact Hk.
  unfold float_sum. rewrite map_map.
  rewrite (Qsum_map_Qeq _
             (fun j => Qsum (map (fun ex =>
                                    Qbool (Nat.eqb (nth j (f (fst ex)) 0)
                                             (snd ex)))
                               (zip output target)))).
  2:{ intros j _. by rewrite map_map. }
  rewrite (Qsum_swap
             (fun j ex => Qbool (Nat.eqb (nth j (f (fst ex)) 0) (snd ex)))).
  rewrite <- (Qsum_Qbool_filter
                (fun ex => bool_decide (snd ex ∈ take k (f (fst ex))))).
  apply Qsum_map_Qeq. intros [row t] Hex. cbn [fst snd].
  assert (Hrow : NoDup (f row) /\ maxk <= length (f row)).
  { rewrite Forall_forall in Hf. apply Hf.
    apply list_elem_of_lookup_1 in Hex as [i Hex].
    apply lookup_zip_with_Some in Hex as (r & t' & [= <- <-] & Hr & _).
    by eapply list_elem_of_lookup_2. }
  destruct Hrow as [Hnd Hlen]. apply Qbool_hit_rank; [exact Hnd | lia].
Qed.

Lemma topk_spec_NoDup (topk : nat -> list Q -> list nat) (maxk : nat)
    (output : list (list Q)) :
  topk_spec topk ->
  Forall (fun row => maxk <= length row) output ->
  Forall (fun row => NoDup (topk maxk row) /\ maxk <= length (topk maxk row))
    output.
Proof.
  intros Hspec Hwide. eapply Forall_impl; [exact Hwide|].
  intros row Hrow. destruct (Hspec maxk row Hrow) as (Hlen & _ & Hnd & _).
  split; [exact Hnd | lia].
Qed.

(** The first [k] of the indices [topk] returned are [k] highest-scoring
    classes themselves. *)
Lemma topk_prefix_highest_scoring (topk : nat -> list Q -> list nat)
    (maxk k : nat) (row : list Q) :
  topk_spec topk -> k <= maxk -> maxk <= length row ->
  length (take k (topk maxk row)) = k /\
  highest_scoring row (take k (topk maxk row)).
Proof.
  intros Hspec Hk Hmaxk.
  destruct (Hspec maxk row Hmaxk) as (Hlen & Hsorted & Hnd & Hrange & Hbest).
  split; [rewrite length_take; lia|].
  split; [by apply NoDup_take|]. split.
  - intros i Hi. apply Hrange.
    apply elem_of_take in Hi as (n & Hi & _).
    by eapply list_elem_of_lookup_2.
  - intros i j Hi Hj Hout.
    assert (Hi' : i ∈ topk maxk row).
    { apply elem_of_take in Hi as (n & Hi & _).
      by eapply list_elem_of_lookup_2. }
    destruct (decide (j ∈ topk maxk row)) as [Hin|Hnin]; [|by apply Hbest].
    rewrite <- (take_drop k (topk maxk row)) in Hin.
    apply elem_of_app in Hin as [Hin|Hin]; [contradiction|].
    apply Sorted_StronglySorted in Hsorted; [|apply _].
    rewrite <- (take_drop k (topk maxk row)) in Hsorted.
    exact (StronglySorted_app_1_elem_of _ _ _ i j Hsorted Hi Hin).
Qed.

(** The ranking of the merge sort is one [topk] may return. *)
Lemma top_classes_topk_spec : topk_spec top_classes.
Proof.
  intros k row Hk. split; [by apply top_classes_length|].
  split; [|apply top_classes_highest_scoring].
  unfold top_classes.
  pose proof (Sorted_merge_sort (by_score_desc row) (seq 0 (length row)))
    as Hs.
  fold (argsort_desc row) in Hs.
  apply Sorted_StronglySorted in Hs; [|apply _].
  rewrite <- (take_drop k (argsort_desc row)) in Hs.
  apply StronglySorted_app_1_l in Hs.
  by apply StronglySorted_Sorted.
Qed.

Lemma torch_accuracy_unfold (topk : nat -> list Q -> list nat)
    (output : list (list Q)) (target topks : list nat) (maxk : nat) :
  py_max topks = ok maxk ->
  length output = length target ->
  0 < length target ->
  Forall (fun row => maxk <= length row) output ->
  Torch.accuracy topk output target topks
  = ok (map (fun k =>
               float32_percentage
                 (count_true
                    (take k (tensor_eq
                               (transpose 0 maxk (map (topk maxk) output))
                               (replicate maxk target))))
                 (length target))
          topks).
Proof.
  intros Hmax Hlen Hpos Hwide. unfold Torch.accuracy.
  rewrite Hmax. cbn [bind ok].
  assert (Hpred : Torch.torch_topk topk maxk output
                  = ok (map (topk maxk) output)).
  { unfold Torch.torch_topk. apply map_result_total.
    intros row Hrow. rewrite Forall_forall in Hwide. unfold Torch.topk_row.
    destruct (Nat.ltb_spec (length row) maxk) as [Hlt|_]; [|reflexivity].
    specialize (Hwide row Hrow). lia. }
  rewrite Hpred. cbn [bind ok].
  rewrite Hlen, expand_as_same. cbn [bind ok].
  apply map_result_total. intros k _.
  unfold Torch.percent_per_example, Torch.float_sum.
  destruct (Nat.eqb_spec (length target) 0) as [E|_]; [lia | reflexivity].
Qed.

Lemma torch_accuracy_ok_wide (topk : nat -> list Q -> list nat)
    (output : list (list Q)) (target topks : list nat)
    (res : list spec_float) :
  Torch.accuracy topk output target topks = ok res ->
  exists maxk, py_max topks = ok maxk /\
               Forall (fun row => maxk <= length row) output.
Proof.
  unfold Torch.accuracy. intros H.
  apply bind_ok in H as (maxk & Hmax & H).
  apply bind_ok in H as (pred & Hpred & _).
  exists maxk. split; [exact Hmax|].
  unfold Torch.torch_topk in Hpred. clear -Hpred. revert pred Hpred.
  induction output as [|row output IH]; cbn [map_result]; intros pred H.
  - constructor.
  - apply bind_ok in H as (p & Hp & H). apply bind_ok in H as (ps & Hps & _).
    constructor; [|by eapply IH].
    unfold Torch.topk_row in Hp.
    destruct (Nat.ltb_spec (length row) maxk); [discriminate | lia].
Qed.

(** C6, as the code has it: for an output matrix and a target vector of one
    length with at least one example and at most [2^24], and whatever
    indices [topk] returns among equal scores, [accuracy] returns for each
    [k] in [topk] the [float32] product of the number of examples whose
    label is among the first [k] indices returned for their row and of
    [float32(100.0 / batch_size)]; with [topk = (1,)] it returns that
    product for the index returned first (every row having a column); and
    the first [k] indices are [k] distinct classes none of which scores
    less than a class left out. *)
Theorem accuracy_float32_percentage (topk : nat -> list Q -> list nat)
    (output : list (list Q)) (target topks : list nat) :
  topk_spec topk ->
  length output = length target ->
  0 < length target ->
  (Z.of_nat (length target) <= 2 ^ 24)%Z ->
  (Forall (fun row => 0 < length row) output ->
   Torch.accuracy topk output target [1]
   = ok [float32_percentage (topk_hits topk 1 1 output target)
           (length target)]) /\
  (forall res,
     Torch.accuracy topk output target topks = ok res ->
     exists maxk,
       py_max topks = ok maxk /\
       Forall2 (fun k r =>
                  r = float32_percentage
                        (topk_hits topk maxk k output target)
                        (length target) /\
                  topk_hits topk maxk k output target <= length target)
         topks res) /\
  (forall maxk k row,
     row ∈ output -> k <= maxk -> maxk <= length row ->
     length (take k (topk maxk row)) = k /\
     highest_scoring row (take k (topk maxk row))).
Proof.
  intros Hspec Hlen Hpos _.
  assert (Hentry : forall maxk k,
             k <= maxk ->
             Forall (fun row => maxk <= length row) output ->
             count_true
               (take k (tensor_eq
                          (transpose 0 maxk (map (topk maxk) output))
                          (replicate maxk target)))
             = topk_hits topk maxk k output target).
  { intros maxk k Hk Hwide. unfold topk_hits.
    apply (count_true_hits (topk maxk)); [exact Hk|].
    by apply topk_spec_NoDup. }
  split; [|split].
  - intros Hcols.
    assert (Hwide : Forall (fun row => 1 <= length row) output).
    { eapply Forall_impl; [exact Hcols|]. simpl. intros. lia. }
    rewrite (torch_accuracy_unfold topk output target [1] 1 eq_refl
               Hlen Hpos Hwide).
    cbn [map]. by rewrite Hentry.
  - intros res Hres.
    destruct (torch_accuracy_ok_wide _ _ _ _ _ Hres) as (maxk & Hmax & Hwide).
    exists maxk. split; [exact Hmax|].
    rewrite (torch_accuracy_unfold topk output target topks maxk Hmax
               Hlen Hpos Hwide) in Hres.
    assert (Hr : forall l l' : list spec_float, ok l = ok l' -> l' = l)
      by (intros l l' [=]; done).
    apply Hr in Hres. subst res.
    apply Forall2_fmap_r, Forall_Forall2_diag, Forall_forall.
    intros k Hk.
    assert (Hkmax : k <= maxk) by (by eapply py_max_ge).
    unfold compose. rewrite (Hentry maxk k Hkmax Hwide).
    split; [reflexivity|].
    unfold topk_hits. etrans; [apply length_filter|].
    rewrite length_zip_with. lia.
  - intros maxk k row _ Hk Hmaxk.
    by apply topk_prefix_highest_scoring.
Qed.

(** C6 on three examples with three classes, [topk] ranking as the merge
    sort does: two labels are ranked first, all three are among the two
    ranked first; the percentages stored are [66.66666412...] and
    [100]. *)
Lemma accuracy_float32_percentage_witness :
  let output := [[1 # 2; 1 # 3; 1 # 6]; [1 # 10; 7 # 10; 2 # 10]; [0; 1; 0]]%Q in
  let target := [0; 2; 1] in
  topk_spec top_classes /\
  Torch.accuracy top_classes output target [1; 2]
  = ok [S754_finite false 8738133 (-17);
        S754_finite false 13107200 (-17)] /\
  exists maxk,
    py_max [1; 2] = ok maxk /\
    Forall2 (fun k r =>
               r = float32_percentage
                     (topk_hits top_classes maxk k output target)
                     (length target) /\
               topk_hits top_classes maxk k output target <= length target)
      [1; 2]
      [S754_finite false 8738133 (-17); S754_finite false 13107200 (-17)].
Proof.
  intros output target.
  assert (H : Torch.accuracy top_classes output target [1; 2]
              = ok [S754_finite false 8738133 (-17);
                    S754_finite false 13107200 (-17)])
    by (vm_compute; reflexivity).
  split; [exact top_classes_topk_spec|]. split; [exact H|].
  refine (proj1 (proj2 (accuracy_float32_percentage top_classes output target
                          [1; 2] top_classes_topk_spec eq_refl _ _)) _ H).
  - subst target. cbn [length]. lia.
  - subst target. cbn [length]. lia.
Defined.

(** C6, as stated, fails on the code.  The percentage is rounded to
    [float32] twice: two hits among three examples give
    [8738133 / 2^17 = 66.66666412...] and not [200/3]; forty-five hits
    among forty-five give [13107201 / 2^17 = 100.0000076...], which is
    neither [100] nor a number between 0 and 100. *)
Lemma accuracy_float32_not_the_fraction :
  (let output := [[1 # 2; 1 # 3; 1 # 6]; [1 # 10; 7 # 10; 2 # 10]; [0; 1; 0]]%Q in
   let target := [0; 2; 1] in
   exists r q,
     Torch.accuracy top_classes output target [1] = ok [r] /\
     topk_hits top_classes 1 1 output target = 2 /\
     SF2Q r = Some q /\
     ~ (q == 100 * (Qnat 2 / Qnat 3))%Q) /\
  (let output := replicate 45 [1; 0]%Q in
   let target := replicate 45 0 in
   exists r q,
     Torch.accuracy top_classes output target [1] = ok [r] /\
     topk_hits top_classes 1 1 output target = 45 /\
     SF2Q r = Some q /\
     ~ (q == 100 * (Qnat 45 / Qnat 45))%Q /\
     ~ (q <= 100)%Q).
Proof.
  split.
  - cbv zeta. do 2 eexists.
    split; [vm_compute; reflexivity|]. split; [vm_compute; reflexivity|].
    split; [reflexivity|]. vm_compute. discriminate.
  - cbv zeta. do 2 eexists.
    split; [vm_compute; reflexivity|]. split; [vm_compute; reflexivity|].
    split; [reflexivity|]. split.
    + vm_compute. discriminate.
    + vm_compute. intros H. apply H. reflexivity.
Qed.

(** ** [coverage_size] *)

Lemma Qnat_S (n : nat) : (Qnat (S n) == 1 + Qnat n)%Q.
Proof.
  unfold Qnat. rewrite Nat2Z.inj_succ, <- Z.add_1_l, inject_Z_plus. reflexivity.
Qed.

Lemma Qsum_const (l : list Q) (q : Q) :
  Forall (fun x => (x == q)%Q) l -> (Qsum l == Qnat (length l) * q)%Q.
Proof.
  induction 1 as [|x l Hx _ IH].
  - change (Qsum []) with 0%Q. change (Qnat (length [])) with 0%Q. lra.
  - cbn [length]. rewrite Qsum_cons, IH, Hx, Qnat_S. lra.
Qed.

(** The mean of a non-empty array whose entries all equal [q] is [q]. *)
Lemma np_mean_const (l : list Q) (q : Q) :
  0 < length l -> Forall (fun x => (x == q)%Q) l -> np_mean l =f= Num q.
Proof.
  intros Hpos Hall. destruct l as [|x l]; [simpl in Hpos; lia|].
  unfold np_mean, npfloat_eq. rewrite (Qsum_const _ q Hall).
  pose proof (Qnat_pos _ Hpos). field. lra.
Qed.

Lemma coverage_size_ok_overall (maxdims : nat) (sets : list (list bool))
    (targets : list nat) (r : coverage_stats) :
  coverage_size maxdims sets targets = ok r ->
  exists hit,
    take_pairs sets (seq 0 (length targets)) targets = ok hit /\
    cvg r = np_mean_bool (eq_True hit) /\
    sz r = np_mean (row_sums sets).
Proof.
  unfold coverage_size. intros H.
  apply bind_ok in H as (hit & Hhit & H).
  repeat (apply bind_ok in H as (? & _ & H)).
  injection H as <-. exists hit. by repeat split.
Qed.

(** What [sets[rows, cols]] returns: the entries at the index pairs. *)
Lemma take_pairs_ok (sets : list (list bool)) (rows cols : list nat)
    (hit : list bool) :
  take_pairs sets rows cols = ok hit ->
  Forall2 (fun rc b => exists row, sets !! fst rc = Some row /\
                                   row !! snd rc = Some b)
    (zip rows cols) hit.
Proof.
  unfold take_pairs. generalize (zip rows cols). intros ps. revert hit.
  induction ps as [|p ps IH]; cbn [map_result]; intros hit H.
  - injection H as <-. constructor.
  - apply bind_ok in H as (b & Hb & H). apply bind_ok in H as (bs & Hbs & H).
    injection H as <-. constructor; [|by apply IH].
    destruct (sets !! p.1) as [row|]; [|discriminate].
    destruct (row !! p.2) as [b'|] eqn:E; [|discriminate].
    injection Hb as <-. eauto.
Qed.

Lemma zip_seq_lookup {A} (l : list A) (i : nat) (x : A) (a : nat) :
  (i, x) ∈ zip (seq a (length l)) l -> l !! (i - a) = Some x /\ a <= i.
Proof.
  revert a. induction l as [|y l IH]; intros a; cbn [length seq zip zip_with].
  - intros H. by apply elem_of_nil in H.
  - intros [[= -> ->]|H]%elem_of_cons.
    + rewrite Nat.sub_diag. split; [reflexivity | lia].
    + apply IH in H as [H Hle]. split; [|lia].
      replace (i - a) with (S (i - S a)) by lia. exact H.
Qed.

(** The entries picked for the overall coverage all equal [b] when every
    example's set holds [b] at the example's label. *)
Lemma take_pairs_all (sets : list (list bool)) (targets : list nat)
    (hit : list bool) (b : bool) :
  take_pairs sets (seq 0 (length targets)) targets = ok hit ->
  (forall i t row, targets !! i = Some t -> sets !! i = Some row ->
                   forall b', row !! t = Some b' -> b' = b) ->
  hit = replicate (length targets) b.
Proof.
  intros Hhit Hall. apply take_pairs_ok in Hhit.
  assert (Hlen : length hit = length targets).
  { apply Forall2_length in Hhit. rewrite length_zip_with, length_seq in Hhit.
    lia. }
  rewrite <- Hlen. symmetry. apply replicate_as_Forall_2; [reflexivity|].
  apply Forall_forall.
  intros b' Hb'. apply list_elem_of_lookup_1 in Hb' as [n Hn].
  destruct (Forall2_lookup_r _ _ _ _ _ Hhit Hn) as ([i t] & Hit & row & Hrow & Hb).
  apply list_elem_of_lookup_2, zip_seq_lookup in Hit as [Hit _].
  rewrite Nat.sub_0_r in Hit. cbn [fst snd] in *. symmetry. eauto.
Qed.

Lemma np_mean_bool_replicate (n : nat) (b : bool) :
  0 < n -> np_mean_bool (eq_True (replicate n b)) =f= Num (Qbool b).
Proof.
  intros Hpos. unfold np_mean_bool, eq_True.
  apply np_mean_const.
  - by rewrite !length_map, length_replicate.
  - apply Forall_forall. intros x Hx.
    apply list_elem_of_fmap in Hx as (b1 & -> & Hb1).
    apply list_elem_of_fmap in Hb1 as (b2 & -> & Hb2).
    apply elem_of_replicate in Hb2 as [-> _]. by destruct b.
Qed.

Lemma one_hot_lookup (C t j : nat) (b : bool) :
  one_hot C t !! j = Some b -> b = Nat.eqb j t /\ j < C.
Proof.
  unfold one_hot. rewrite list_lookup_fmap. intros H.
  apply fmap_Some in H as (j' & Hj' & ->).
  apply lookup_seq in Hj' as [-> ?]. by split.
Qed.

Lemma one_hot_sum (C t : nat) :
  t < C -> (Qsum (map Qbool (one_hot C t)) == 1)%Q.
Proof.
  intros Ht. unfold one_hot. rewrite map_map.
  assert (H : forall a n,
             (Qsum (map (fun j => Qbool (Nat.eqb j t)) (seq a n))
              == Qbool (bool_decide (a <= t < a + n)%nat))%Q).
  { intros a n. revert a. induction n as [|n IH]; intros a.
    - rewrite bool_decide_eq_false_2 by lia. reflexivity.
    - cbn [seq map]. rewrite Qsum_cons, IH.
      destruct (Nat.eqb_spec a t) as [->|Hne].
      + rewrite bool_decide_eq_false_2, bool_decide_eq_true_2 by lia.
        simpl. lra.
      + destruct (decide (S a <= t < S a + n)).
        * rewrite !bool_decide_eq_true_2 by lia. simpl. lra.
        * rewrite !bool_decide_eq_false_2 by lia. simpl. lra. }
  rewrite H, bool_decide_eq_true_2 by lia. reflexivity.
Qed.

(** The overall statistics of a matrix whose cells all hold [b]. *)
Lemma coverage_size_uniform (maxdims C : nat) (b : bool) (targets : list nat)
    (r : coverage_stats) :
  0 < length targets ->
  coverage_size maxdims (replicate (length targets) (replicate C b)) targets
    = ok r ->
  cvg r =f= Num (Qbool b) /\ sz r =f= Num (Qnat C * Qbool b).
Proof.
  intros Hpos Hr.
  apply coverage_size_ok_overall in Hr as (hit & Hhit & -> & ->).
  split.
  - rewrite (take_pairs_all _ _ _ b Hhit).
    + by apply np_mean_bool_replicate.
    + intros i t row _ Hrow b' Hb'.
      apply lookup_replicate in Hrow as [-> _].
      by apply lookup_replicate in Hb' as [-> _].
  - apply np_mean_const.
    + unfold row_sums. by rewrite length_map, length_replicate.
    + apply Forall_forall. intros x Hx. unfold row_sums in Hx.
      apply list_elem_of_fmap in Hx as (row & -> & Hrow).
      apply elem_of_replicate in Hrow as [-> _].
      rewrite (Qsum_const _ (Qbool b)).
      * by rewrite length_map, length_replicate.
      * apply Forall_forall. intros y Hy.
        apply list_elem_of_fmap in Hy as (b' & -> & Hb').
        by apply elem_of_replicate in Hb' as [-> _].
Qed.

(** The overall statistics of the matrix whose sets hold the label only. *)
Lemma coverage_size_one_hot (maxdims C : nat) (targets : list nat)
    (r : coverage_stats) :
  0 < length targets ->
  coverage_size maxdims (map (one_hot C) targets) targets = ok r ->
  cvg r =f= Num 1 /\ sz r =f= Num 1.
Proof.
  intros Hpos Hr.
  apply coverage_size_ok_overall in Hr as (hit & Hhit & -> & ->).
  split.
  - rewrite (take_pairs_all _ _ _ true Hhit).
    + by apply np_mean_bool_replicate.
    + intros i t row Ht Hrow b' Hb'.
      rewrite list_lookup_fmap, Ht in Hrow. injection Hrow as <-.
      apply one_hot_lookup in Hb' as [-> _]. apply Nat.eqb_refl.
  - apply np_mean_const.
    + unfold row_sums. by rewrite !length_map.
    + apply take_pairs_ok in Hhit.
      apply Forall_forall. intros x Hx. unfold row_sums in Hx.
      apply list_elem_of_fmap in Hx as (row & -> & Hrow).
      apply list_elem_of_fmap in Hrow as (t & -> & Ht).
      apply one_hot_sum.
      apply list_elem_of_lookup_1 in Ht as [i Ht].
      assert (Hzip : zip (seq 0 (length targets)) targets !! i = Some (i, t)).
      { apply lookup_zip_with_Some. exists i, t. split; [reflexivity|].
        split; [|exact Ht]. apply lookup_seq. split; [reflexivity|].
        by eapply lookup_lt_Some. }
      destruct (Forall2_lookup_l _ _ _ _ _ Hhit Hzip)
        as (b & _ & row & Hrow & Hb).
      cbn [fst snd] in *.
      rewrite list_lookup_fmap, Ht in Hrow. injection Hrow as <-.
      by apply one_hot_lookup in Hb as [_ ?].
Qed.

(** C5 fails on the code.  On one example of each of two classes (the
    sets of the first scenario are [np.eye(2)]), the two statements that
    compute the overall coverage and size give the values the three
    scenarios name, and the call then raises [IndexError] in each of them:
    [np.zeros(counts)] has shape (1, 1) and the loop writes [cvgs[1]]. *)
Theorem coverage_size_scenarios_raise :
  let targets := [0; 1]%nat in
  let only_label := map (one_hot 2) targets in
  let all_classes := replicate 2 (replicate 2 true) in
  let no_class := replicate 2 (replicate 2 false) in
  let overall sets :=
    (let! hit := take_pairs sets (seq 0 (length targets)) targets in
     ok (np_mean_bool (eq_True hit), np_mean (row_sums sets))) in
  (overall only_label = ok (Num (2 # 2), Num (2 # 2)) /\
   coverage_size 32 only_label targets = raise IndexError) /\
  (overall all_classes = ok (Num (2 # 2), Num (4 # 2)) /\
   coverage_size 32 all_classes targets = raise IndexError) /\
  (overall no_class = ok (Num (0 # 2), Num (0 # 2)) /\
   coverage_size 32 no_class targets = raise IndexError).
Proof. repeat split. Qed.

(** X26: on at least one example, whenever [coverage_size] returns, it
    returns coverage 1 and average size 1 for the sets that hold exactly
    the label, coverage 1 and average size [C] for the sets that hold all
    [C] classes, and coverage 0 and average size 0 for the empty sets. *)
Theorem coverage_size_scenarios (maxdims C : nat) (targets : list nat)
    (r : coverage_stats) :
  0 < length targets ->
  (coverage_size maxdims (map (one_hot C) targets) targets = ok r ->
   cvg r =f= Num 1 /\ sz r =f= Num 1) /\
  (coverage_size maxdims
     (replicate (length targets) (replicate C true)) targets = ok r ->
   cvg r =f= Num 1 /\ sz r =f= Num (Qnat C)) /\
  (coverage_size maxdims
     (replicate (length targets) (replicate C false)) targets = ok r ->
   cvg r =f= Num 0 /\ sz r =f= Num 0).
Proof.
  intros Hpos. split; [|split].
  - by apply coverage_size_one_hot.
  - intros Hr.
    destruct (coverage_size_uniform _ _ _ _ _ Hpos Hr) as [Hc Hs].
    split; [exact Hc|].
    destruct (sz r); cbn [npfloat_eq Qbool] in *; [lra | exact Hs].
  - intros Hr.
    destruct (coverage_size_uniform _ _ _ _ _ Hpos Hr) as [Hc Hs].
    split; [exact Hc|].
    destruct (sz r); cbn [npfloat_eq Qbool] in *; [lra | exact Hs].
Qed.

(** X26 on two examples of each of two classes, where the three calls
    return. *)
Lemma coverage_size_scenarios_witness :
  let targets := [0; 0; 1; 1] in
  (0 < length targets) /\
  (exists r, coverage_size 32 (map (one_hot 2) targets) targets = ok r /\
             cvg r =f= Num 1 /\ sz r =f= Num 1) /\
  (exists r, coverage_size 32 (replicate 4 (replicate 2 true)) targets = ok r /\
             cvg r =f= Num 1 /\ sz r =f= Num (Qnat 2)) /\
  (exists r, coverage_size 32 (replicate 4 (replicate 2 false)) targets = ok r /\
             cvg r =f= Num 0 /\ sz r =f= Num 0).
Proof.
  intros targets.
  assert (Hpos : 0 < length targets) by (subst targets; simpl; lia).
  split; [exact Hpos|]. split; [|split].
  - eexists. split; [reflexivity|].
    refine (proj1 (coverage_size_scenarios 32 2 targets _ Hpos) _).
    reflexivity.
  - eexists. split; [reflexivity|].
    refine (proj1 (proj2 (coverage_size_scenarios 32 2 targets _ Hpos)) _).
    reflexivity.
  - eexists. split; [reflexivity|].
    refine (proj2 (proj2 (coverage_size_scenarios 32 2 targets _ Hpos)) _).
    reflexivity.
Defined.

(** C2 fails on the code.  With two examples of class 0 whose sets contain
    class 0, the only observed class has coverage 1 and size 1, so the
    minimum, maximum and median over the observed classes are 1; the code
    allocates [np.zeros(counts)] with [counts = [2]], fills the first of
    the two cells and returns minimum 0 and median 1/2.  With one example
    of each of two classes the arrays have shape (1, 1) and the second
    assignment raises [IndexError]. *)
Theorem coverage_size_counts_taken_as_shape :
  let sets := [[true]; [true]] in
  let targets := [0; 0] in
  observed_classes targets = [0] /\
  nd_min (spec_cls_cvgs sets targets) = ok (Num (2 # 2)) /\
  np_median (spec_cls_cvgs sets targets) = Num (2 # 2) /\
  nd_min (spec_cls_szs sets targets) = ok (Num (2 # 2)) /\
  np_median (spec_cls_szs sets targets) = Num (2 # 2) /\
  coverage_size 32 sets targets
    = ok (mk_coverage_stats (Num (2 # 2)) (Num (2 # 2))
            (Num 0) (Num (2 # 2)) (Num (2 # 4))
            (Num 0) (Num (2 # 2)) (Num (2 # 4))) /\
  coverage_size 32 [[true; false]; [false; true]] [0; 1] = raise IndexError.
Proof. repeat split. Qed.

(** ** The metric functions leave their arguments alone *)

Section StoreFacts.

Local Abbreviation value_sort_sum := sort_sum.
Local Abbreviation value_coverage_size := coverage_size.
Local Abbreviation value_class_step := class_step.
Local Abbreviation value_accuracy := accuracy.
Import Store.

Lemma unchanged_refl (h : heap) : unchanged h h.
Proof. exists []. by rewrite app_nil_r. Qed.

Lemma unchanged_app (h k : heap) : unchanged h (h ++ k).
Proof. by exists k. Qed.

Lemma unchanged_trans (h1 h2 h3 : heap) :
  unchanged h1 h2 -> unchanged h2 h3 -> unchanged h1 h3.
Proof. unfold unchanged. intros. by etrans. Qed.

Lemma deref_unchanged (h h' : heap) (a : array) (b : buffer) :
  unchanged h h' -> deref h a = Some b -> deref h' a = Some b.
Proof.
  intros [k ->]. unfold deref. intros H.
  destruct (h !! base a) as [b0|] eqn:E; [|discriminate].
  by rewrite (lookup_app_l_Some _ _ _ _ E).
Qed.

Lemma deref_alloc (h : heap) (b : buffer) (f : buffer -> buffer) :
  deref (h ++ [b]) (mk_array (length h) f) = Some (f b).
Proof.
  unfold deref. cbn [base through].
  by rewrite (list_lookup_middle h [] b (length h) eq_refl).
Qed.

Lemma load_ok (h : heap) (a : array) (b : buffer) :
  deref h a = Some b -> load a h = (ok b, h).
Proof. unfold load. by intros ->. Qed.

Lemma load_float_ok (h : heap) (a : array) (m : list (list Q)) :
  deref h a = Some (BFloat m) -> load_float a h = (ok m, h).
Proof. intros H. unfold load_float, mbind. by rewrite (load_ok _ _ _ H). Qed.

Lemma load_bool_ok (h : heap) (a : array) (m : list (list bool)) :
  deref h a = Some (BBool m) -> load_bool a h = (ok m, h).
Proof. intros H. unfold load_bool, mbind. by rewrite (load_ok _ _ _ H). Qed.

Lemma load_int_ok (h : heap) (a : array) (m : list (list nat)) :
  deref h a = Some (BInt m) -> load_int a h = (ok m, h).
Proof. intros H. unfold load_int, mbind. by rewrite (load_ok _ _ _ H). Qed.

Lemma load_labels_ok (h : heap) (a : array) (v : list nat) :
  deref h a = Some (BLabels v) -> load_labels a h = (ok v, h).
Proof. intros H. unfold load_labels, mbind. by rewrite (load_ok _ _ _ H). Qed.

Lemma load_stats_ok (h : heap) (a : array) (x : ndarray) :
  deref h a = Some (BStats x) -> load_stats a h = (ok x, h).
Proof. intros H. unfold load_stats, mbind. by rewrite (load_ok _ _ _ H). Qed.

Lemma load_scalar_ok (h : heap) (a : array) (x : Q) :
  deref h a = Some (BScalar x) -> load_scalar a h = (ok x, h).
Proof. intros H. unfold load_scalar, mbind. by rewrite (load_ok _ _ _ H). Qed.

Lemma mbind_ok {A B} (m : M A) (k : A -> M B) (h h' : heap) (a : A) :
  m h = (ok a, h') -> mbind m k h = k a h'.
Proof. unfold mbind. by intros ->. Qed.

Lemma mbind_raise {A B} (m : M A) (k : A -> M B) (h h' : heap) (e : exn) :
  m h = (raise e, h') -> mbind m k h = (raise e, h').
Proof. unfold mbind. by intros ->. Qed.

Lemma mbind_lift {A B} (r : result A) (k : A -> M B) (h : heap) :
  mbind (lift r) k h = match r with inl e => (inl e, h) | inr a => k a h end.
Proof. unfold mbind, lift. by destruct r. Qed.

Lemma alloc_ok (h : heap) (b : buffer) :
  alloc b h = (ok (mk_array (length h) (fun b => b)), h ++ [b]).
Proof. reflexivity. Qed.

(** [sort_sum] allocates three arrays and writes to none. *)
Lemma sort_sum_store (h : heap) (scores : array) (s : list (list Q)) :
  deref h scores = Some (BFloat s) ->
  exists I ordered cumsum h',
    Store.sort_sum scores h = (ok (I, ordered, cumsum), h') /\
    unchanged h h' /\
    deref h' I = Some (BInt (ss_I (value_sort_sum s))) /\
    deref h' ordered = Some (BFloat (ss_ordered (value_sort_sum s))) /\
    deref h' cumsum = Some (BFloat (ss_cumsum (value_sort_sum s))).
Proof.
  intros Hs. unfold Store.sort_sum.
  set (h1 := h ++ [BInt (map np_argsort s)]).
  set (h2 := h1 ++ [BFloat (map np_sort s)]).
  assert (Hs1 : deref h1 scores = Some (BFloat s))
    by (eapply deref_unchanged; [apply unchanged_app | exact Hs]).
  assert (Ho : deref h2 (view flip_columns (mk_array (length h1) (fun b => b)))
               = Some (BFloat (map reverse (map np_sort s))))
    by exact (deref_alloc h1 (BFloat (map np_sort s)) flip_columns).
  rewrite (mbind_ok _ _ _ _ _ (load_float_ok _ _ _ Hs)).
  rewrite (mbind_ok _ _ _ _ _ (alloc_ok _ _)). fold h1.
  rewrite (mbind_ok _ _ _ _ _ (load_float_ok _ _ _ Hs1)).
  rewrite (mbind_ok _ _ _ _ _ (alloc_ok _ _)). fold h2.
  rewrite (mbind_ok _ _ _ _ _ (load_float_ok _ _ _ Ho)).
  rewrite (mbind_ok _ _ _ _ _ (alloc_ok _ _)). unfold ret.
  do 4 eexists. split; [reflexivity|]. split; [|split; [|split]].
  - subst h2 h1. rewrite <- !app_assoc. apply unchanged_app.
  - unfold value_sort_sum. cbn [ss_I].
    rewrite <- (map_map np_argsort reverse s).
    eapply deref_unchanged;
      [|exact (deref_alloc h (BInt (map np_argsort s)) flip_columns)].
    fold h1. subst h2. rewrite <- app_assoc. apply unchanged_app.
  - eapply deref_unchanged; [apply unchanged_app|].
    rewrite Ho. unfold value_sort_sum. cbn [ss_ordered]. by rewrite map_map.
  - rewrite (deref_alloc h2 _ (fun b => b)). unfold value_sort_sum.
    cbn [ss_cumsum]. by rewrite !map_map.
Qed.

(** The two statistics arrays sit at the end of the heap. *)
Lemma deref_first_cell (h : heap) (x y : buffer) :
  deref (h ++ [x; y]) (mk_array (length h) (fun b => b)) = Some x.
Proof.
  unfold deref. cbn [base through].
  by rewrite (list_lookup_middle h [y] x (length h) eq_refl).
Qed.

Lemma deref_second_cell (h : heap) (x y : buffer) :
  deref (h ++ [x; y]) (mk_array (S (length h)) (fun b => b)) = Some y.
Proof.
  unfold deref. cbn [base through].
  rewrite lookup_app_r by lia.
  by replace (S (length h) - length h) with 1 by lia.
Qed.

Lemma store_first_cell (h : heap) (x y z : buffer) :
  <[length h := z]> (h ++ [x; y]) = h ++ [z; y].
Proof.
  rewrite insert_app_r_alt by lia. by rewrite Nat.sub_diag.
Qed.

Lemma store_second_cell (h : heap) (x y z : buffer) :
  <[S (length h) := z]> (h ++ [x; y]) = h ++ [x; z].
Proof.
  rewrite insert_app_r_alt by lia.
  by replace (S (length h) - length h) with 1 by lia.
Qed.

Lemma setitem_run (h : heap) (a : array) (x : ndarray) (i : nat) (v : npfloat) :
  deref h a = Some (BStats x) ->
  setitem a i v h =
    match nd_setitem x i v with
    | inl e => (inl e, h)
    | inr x' => (ok tt, <[base a := BStats x']> h)
    end.
Proof.
  intros Ha. unfold setitem.
  rewrite (mbind_ok _ _ _ _ _ (load_stats_ok _ _ _ Ha)).
  unfold mbind, lift, store. by destruct (nd_setitem x i v).
Qed.

Lemma mbind_setitem {B} (h : heap) (a : array) (x : ndarray) (i : nat)
    (v : npfloat) (k : unit -> M B) :
  deref h a = Some (BStats x) ->
  mbind (setitem a i v) k h =
    match nd_setitem x i v with
    | inl e => (inl e, h)
    | inr x' => k tt (<[base a := BStats x']> h)
    end.
Proof.
  intros Ha. unfold mbind at 1. rewrite (setitem_run _ _ _ _ _ Ha).
  by destruct (nd_setitem x i v).
Qed.

Section CoverageSizeStore.

Variables (h : heap) (sets targets : array).
Variables (S : list (list bool)) (T : list nat).
Hypothesis Hsets : deref h sets = Some (BBool S).
Hypothesis Htargets : deref h targets = Some (BLabels T).

Local Abbreviation cvgs := (mk_array (length h) (fun b => b)).
Local Abbreviation szs := (mk_array (Datatypes.S (length h)) (fun b => b)).

Lemma class_step_store (a b : ndarray) (ic : nat * nat) :
  exists a' b',
    snd (Store.class_step sets targets cvgs szs ic (h ++ [BStats a; BStats b]))
      = h ++ [BStats a'; BStats b'] /\
    match value_class_step S T (a, b) ic with
    | inl e =>
        fst (Store.class_step sets targets cvgs szs ic
               (h ++ [BStats a; BStats b])) = inl e
    | inr st =>
        fst (Store.class_step sets targets cvgs szs ic
               (h ++ [BStats a; BStats b])) = ok tt /\ st = (a', b')
    end.
Proof.
  set (h1 := h ++ [BStats a; BStats b]).
  assert (Hs1 : deref h1 sets = Some (BBool S))
    by (eapply deref_unchanged; [apply unchanged_app | exact Hsets]).
  assert (Ht1 : deref h1 targets = Some (BLabels T))
    by (eapply deref_unchanged; [apply unchanged_app | exact Htargets]).
  unfold Store.class_step, value_class_step. cbn [fst snd].
  rewrite (mbind_ok _ _ _ _ _ (load_bool_ok _ _ _ Hs1)).
  rewrite (mbind_ok _ _ _ _ _ (load_labels_ok _ _ _ Ht1)).
  rewrite mbind_lift.
  destruct (mask_col S (eq_mask T ic.2) ic.2) as [e|col].
  { exists a, b. split; reflexivity. }
  cbn [bind].
  rewrite (mbind_setitem h1 cvgs a _ _ _ (deref_first_cell h _ _)).
  destruct (nd_setitem a ic.1 _) as [e|a'].
  { exists a, b. split; reflexivity. }
  cbn [bind base]. subst h1. rewrite store_first_cell.
  set (h2 := h ++ [BStats a'; BStats b]).
  assert (Hs2 : deref h2 sets = Some (BBool S))
    by (eapply deref_unchanged; [apply unchanged_app | exact Hsets]).
  assert (Ht2 : deref h2 targets = Some (BLabels T))
    by (eapply deref_unchanged; [apply unchanged_app | exact Htargets]).
  rewrite (mbind_ok _ _ _ _ _ (load_bool_ok _ _ _ Hs2)).
  rewrite (mbind_ok _ _ _ _ _ (load_labels_ok _ _ _ Ht2)).
  rewrite mbind_lift.
  destruct (mask_rows S (eq_mask T ic.2)) as [e|rows].
  { exists a', b. split; reflexivity. }
  cbn [bind].
  rewrite (setitem_run h2 szs b _ _ (deref_second_cell h _ _)).
  destruct (nd_setitem b ic.1 _) as [e|b'].
  { exists a', b. split; reflexivity. }
  cbn [bind base]. subst h2. rewrite store_second_cell.
  exists a', b'. split; [reflexivity|]. by split.
Qed.

Lemma for_M_class_step_store (ics : list (nat * nat)) (a b : ndarray) :
  exists a' b',
    snd (for_M (Store.class_step sets targets cvgs szs) ics
           (h ++ [BStats a; BStats b]))
      = h ++ [BStats a'; BStats b'] /\
    match for_each (value_class_step S T) ics (a, b) with
    | inl e =>
        fst (for_M (Store.class_step sets targets cvgs szs) ics
               (h ++ [BStats a; BStats b])) = inl e
    | inr st =>
        fst (for_M (Store.class_step sets targets cvgs szs) ics
               (h ++ [BStats a; BStats b])) = ok tt /\ st = (a', b')
    end.
Proof.
  revert a b. induction ics as [|ic ics IH]; intros a b.
  - exists a, b. split; [reflexivity|]. by split.
  - cbn [for_M for_each].
    destruct (class_step_store a b ic) as (a1 & b1 & Hheap & Hres).
    destruct (Store.class_step sets targets cvgs szs ic
                (h ++ [BStats a; BStats b])) as [res h1] eqn:Hrun.
    cbn [fst snd] in Hheap, Hres. subst h1.
    destruct (value_class_step S T (a, b) ic) as [e|st].
    + subst res. rewrite (mbind_raise _ _ _ _ _ Hrun).
      exists a1, b1. split; reflexivity.
    + destruct Hres as [-> ->]. rewrite (mbind_ok _ _ _ _ _ Hrun).
      cbn [bind]. apply IH.
Qed.

(** [coverage_size] on arrays in memory returns what the value-level
    function returns of their contents, and appends to the heap the two
    statistics arrays it allocates and fills. *)
Lemma coverage_size_store (maxdims : nat) :
  fst (Store.coverage_size maxdims sets targets h)
    = value_coverage_size maxdims S T /\
  unchanged h (snd (Store.coverage_size maxdims sets targets h)).
Proof.
  unfold Store.coverage_size, value_coverage_size.
  rewrite (mbind_ok _ _ _ _ _ (load_labels_ok _ _ _ Htargets)).
  rewrite (mbind_ok _ _ _ _ _ (load_bool_ok _ _ _ Hsets)).
  rewrite mbind_lift.
  destruct (take_pairs S (seq 0 (length T)) T) as [e|hit].
  { split; [reflexivity | apply unchanged_refl]. }
  cbn [bind].
  rewrite (mbind_ok _ _ _ _ _ (load_bool_ok _ _ _ Hsets)).
  rewrite (mbind_ok _ _ _ _ _ (load_labels_ok _ _ _ Htargets)).
  rewrite mbind_lift.
  destruct (np_zeros maxdims (np_unique T).2) as [e|z].
  { split; [reflexivity | apply unchanged_refl]. }
  cbn [bind].
  rewrite (mbind_ok _ _ _ _ _ (alloc_ok _ _)).
  rewrite mbind_lift.
  rewrite (mbind_ok _ _ _ _ _ (alloc_ok _ _)).
  rewrite <- app_assoc. cbn [app]. rewrite length_app. cbn [length].
  replace (length h + 1) with (Datatypes.S (length h)) by lia.
  destruct (for_M_class_step_store (enumerate (np_unique T).1) z z)
    as (a & b & Hheap & Hres).
  destruct (for_M (Store.class_step sets targets cvgs szs)
              (enumerate (np_unique T).1) (h ++ [BStats z; BStats z]))
    as [res h1] eqn:Hrun.
  cbn [fst snd] in Hheap, Hres. subst h1.
  destruct (for_each (value_class_step S T) (enumerate (np_unique T).1) (z, z))
    as [e|st].
  { subst res. rewrite (mbind_raise _ _ _ _ _ Hrun).
    split; [reflexivity | apply unchanged_app]. }
  destruct Hres as [-> ->]. rewrite (mbind_ok _ _ _ _ _ Hrun).
  cbn [bind fst snd].
  pose proof (load_stats_ok _ _ _ (deref_first_cell h (BStats a) (BStats b)))
    as Ha.
  pose proof (load_stats_ok _ _ _ (deref_second_cell h (BStats a) (BStats b)))
    as Hb.
  rewrite (mbind_ok _ _ _ _ _ Ha).
  rewrite mbind_lift.
  destruct (nd_min a) as [e|v1].
  { split; [reflexivity | apply unchanged_app]. }
  cbn [bind].
  rewrite (mbind_ok _ _ _ _ _ Ha).
  rewrite mbind_lift.
  destruct (nd_max a) as [e|v2].
  { split; [reflexivity | apply unchanged_app]. }
  cbn [bind].
  rewrite (mbind_ok _ _ _ _ _ Ha).
  rewrite (mbind_ok _ _ _ _ _ Hb).
  rewrite mbind_lift.
  destruct (nd_min b) as [e|v3].
  { split; [reflexivity | apply unchanged_app]. }
  cbn [bind].
  rewrite (mbind_ok _ _ _ _ _ Hb).
  rewrite mbind_lift.
  destruct (nd_max b) as [e|v4].
  { split; [reflexivity | apply unchanged_app]. }
  cbn [bind].
  rewrite (mbind_ok _ _ _ _ _ Hb).
  split; [reflexivity | apply unchanged_app].
Qed.

End CoverageSizeStore.

Lemma float_sum_as_float (m : list (list bool)) :
  Qsum (map Qsum (map (map Qbool) m)) = float_sum m.
Proof. unfold float_sum. by rewrite map_map. Qed.

Section AccuracyStore.

Variables (correct : array) (c : list (list bool)) (batch_size : nat).

(** One turn of the loop over [topk] allocates the float copy and the sum,
    and overwrites the sum it has just allocated. *)
Lemma topk_step_store (hk : heap) (k : nat) :
  deref hk correct = Some (BBool c) ->
  exists new,
    snd (topk_step correct batch_size k hk) = hk ++ new /\
    match percentage_of c batch_size k with
    | inl e => fst (topk_step correct batch_size k hk) = inl e
    | inr v =>
        exists a,
          fst (topk_step correct batch_size k hk) = ok a /\
          deref (hk ++ new) a = Some (BScalar v)
    end.
Proof.
  intros Hc. unfold topk_step, percentage_of.
  assert (Hview : deref hk (view (first_rows k) correct)
                  = Some (BBool (take k c))).
  { unfold deref, view in *. cbn [base through].
    destruct (hk !! base correct) as [b|]; [|discriminate].
    cbn in *. injection Hc as ->. reflexivity. }
  rewrite (mbind_ok _ _ _ _ _ (load_bool_ok _ _ _ Hview)).
  rewrite (mbind_ok _ _ _ _ _ (alloc_ok _ _)).
  set (f := map (map Qbool) (take k c)).
  rewrite (mbind_ok _ _ _ _ _ (load_float_ok _ _ _ (deref_alloc hk _ _))).
  rewrite (mbind_ok _ _ _ _ _ (alloc_ok _ _)).
  rewrite <- app_assoc. cbn [app]. rewrite length_app. cbn [length].
  replace (length hk + 1) with (Datatypes.S (length hk)) by lia.
  rewrite mbind_lift.
  destruct (percent_per_example batch_size) as [e|scale]; cbn [bind].
  { eexists. split; reflexivity. }
  rewrite (mbind_ok _ _ _ _ _
             (load_scalar_ok _ _ _
                (deref_second_cell hk (BFloat f) (BScalar (Qsum (map Qsum f)))))).
  unfold mbind, store, ret. cbn [base fst snd].
  rewrite store_second_cell.
  eexists. split; [reflexivity|].
  eexists. split; [reflexivity|].
  rewrite deref_second_cell. subst f. by rewrite float_sum_as_float.
Qed.

Lemma map_M_topk_step_store (topk : list nat) (hk : heap) :
  deref hk correct = Some (BBool c) ->
  unchanged hk (snd (map_M (topk_step correct batch_size) topk hk)) /\
  match map_result (percentage_of c batch_size) topk with
  | inl e => fst (map_M (topk_step correct batch_size) topk hk) = inl e
  | inr vals =>
      exists refs,
        fst (map_M (topk_step correct batch_size) topk hk) = ok refs /\
        Forall2 (fun a v =>
                   deref (snd (map_M (topk_step correct batch_size) topk hk)) a
                   = Some (BScalar v))
          refs vals
  end.
Proof.
  revert hk. induction topk as [|k topk IH]; intros hk Hc.
  - cbn. split; [apply unchanged_refl|]. exists []. split; [reflexivity|].
    constructor.
  - cbn [map_M map_result].
    destruct (topk_step_store hk k Hc) as (new & Hheap & Hres).
    destruct (topk_step correct batch_size k hk) as [res h1] eqn:Hrun.
    cbn [fst snd] in Hheap, Hres. subst h1.
    destruct (percentage_of c batch_size k) as [e|v].
    + subst res. rewrite (mbind_raise _ _ _ _ _ Hrun). cbn [bind fst snd].
      split; [apply unchanged_app | reflexivity].
    + destruct Hres as (a & -> & Ha). rewrite (mbind_ok _ _ _ _ _ Hrun).
      cbn [bind].
      assert (Hc1 : deref (hk ++ new) correct = Some (BBool c))
        by (eapply deref_unchanged; [apply unchanged_app | exact Hc]).
      destruct (IH (hk ++ new) Hc1) as [Hun Hrest].
      destruct (map_M (topk_step correct batch_size) topk (hk ++ new))
        as [rest h2] eqn:Hloop.
      cbn [fst snd] in Hun, Hrest.
      destruct (map_result (percentage_of c batch_size) topk) as [e|vals].
      * subst rest. rewrite (mbind_raise _ _ _ _ _ Hloop). cbn [bind fst snd].
        split; [|reflexivity].
        eapply unchanged_trans; [apply unchanged_app | exact Hun].
      * destruct Hrest as (refs & -> & Hrefs).
        rewrite (mbind_ok _ _ _ _ _ Hloop). unfold ret. cbn [bind fst snd].
        split; [eapply unchanged_trans; [apply unchanged_app | exact Hun]|].
        exists (a :: refs). split; [reflexivity|].
        constructor; [|exact Hrefs].
        by eapply deref_unchanged.
Qed.

End AccuracyStore.

(** [accuracy] on tensors in memory returns tensors holding what the
    value-level function returns of their contents, and appends to the
    heap the tensors it allocates; the only tensors it overwrites are sums
    it has allocated itself. *)
Lemma accuracy_store (h : heap) (output target : array)
    (O : list (list Q)) (T : list nat) (topk : list nat) :
  deref h output = Some (BFloat O) ->
  deref h target = Some (BLabels T) ->
  unchanged h (snd (Store.accuracy output target topk h)) /\
  match value_accuracy O T topk with
  | inl e => fst (Store.accuracy output target topk h) = inl e
  | inr vals =>
      exists refs,
        fst (Store.accuracy output target topk h) = ok refs /\
        Forall2 (fun a v =>
                   deref (snd (Store.accuracy output target topk h)) a
                   = Some (BScalar v))
          refs vals
  end.
Proof.
  intros Ho Ht. unfold Store.accuracy, value_accuracy.
  rewrite mbind_lift.
  destruct (py_max topk) as [e|maxk]; cbn [bind].
  { split; [apply unchanged_refl | reflexivity]. }
  rewrite (mbind_ok _ _ _ _ _ (load_labels_ok _ _ _ Ht)).
  rewrite (mbind_ok _ _ _ _ _ (load_float_ok _ _ _ Ho)).
  rewrite mbind_lift.
  destruct (torch_topk maxk O) as [e|indices]; cbn [bind].
  { split; [apply unchanged_refl | reflexivity]. }
  rewrite (mbind_ok _ _ _ _ _ (alloc_ok _ _)).
  set (h1 := h ++ [BInt indices]).
  assert (Ht1 : deref h1 target = Some (BLabels T))
    by (eapply deref_unchanged; [apply unchanged_app | exact Ht]).
  rewrite (mbind_ok _ _ _ _ _ (load_labels_ok _ _ _ Ht1)).
  rewrite mbind_lift.
  destruct (expand_as T maxk (length O)) as [e|labels] eqn:Hexp; cbn [bind].
  { split; [apply unchanged_app | reflexivity]. }
  assert (Hpred : deref h1 (view (transposed maxk)
                              (mk_array (length h) (fun b => b)))
                  = Some (BInt (transpose 0 maxk indices)))
    by exact (deref_alloc h (BInt indices) (transposed maxk)).
  assert (Hlabels : deref h1 (view (expanded maxk (length O)) target)
                    = Some (BInt labels)).
  { unfold deref, view in *. cbn [base through].
    destruct (h1 !! base target) as [b|]; [|discriminate].
    cbn in *. injection Ht1 as ->. cbn [expanded]. by rewrite Hexp. }
  rewrite (mbind_ok _ _ _ _ _ (load_int_ok _ _ _ Hpred)).
  rewrite (mbind_ok _ _ _ _ _ (load_int_ok _ _ _ Hlabels)).
  rewrite (mbind_ok _ _ _ _ _ (alloc_ok _ _)).
  set (c := tensor_eq (transpose 0 maxk indices) labels).
  pose proof (map_M_topk_step_store (mk_array (length h1) (fun b => b)) c
                (length T) topk (h1 ++ [BBool c]) (deref_alloc h1 _ _))
    as [Hun Hres].
  split.
  - eapply unchanged_trans; [|exact Hun].
    subst h1. rewrite <- app_assoc. apply unchanged_app.
  - exact Hres.
Qed.

End StoreFacts.

(** C9: run on arrays in memory, [sort_sum], [coverage_size] and
    [accuracy] leave every buffer that existed before the call as it was,
    their arguments among them, and what they return is the value-level
    function of the contents of their arguments: it depends on nothing
    else in the heap. *)
Theorem metrics_leave_arguments_unchanged (h : list Store.buffer) :
  (forall scores s,
     Store.deref h scores = Some (Store.BFloat s) ->
     exists I ordered cumsum h',
       Store.sort_sum scores h = (ok (I, ordered, cumsum), h') /\
       unchanged h h' /\
       Store.deref h' scores = Some (Store.BFloat s) /\
       Store.deref h' I = Some (Store.BInt (ss_I (sort_sum s))) /\
       Store.deref h' ordered = Some (Store.BFloat (ss_ordered (sort_sum s))) /\
       Store.deref h' cumsum = Some (Store.BFloat (ss_cumsum (sort_sum s)))) /\
  (forall maxdims sets targets S T,
     Store.deref h sets = Some (Store.BBool S) ->
     Store.deref h targets = Some (Store.BLabels T) ->
     let run := Store.coverage_size maxdims sets targets h in
     fst run = coverage_size maxdims S T /\
     unchanged h (snd run) /\
     Store.deref (snd run) sets = Some (Store.BBool S) /\
     Store.deref (snd run) targets = Some (Store.BLabels T)) /\
  (forall output target O T topk,
     Store.deref h output = Some (Store.BFloat O) ->
     Store.deref h target = Some (Store.BLabels T) ->
     let run := Store.accuracy output target topk h in
     unchanged h (snd run) /\
     Store.deref (snd run) output = Some (Store.BFloat O) /\
     Store.deref (snd run) target = Some (Store.BLabels T) /\
     match accuracy O T topk with
     | inl e => fst run = inl e
     | inr vals =>
         exists refs,
           fst run = ok refs /\
           Forall2 (fun a v => Store.deref (snd run) a = Some (Store.BScalar v))
             refs vals
     end).
Proof.
  split; [|split].
  - intros scores s Hs.
    destruct (sort_sum_store h scores s Hs)
      as (I & ordered & cumsum & h' & Hrun & Hun & HI & Ho & Hc).
    exists I, ordered, cumsum, h'. repeat split; try assumption.
    by eapply deref_unchanged.
  - intros maxdims sets targets S T Hs Ht run.
    destruct (coverage_size_store h sets targets S T Hs Ht maxdims)
      as [Hres Hun].
    fold run in Hres, Hun. repeat split; try assumption.
    + by eapply deref_unchanged.
    + by eapply deref_unchanged.
  - intros output target O T topk Ho Ht run.
    destruct (accuracy_store h output target O T topk Ho Ht) as [Hun Hres].
    fold run in Hres, Hun. repeat split; try assumption.
    + by eapply deref_unchanged.
    + by eapply deref_unchanged.
Qed.

(** C9 on the example heap: the three calls leave its four buffers as they
    were. *)
Lemma metrics_leave_arguments_unchanged_witness :
  (Store.deref Example.heap (Example.array_at 0)
   = Some (Store.BFloat
             [[1 # 2; 1 # 3; 1 # 6]; [1 # 10; 7 # 10; 2 # 10]; [0; 1; 0]]%Q) /\
   Store.deref Example.heap (Example.array_at 1)
   = Some (Store.BLabels [0; 2; 1]%nat) /\
   Store.deref Example.heap (Example.array_at 2)
   = Some (Store.BBool
             [[true; false]; [false; true]; [true; true]; [false; true]]) /\
   Store.deref Example.heap (Example.array_at 3)
   = Some (Store.BLabels [0; 1; 0; 1]%nat)) /\
  unchanged Example.heap
    (snd (Store.sort_sum (Example.array_at 0) Example.heap)) /\
  unchanged Example.heap
    (snd (Store.coverage_size 32 (Example.array_at 2) (Example.array_at 3)
            Example.heap)) /\
  unchanged Example.heap
    (snd (Store.accuracy (Example.array_at 0) (Example.array_at 1)
            [1; 2]%nat Example.heap)).
Proof.
  pose proof (metrics_leave_arguments_unchanged Example.heap)
    as (Hsort & Hcov & Hacc).
  split; [by repeat split|]. split; [|split].
  - destruct (Hsort (Example.array_at 0) _ eq_refl)
      as (I & ordered & cumsum & h' & Hrun & Hun & _).
    rewrite Hrun. exact Hun.
  - exact (proj1 (proj2 (Hcov 32%nat (Example.array_at 2) (Example.array_at 3)
                           _ _ eq_refl eq_refl))).
  - exact (proj1 (Hacc (Example.array_at 0) (Example.array_at 1) _ _
                    [1; 2]%nat eq_refl eq_refl)).
Defined.

(** ** When [coverage_size] returns

    The call returns when the sets have one row per label with the label
    among its columns, and the observed classes are no more than [maxdims]
    and no more than the examples of the smallest one (the first axis of
    the statistics arrays). *)

Lemma map_result_returns {A B} (f : A -> result B) (xs : list A) :
  (forall x, x ∈ xs -> exists y, f x = ok y) ->
  exists ys, map_result f xs = ok ys.
Proof.
  induction xs as [|x xs IH]; intros H; cbn [map_result].
  - by eexists.
  - destruct (H x) as [y Hy]; [by left|].
    destruct IH as [ys Hys]; [intros z Hz; apply H; by right|].
    rewrite Hy, Hys. by eexists.
Qed.

Section CoverageSizeReturns.

Variables (sets : list (list bool)) (targets : list nat).
Hypothesis Hshape : Forall2 (fun row t => t < length row) sets targets.

Lemma take_pairs_returns :
  exists hit, take_pairs sets (seq 0 (length targets)) targets = ok hit.
Proof.
  apply map_result_returns. intros [i t] Hit.
  apply zip_seq_lookup in Hit as [Hit _]. rewrite Nat.sub_0_r in Hit.
  destruct (Forall2_lookup_r _ _ _ _ _ Hshape Hit) as (row & Hrow & Ht).
  cbn [fst snd]. rewrite Hrow.
  destruct (lookup_lt_is_Some_2 row t Ht) as [b ->]. by eexists.
Qed.

Lemma mask_rows_returns (cls : nat) :
  exists rows,
    mask_rows sets (eq_mask targets cls) = ok rows /\
    Forall (fun row => cls < length row) rows.
Proof.
  unfold mask_rows, eq_mask. rewrite length_map.
  rewrite <- (Forall2_length _ _ _ Hshape), Nat.eqb_refl.
  eexists. split; [reflexivity|].
  assert (Hgen : forall (ss : list (list bool)) (ts : list nat),
             Forall2 (fun row t => t < length row) ss ts ->
             Forall (fun row => cls < length row)
               (map snd (filter (fun mr => fst mr = true)
                           (zip (map (fun t => Nat.eqb t cls) ts) ss))));
    [|by apply Hgen].
  clear. intros ss ts H. induction H as [|row t sets' targets' Ht _ IH].
  - constructor.
  - cbn [map zip zip_with]. rewrite filter_cons. cbn [fst].
    destruct (Nat.eqb_spec t cls) as [->|Hne].
    + rewrite decide_True by reflexivity. cbn [map snd].
      constructor; [exact Ht | exact IH].
    + rewrite decide_False by discriminate. exact IH.
Qed.

Lemma mask_col_returns (cls : nat) :
  exists col, mask_col sets (eq_mask targets cls) cls = ok col.
Proof.
  unfold mask_col. destruct (mask_rows_returns cls) as (rows & -> & Hrows).
  cbn [bind ok]. apply map_result_returns. intros row Hrow.
  rewrite Forall_forall in Hrows.
  destruct (lookup_lt_is_Some_2 row cls (Hrows row Hrow)) as [b ->].
  by eexists.
Qed.

(** An array is well-shaped when it has as many cells as its shape says. *)
Lemma nd_setitem_returns (a : ndarray) (d : nat) (rest : list nat) (i : nat)
    (v : npfloat) :
  nd_shape a = d :: rest -> i < d ->
  length (nd_data a) = prod_list (nd_shape a) ->
  exists a', nd_setitem a i v = ok a' /\
             nd_shape a' = nd_shape a /\
             length (nd_data a') = prod_list (nd_shape a').
Proof.
  intros Hs Hi Hlen. unfold nd_setitem. rewrite Hs.
  destruct (Nat.ltb_spec i d) as [_|?]; [|lia].
  eexists. split; [reflexivity|]. cbn [nd_shape nd_data].
  split; [reflexivity|].
  rewrite Hs in Hlen. cbn [prod_list fold_right] in Hlen.
  fold (prod_list rest) in Hlen.
  rewrite !length_app, length_take, length_replicate, length_drop, Hlen.
  cbn [prod_list fold_right]. fold (prod_list rest). nia.
Qed.

Lemma for_each_class_step_returns (ics : list (nat * nat)) (a b : ndarray)
    (d : nat) (rest : list nat) :
  Forall (fun ic => fst ic < d) ics ->
  nd_shape a = d :: rest -> nd_shape b = d :: rest ->
  length (nd_data a) = prod_list (nd_shape a) ->
  length (nd_data b) = prod_list (nd_shape b) ->
  exists a' b',
    for_each (class_step sets targets) ics (a, b) = ok (a', b') /\
    length (nd_data a') = prod_list (d :: rest) /\
    length (nd_data b') = prod_list (d :: rest).
Proof.
  intros Hics. revert a b.
  induction Hics as [|[i cls] ics Hi _ IH]; intros a b Ha Hb Hla Hlb.
  - exists a, b. split; [reflexivity|]. by rewrite <- Ha at 1; rewrite <- Hb.
  - cbn [for_each]. unfold class_step at 1. cbn [fst snd] in *.
    destruct (mask_col_returns cls) as [col ->]. cbn [bind ok].
    destruct (nd_setitem_returns a d rest i (np_mean_bool (eq_True col))
                Ha Hi Hla) as (a' & -> & Ha' & Hla').
    cbn [bind ok].
    destruct (mask_rows_returns cls) as (rows & -> & _). cbn [bind ok].
    destruct (nd_setitem_returns b d rest i (np_mean (row_sums rows))
                Hb Hi Hlb) as (b' & -> & Hb' & Hlb').
    cbn [bind ok]. apply IH; congruence.
Qed.

Lemma nd_reduce_returns (op : Q -> Q -> Q) (a : ndarray) :
  0 < length (nd_data a) -> exists v, nd_reduce op a = ok v.
Proof.
  intros Hpos. unfold nd_reduce.
  destruct (nd_data a) as [|x l] eqn:E; [simpl in Hpos; lia|].
  destruct (finite_cells (x :: l)) as [[|q qs]|] eqn:F; try by eexists.
  destruct x; cbn [finite_cells] in F; [|discriminate].
  destruct (finite_cells l); discriminate.
Qed.

Lemma counts_positive :
  Forall (fun c => 0 < c) (snd (np_unique targets)).
Proof.
  unfold np_unique. cbn [snd]. apply Forall_forall. intros n Hn.
  apply list_elem_of_fmap in Hn as (c & -> & Hc).
  rewrite elem_of_remove_dups, merge_sort_Permutation in Hc.
  apply list_elem_of_lookup_1 in Hc as [i Hi].
  assert (Hin : c ∈ filter (fun t => t = c) targets).
  { apply list_elem_of_filter. split; [reflexivity|].
    by eapply list_elem_of_lookup_2. }
  destruct (filter (fun t => t = c) targets); [by apply elem_of_nil in Hin|].
  simpl. lia.
Qed.

Lemma prod_list_positive (l : list nat) :
  Forall (fun c => 0 < c) l -> 0 < prod_list l.
Proof.
  induction 1 as [|c l Hc _ IH]; cbn [prod_list fold_right]; [lia|].
  fold (prod_list l). nia.
Qed.

Lemma coverage_size_returns (maxdims : nat) :
  length (fst (np_unique targets)) <= maxdims ->
  (forall d, head (snd (np_unique targets)) = Some d ->
             length (fst (np_unique targets)) <= d) ->
  exists r, coverage_size maxdims sets targets = ok r.
Proof.
  intros Hdims Hfirst. unfold coverage_size.
  destruct take_pairs_returns as [hit ->]. cbn [bind ok].
  set (classes := fst (np_unique targets)) in *.
  set (counts := snd (np_unique targets)) in *.
  assert (Hlen : length counts = length classes).
  { subst counts classes. unfold np_unique. cbn [fst snd]. apply length_map. }
  pose proof counts_positive as Hpos. fold counts in Hpos.
  unfold np_zeros. rewrite Hlen.
  destruct (Nat.ltb_spec maxdims (length classes)) as [?|_]; [lia|].
  cbn [bind ok].
  set (z := mk_ndarray counts (replicate (prod_list counts) (Num 0))).
  assert (Hz : length (nd_data z) = prod_list (nd_shape z))
    by apply length_replicate.
  assert (Hloop : exists a b,
             for_each (class_step sets targets) (enumerate classes) (z, z)
               = ok (a, b) /\
             0 < length (nd_data a) /\ 0 < length (nd_data b)).
  { destruct counts as [|d rest] eqn:Ecounts.
    - destruct classes; [|discriminate]. exists z, z.
      split; [reflexivity|]. cbn. lia.
    - assert (Hd : length classes <= d) by (by apply Hfirst).
      destruct (for_each_class_step_returns (enumerate classes) z z d rest)
        as (a & b & Hrun & Hla & Hlb); try (reflexivity || exact Hz).
      + apply Forall_forall. intros [i cls] Hic.
        apply zip_seq_lookup in Hic as [Hic _]. rewrite Nat.sub_0_r in Hic.
        apply lookup_lt_Some in Hic. cbn [fst]. lia.
      + exists a, b. split; [exact Hrun|].
        pose proof (prod_list_positive (d :: rest) Hpos). lia. }
  destruct Hloop as (a & b & -> & Ha & Hb). cbn [bind ok fst snd].
  destruct (nd_reduce_returns Qmin a Ha) as [v1 H1].
  destruct (nd_reduce_returns Qmax a Ha) as [v2 H2].
  destruct (nd_reduce_returns Qmin b Hb) as [v3 H3].
  destruct (nd_reduce_returns Qmax b Hb) as [v4 H4].
  unfold nd_min, nd_max. rewrite H1, H2, H3, H4. cbn [bind ok]. by eexists.
Qed.

End CoverageSizeReturns.

(** * Further properties of the code *)

(** ** [sort_sum]: how the three arrays relate *)

Local Open Scope Q_scope.

#[global] Instance by_score_total (row : list Q) : Total (by_score row).
Proof.
  intros i j. unfold by_score.
  destruct (Qle_total (score_at row i) (score_at row j)); auto.
Qed.

Lemma scores_at_seq (pre row : list Q) :
  map (score_at (pre ++ row)) (seq (length pre) (length row)) = row.
Proof.
  revert pre. induction row as [|x row IH]; intros pre; [reflexivity|].
  cbn [length seq map]. f_equal.
  - unfold score_at. by rewrite app_nth2, Nat.sub_diag by lia.
  - specialize (IH (pre ++ [x])).
    rewrite <- app_assoc, length_app in IH. cbn [app length] in IH.
    by rewrite Nat.add_1_r in IH.
Qed.

Lemma gather_argsort_Permutation (row : list Q) :
  map (score_at row) (np_argsort row) ≡ₚ row.
Proof.
  unfold np_argsort. rewrite merge_sort_Permutation.
  pose proof (scores_at_seq [] row) as H. cbn [app length] in H.
  by rewrite H.
Qed.

Lemma gather_argsort_Sorted (row : list Q) :
  Sorted Qle (map (score_at row) (np_argsort row)).
Proof.
  apply (Sorted_fmap (score_at row) (by_score row) Qle); [auto|].
  apply Sorted_merge_sort. apply _.
Qed.

(** X1: when the scores of every row are fractions in lowest terms (so that
    equal scores are the same value, as floats are), [ordered] is [scores]
    read at the indices [I]: [ordered[i][j] = scores[i][I[i][j]]]. *)
Theorem sort_sum_ordered_is_scores_at_I (scores : list (list Q)) :
  Forall (Forall (fun x => Qred x = x)) scores ->
  zip_with (fun row I_row => map (score_at row) I_row)
    scores (ss_I (sort_sum scores))
  = ss_ordered (sort_sum scores).
Proof.
  unfold sort_sum. cbn [ss_I ss_ordered].
  induction 1 as [|row scores Hrow _ IH]; [reflexivity|].
  cbn [map zip_with]. rewrite IH. f_equal.
  change (map (score_at row) (reverse (np_argsort row)))
    with (score_at row <$> reverse (np_argsort row)).
  rewrite fmap_reverse. f_equal.
  apply (Sorted_unique_strong Qle).
  - intros x y Hx Hy Hxy Hyx.
    rewrite gather_argsort_Permutation in Hx.
    unfold np_sort in Hy. rewrite merge_sort_Permutation in Hy.
    rewrite Forall_forall in Hrow.
    rewrite <- (Hrow x Hx), <- (Hrow y Hy).
    apply Qred_complete. lra.
  - apply gather_argsort_Sorted.
  - apply Sorted_merge_sort. apply _.
  - rewrite gather_argsort_Permutation. unfold np_sort.
    by rewrite merge_sort_Permutation.
Qed.

(** X1 on two rows, one with tied scores. *)
Lemma sort_sum_ordered_is_scores_at_I_witness :
  let scores := [[1 # 3; 1 # 2; 1 # 6]; [1 # 4; 1 # 4; 1 # 2]] in
  Forall (Forall (fun x => Qred x = x)) scores /\
  zip_with (fun row I_row => map (score_at row) I_row)
    scores (ss_I (sort_sum scores))
  = [[1 # 2; 1 # 3; 1 # 6]; [1 # 2; 1 # 4; 1 # 4]].
Proof.
  intros scores.
  assert (H : Forall (Forall (fun x => Qred x = x)) scores)
    by (repeat constructor).
  split; [exact H|].
  exact (sort_sum_ordered_is_scores_at_I scores H).
Defined.

Lemma cumsum_from_lookup (acc : Q) (row : list Q) (j : nat) (s : Q) :
  cumsum_from acc row !! j = Some s -> s == acc + Qsum (take (S j) row).
Proof.
  revert acc j. induction row as [|x row IH]; intros acc j; [done|].
  cbn [cumsum_from]. destruct j as [|j].
  - intros [= <-]. change (take 1 (x :: row)) with (x :: take 0 row).
    rewrite take_0, Qsum_cons. change (Qsum []) with 0. lra.
  - intros Hs. apply IH in Hs. rewrite Hs.
    change (take (S (S j)) (x :: row)) with (x :: take (S j) row).
    rewrite Qsum_cons. lra.
Qed.

(** X2: entry [j] of a row of [cumsum] is the sum of the first [j + 1]
    entries of the same row of [ordered], that is of the [j + 1] largest
    scores of the row. *)
Theorem sort_sum_cumsum_is_prefix_sum (scores : list (list Q)) :
  Forall2 (fun ordered_row cumsum_row =>
             length cumsum_row = length ordered_row /\
             forall j s, cumsum_row !! j = Some s ->
                         s == Qsum (take (S j) ordered_row))
    (ss_ordered (sort_sum scores)) (ss_cumsum (sort_sum scores)).
Proof.
  unfold sort_sum. cbn [ss_ordered ss_cumsum].
  apply Forall2_fmap_r, Forall_Forall2_diag, Forall_forall.
  intros row _. unfold np_cumsum. split; [apply cumsum_from_length|].
  intros j s Hs. apply cumsum_from_lookup in Hs. rewrite Hs. lra.
Qed.

(** ** [coverage_size]: the overall statistics and the exceptions *)

Lemma Qsum_between (l : list Q) (q : Q) :
  Forall (fun x => 0 <= x <= q) l ->
  0 <= Qsum l <= Qnat (length l) * q.
Proof.
  induction 1 as [|x l [Hx0 Hxq] _ [IH0 IHq]].
  - change (Qsum []) with 0. change (Qnat (length [])) with 0. lra.
  - cbn [length]. rewrite Qsum_cons, Qnat_S. lra.
Qed.

Lemma Qsum_Qbool_between (row : list bool) :
  0 <= Qsum (map Qbool row) <= Qnat (length row).
Proof.
  destruct (Qsum_between (map Qbool row) 1) as [H0 H1].
  - apply Forall_forall. intros x Hx.
    apply list_elem_of_fmap in Hx as (b & -> & _). destruct b; simpl; lra.
  - rewrite length_map in H1. lra.
Qed.

Lemma np_mean_between (l : list Q) (q : Q) :
  l <> [] ->
  Forall (fun x => 0 <= x <= q) l ->
  exists m, np_mean l = Num m /\ 0 <= m <= q.
Proof.
  intros Hne H. destruct l as [|x l]; [done|].
  eexists. split; [reflexivity|].
  destruct (Qsum_between _ _ H) as [H0 H1].
  assert (Hpos : 0 < Qnat (length (x :: l))).
  { apply Qnat_pos. cbn [length]. lia. }
  split.
  - apply Qle_shift_div_l; [exact Hpos|]. lra.
  - apply Qle_shift_div_r; [exact Hpos|]. lra.
Qed.

(** X5: when [coverage_size] returns on at least one label, the coverage
    is a number between 0 and 1 and the average size a number between 0
    and the number of columns. *)
Theorem coverage_size_overall_bounds (maxdims C : nat)
    (sets : list (list bool)) (targets : list nat) (r : coverage_stats) :
  coverage_size maxdims sets targets = ok r ->
  targets <> [] ->
  Forall (fun row => (length row <= C)%nat) sets ->
  exists c s, cvg r = Num c /\ sz r = Num s /\
              0 <= c <= 1 /\ 0 <= s <= Qnat C.
Proof.
  intros Hr Hne Hcols.
  apply coverage_size_ok_overall in Hr as (hit & Hhit & -> & ->).
  apply take_pairs_ok in Hhit.
  destruct targets as [|t targets]; [done|].
  cbn [length seq zip zip_with] in Hhit.
  inversion Hhit as [|p b ps hit' (row & Hrow & _) _ Ep Eh]. subst.
  cbn [fst] in Hrow.
  destruct (np_mean_between (map Qbool (eq_True (b :: hit'))) 1)
    as (c & Hc & Hc01); [done| |].
  { apply Forall_forall. intros x Hx.
    apply list_elem_of_fmap in Hx as (b' & -> & _). destruct b'; simpl; lra. }
  destruct (np_mean_between (row_sums sets) (Qnat C)) as (s & Hs & Hs0C).
  { destruct sets; [discriminate|done]. }
  { apply Forall_forall. intros x Hx. unfold row_sums in Hx.
    apply list_elem_of_fmap in Hx as (row' & -> & Hrow').
    rewrite Forall_forall in Hcols.
    pose proof (Qsum_Qbool_between row') as [H0 H1].
    pose proof (Qnat_le _ _ (Hcols row' Hrow')). lra. }
  exists c, s. by repeat split; try apply Hc01; try apply Hs0C.
Qed.

(** X5 on three examples with sets over two classes. *)
Lemma coverage_size_overall_bounds_witness :
  let sets := [[true; false]; [true; true]; [false; false]] in
  let targets := [0; 0; 0]%nat in
  exists r, coverage_size 32 sets targets = ok r /\
  exists c s, cvg r = Num c /\ sz r = Num s /\
              0 <= c <= 1 /\ 0 <= s <= Qnat 2.
Proof.
  intros sets targets. eexists. split; [reflexivity|].
  apply (coverage_size_overall_bounds 32 2 sets targets).
  - reflexivity.
  - discriminate.
  - repeat constructor.
Defined.

Lemma map_result_raises {A B} (f : A -> result B) (l : list A) (e : exn)
    (x : A) :
  (forall y e', f y = raise e' -> e' = e) ->
  x ∈ l -> f x = raise e ->
  map_result f l = raise e.
Proof.
  intros Hall Hx Hfx. induction l as [|y l IH]; [by apply elem_of_nil in Hx|].
  cbn [map_result]. destruct (f y) as [e'|b] eqn:E.
  - by rewrite (Hall y e' E).
  - cbn [bind ok].
    apply elem_of_cons in Hx as [->|Hx]; [rewrite Hfx in E; discriminate|].
    by rewrite (IH Hx).
Qed.

(** X6: a label with no row of its own in [sets], or one that is not a
    column of its row, makes [coverage_size] raise [IndexError]. *)
Theorem coverage_size_label_out_of_range (maxdims : nat)
    (sets : list (list bool)) (targets : list nat) (i t : nat) :
  targets !! i = Some t ->
  (forall row, sets !! i = Some row -> (length row <= t)%nat) ->
  coverage_size maxdims sets targets = raise IndexError.
Proof.
  intros Ht Hrow. unfold coverage_size, take_pairs.
  rewrite (map_result_raises _ _ IndexError (i, t)); [reflexivity| | |].
  - intros [j u] e'. cbn [fst snd].
    destruct (sets !! j) as [row|]; [|by intros [= <-]].
    destruct (row !! u); [discriminate | by intros [= <-]].
  - apply (list_elem_of_lookup_2 _ i), lookup_zip_with_Some.
    exists i, t. split; [reflexivity|]. split; [|exact Ht].
    apply lookup_seq. split; [reflexivity|]. by eapply lookup_lt_Some.
  - cbn [fst snd]. destruct (sets !! i) as [row|] eqn:E; [|reflexivity].
    rewrite (lookup_ge_None_2 row t); [reflexivity|]. by apply Hrow.
Qed.

(** X6 with a label 2 on sets over two classes, and with a label more than
    rows. *)
Lemma coverage_size_label_out_of_range_witness :
  coverage_size 32 [[true; false]; [true; true]] [0; 2]%nat
    = raise IndexError /\
  coverage_size 32 [[true; false]] [0; 1]%nat = raise IndexError.
Proof.
  split.
  - apply (coverage_size_label_out_of_range 32 _ _ 1 2); [reflexivity|].
    intros row [= <-]. cbn [length]. lia.
  - apply (coverage_size_label_out_of_range 32 _ _ 1 1); [reflexivity|].
    intros row [=].
Defined.

Lemma np_unique_nonempty (targets : list nat) :
  targets <> [] -> fst (np_unique targets) <> [].
Proof.
  intros Hne E. unfold np_unique in E. cbn [fst] in E.
  destruct targets as [|t targets]; [done|].
  assert (Hin : t ∈ remove_dups (merge_sort le (t :: targets))).
  { rewrite elem_of_remove_dups, merge_sort_Permutation. left. }
  rewrite E in Hin. by apply elem_of_nil in Hin.
Qed.

(** X7: [coverage_size] returns on at least one label only when [sets]
    has exactly one row per label and every label is a column of its
    row. *)
Theorem coverage_size_returns_only_well_shaped (maxdims : nat)
    (sets : list (list bool)) (targets : list nat) (r : coverage_stats) :
  coverage_size maxdims sets targets = ok r ->
  targets <> [] ->
  Forall2 (fun row t => (t < length row)%nat) sets targets.
Proof.
  intros Hr Hne. unfold coverage_size in Hr.
  apply bind_ok in Hr as (hit & Hhit & Hr).
  apply bind_ok in Hr as (z1 & _ & Hr). apply bind_ok in Hr as (z2 & _ & Hr).
  apply bind_ok in Hr as (arrays & Hloop & _).
  assert (Hlen : length sets = length targets).
  { pose proof (np_unique_nonempty targets Hne) as Hcls.
    unfold enumerate in Hloop.
    destruct (fst (np_unique targets)) as [|cls classes]; [done|].
    cbn [length seq zip zip_with for_each] in Hloop.
    apply bind_ok in Hloop as (st & Hstep & _).
    unfold class_step in Hstep. cbn [fst snd] in Hstep.
    apply bind_ok in Hstep as (col & Hcol & _).
    unfold mask_col in Hcol. apply bind_ok in Hcol as (rows & Hrows & _).
    unfold mask_rows, eq_mask in Hrows. rewrite length_map in Hrows.
    destruct (Nat.eqb_spec (length targets) (length sets)); [done|].
    discriminate. }
  apply take_pairs_ok in Hhit.
  apply Forall2_same_length_lookup_2; [exact Hlen|].
  intros i row t Hrow Ht.
  assert (Hzip : zip (seq 0 (length targets)) targets !! i = Some (i, t)).
  { apply lookup_zip_with_Some. exists i, t. split; [reflexivity|].
    split; [|exact Ht]. apply lookup_seq. split; [reflexivity|].
    by eapply lookup_lt_Some. }
  destruct (Forall2_lookup_l _ _ _ _ _ Hhit Hzip)
    as (b & _ & row' & Hrow' & Hb).
  cbn [fst snd] in *. rewrite Hrow in Hrow'. injection Hrow' as <-.
  by eapply lookup_lt_Some.
Qed.

(** X7 on two examples of one class. *)
Lemma coverage_size_returns_only_well_shaped_witness :
  let sets := [[true; false]; [false; true]] in
  let targets := [1; 1]%nat in
  exists r, coverage_size 32 sets targets = ok r /\
            Forall2 (fun row t => (t < length row)%nat) sets targets.
Proof.
  intros sets targets. eexists. split; [reflexivity|].
  eapply (coverage_size_returns_only_well_shaped 32 sets targets).
  - reflexivity.
  - discriminate.
Defined.

Section CoverageSizeOutcome.

Variables (sets : list (list bool)) (targets : list nat).
Hypothesis Hshape :
  Forall2 (fun row t => (t < length row)%nat) sets targets.

(** The loop runs out of the first axis at the turn whose index is the
    length of that axis. *)
Lemma for_each_class_step_overflow (classes : list nat) (i0 : nat)
    (a b : ndarray) (d : nat) (rest : list nat) :
  nd_shape a = d :: rest -> nd_shape b = d :: rest ->
  length (nd_data a) = prod_list (nd_shape a) ->
  length (nd_data b) = prod_list (nd_shape b) ->
  (i0 <= d < i0 + length classes)%nat ->
  for_each (class_step sets targets) (zip (seq i0 (length classes)) classes)
    (a, b) = raise IndexError.
Proof.
  revert i0 a b.
  induction classes as [|cls classes IH]; intros i0 a b Ha Hb Hla Hlb Hd.
  { cbn [length] in Hd. lia. }
  cbn [length seq zip zip_with for_each]. unfold class_step at 1.
  cbn [fst snd].
  destruct (mask_col_returns sets targets Hshape cls) as [col ->].
  cbn [bind ok].
  destruct (decide (i0 = d)) as [->|Hne].
  - unfold nd_setitem at 1. rewrite Ha, Nat.ltb_irrefl. reflexivity.
  - destruct (nd_setitem_returns a d rest i0 (np_mean_bool (eq_True col))
                Ha ltac:(lia) Hla) as (a' & -> & Ha' & Hla').
    cbn [bind ok].
    destruct (mask_rows_returns sets targets Hshape cls) as (rows & -> & _).
    cbn [bind ok].
    destruct (nd_setitem_returns b d rest i0 (np_mean (row_sums rows))
                Hb ltac:(lia) Hlb) as (b' & -> & Hb' & Hlb').
    cbn [bind ok]. apply IH; try congruence. cbn [length] in Hd. lia.
Qed.

Lemma np_unique_lengths :
  length (snd (np_unique targets)) = length (fst (np_unique targets)).
Proof. unfold np_unique. cbn [fst snd]. apply length_map. Qed.

Lemma np_unique_NoDup :
  NoDup targets ->
  length (fst (np_unique targets)) = length targets /\
  Forall (fun c => c = 1%nat) (snd (np_unique targets)).
Proof.
  intros Hnd. unfold np_unique. cbn [fst snd]. split.
  - apply Permutation_length. rewrite <- (merge_sort_Permutation le targets) at 2.
    apply NoDup_Permutation.
    + apply NoDup_remove_dups.
    + by rewrite merge_sort_Permutation.
    + intros x. apply elem_of_remove_dups.
  - apply Forall_forall. intros n Hn.
    apply list_elem_of_fmap in Hn as (c & -> & Hc).
    rewrite elem_of_remove_dups, merge_sort_Permutation in Hc.
    clear -Hnd Hc. induction Hnd as [|t targets Ht Hnd IH].
    + by apply elem_of_nil in Hc.
    + rewrite filter_cons. destruct (decide (t = c)) as [->|Hne].
      * cbn [length]. f_equal.
        destruct (filter (fun t => t = c) targets) as [|u l] eqn:E;
          [reflexivity|].
        assert (Hu : u ∈ filter (fun t => t = c) targets)
          by (rewrite E; left).
        apply list_elem_of_filter in Hu as [-> Hu]. contradiction.
      * apply IH. apply elem_of_cons in Hc as [->|Hc]; [done | exact Hc].
Qed.

(** X8: on sets with one row per label and every label a column of its
    row, [coverage_size] cannot be used with more distinct labels than an
    array may have axes, nor on examples of different classes only: it
    raises [ValueError] when the distinct labels are more than [maxdims]
    ([np.zeros(counts)] has one axis per distinct label), and it raises
    [IndexError] when the labels, between two and [maxdims] of them, are
    all different (the arrays then have a single cell, and the second turn
    of the loop writes [cvgs[1]]). *)
Theorem coverage_size_outcome (maxdims : nat) :
  ((maxdims < length (observed_classes targets))%nat ->
   coverage_size maxdims sets targets = raise ValueError) /\
  (NoDup targets -> (2 <= length targets <= maxdims)%nat ->
   coverage_size maxdims sets targets = raise IndexError).
Proof.
  unfold observed_classes. pose proof np_unique_lengths as Hlen. split.
  - intros Hdims. unfold coverage_size.
    destruct (take_pairs_returns sets targets Hshape) as [hit ->].
    cbn [bind ok]. unfold np_zeros. rewrite Hlen.
    destruct (Nat.ltb_spec maxdims (length (fst (np_unique targets))));
      [reflexivity | lia].
  - intros Hnd Hn. destruct (np_unique_NoDup Hnd) as [HK Hones].
    unfold coverage_size.
    destruct (take_pairs_returns sets targets Hshape) as [hit ->].
    cbn [bind ok]. unfold np_zeros. rewrite Hlen, HK.
    destruct (Nat.ltb_spec maxdims (length targets)); [lia|].
    cbn [bind ok]. unfold enumerate.
    destruct (snd (np_unique targets)) as [|d rest] eqn:Ecounts.
    { cbn [length] in Hlen. lia. }
    apply Forall_inv in Hones. subst d.
    rewrite (for_each_class_step_overflow _ 0 _ _ 1 rest);
      try reflexivity; try apply length_replicate. lia.
Qed.

End CoverageSizeOutcome.

(** X8 on one example of each of three classes, with arrays of at most 32
    and of at most 2 axes. *)
Lemma coverage_size_outcome_witness :
  let sets := [[true; false; false]; [false; true; true];
               [true; true; true]] in
  let targets := [2; 0; 1]%nat in
  Forall2 (fun row t => (t < length row)%nat) sets targets /\
  coverage_size 32 sets targets = raise IndexError /\
  coverage_size 2 sets targets = raise ValueError.
Proof.
  intros sets targets.
  assert (Hshape : Forall2 (fun row t => (t < length row)%nat) sets targets)
    by (repeat constructor).
  split; [exact Hshape|]. split.
  - apply (coverage_size_outcome sets targets Hshape 32).
    + apply (bool_decide_unpack _). vm_compute. exact I.
    + subst targets. cbn [length]. lia.
  - apply (coverage_size_outcome sets targets Hshape 2).
    vm_compute. lia.
Defined.

(** ** [coverage_size]: the per-class statistics of a single class *)

Lemma Permutation_replicate_eq {A} (l : list A) (n : nat) (x : A) :
  l ≡ₚ replicate n x -> l = replicate n x.
Proof.
  intros H. rewrite <- (length_replicate n x) at 1.
  rewrite <- (Permutation_length H). symmetry.
  apply replicate_as_Forall_2; [reflexivity|].
  apply Forall_forall. intros y Hy. rewrite H in Hy.
  by apply elem_of_replicate in Hy as [-> _].
Qed.

Lemma remove_dups_replicate (n c : nat) :
  remove_dups (replicate (S n) c) = [c].
Proof.
  induction n as [|n IH]; [reflexivity|].
  change (replicate (S (S n)) c) with (c :: replicate (S n) c).
  cbn [remove_dups]. destruct (decide_rel _ _ _) as [_|Hn]; [exact IH|].
  destruct Hn. apply elem_of_replicate. split; [reflexivity | lia].
Qed.

Lemma np_unique_replicate (n c : nat) :
  np_unique (replicate (S n) c) = ([c], [S n]).
Proof.
  unfold np_unique.
  rewrite (Permutation_replicate_eq (merge_sort le (replicate (S n) c))
             (S n) c) by apply merge_sort_Permutation.
  rewrite remove_dups_replicate. cbn [map]. do 2 f_equal.
  generalize (S n). intros m.
  induction m as [|m IH]; [reflexivity|].
  cbn [replicate]. rewrite filter_cons_True by reflexivity.
  cbn [length]. by rewrite IH.
Qed.

Lemma mask_rows_all (sets : list (list bool)) (n c : nat) :
  length sets = n ->
  mask_rows sets (eq_mask (replicate n c) c) = ok sets.
Proof.
  intros <-. unfold mask_rows, eq_mask.
  rewrite length_map, length_replicate, Nat.eqb_refl. f_equal.
  induction sets as [|row sets IH]; [reflexivity|].
  cbn [length replicate map zip zip_with]. rewrite Nat.eqb_refl.
  rewrite filter_cons, decide_True by reflexivity.
  cbn [map snd]. f_equal. exact IH.
Qed.

(** Column [c] of sets whose rows all have it. *)
Lemma column_returns (sets : list (list bool)) (c : nat) :
  Forall (fun row => (c < length row)%nat) sets ->
  map_result
    (fun row : list bool =>
       match row !! c with None => raise IndexError | Some b => ok b end)
    sets
  = ok (map (fun row => nth c row false) sets).
Proof.
  induction 1 as [|row sets Hc _ IH]; [reflexivity|].
  cbn [map_result map]. rewrite IH.
  destruct (lookup_lt_is_Some_2 row c Hc) as [b Hb]. rewrite Hb.
  cbn [bind ok]. do 2 f_equal. symmetry. by apply nth_lookup_Some.
Qed.

Lemma take_pairs_column (pre sets : list (list bool)) (c : nat) :
  Forall (fun row => (c < length row)%nat) sets ->
  take_pairs (pre ++ sets) (seq (length pre) (length sets))
    (replicate (length sets) c)
  = ok (map (fun row => nth c row false) sets).
Proof.
  intros H. revert pre. unfold take_pairs.
  induction H as [|row sets Hc _ IH]; intros pre; [reflexivity|].
  cbn [length seq replicate zip zip_with map_result map fst snd].
  rewrite (list_lookup_middle pre sets row (length pre) eq_refl).
  destruct (lookup_lt_is_Some_2 row c Hc) as [b Hb]. rewrite Hb.
  cbn [bind ok]. specialize (IH (pre ++ [row])).
  rewrite <- app_assoc, length_app in IH. cbn [app length] in IH.
  rewrite Nat.add_1_r in IH. rewrite IH. cbn [bind ok].
  do 2 f_equal. symmetry. by apply nth_lookup_Some.
Qed.

Lemma finite_cells_zeros (n : nat) :
  finite_cells (replicate n (Num 0)) = Some (replicate n 0).
Proof.
  induction n as [|n IH]; [reflexivity|].
  cbn [replicate finite_cells]. by rewrite IH.
Qed.

Lemma fold_Qmin_zeros (n : nat) (q : Q) :
  0 <= q -> fold_left Qmin (replicate (S n) 0) q == 0.
Proof.
  intros Hq.
  assert (H : forall m x, x == 0 -> fold_left Qmin (replicate m 0) x == 0).
  { induction m as [|m IH]; intros x Hx; [exact Hx|].
    cbn [replicate fold_left]. apply IH. unfold Qmin.
    destruct (decide (x <= 0)); [exact Hx | reflexivity]. }
  cbn [replicate fold_left]. apply H. unfold Qmin.
  destruct (decide (q <= 0)); [lra | reflexivity].
Qed.

Lemma fold_Qmax_zeros (n : nat) (q : Q) :
  0 <= q -> fold_left Qmax (replicate n 0) q == q.
Proof.
  intros Hq. revert q Hq.
  induction n as [|n IH]; intros q Hq; [reflexivity|].
  cbn [replicate fold_left]. unfold Qmax at 2.
  destruct (decide (q <= 0)).
  - rewrite IH by lra. lra.
  - by apply IH.
Qed.

(** X9: when all the examples, two or more, carry one label, the arrays of
    per-class values have one cell per EXAMPLE, of which the loop writes
    the first: the minima reported for the classes are 0 whatever the
    sets are, and the maxima are the overall coverage and size. *)
Theorem coverage_size_single_class (maxdims n c : nat)
    (sets : list (list bool)) :
  (1 <= maxdims)%nat ->
  length sets = S (S n) ->
  Forall (fun row => (c < length row)%nat) sets ->
  exists r,
    coverage_size maxdims sets (replicate (S (S n)) c) = ok r /\
    cls_cvg_min r =f= Num 0 /\ cls_cvg_max r =f= cvg r /\
    cls_sz_min r =f= Num 0 /\ cls_sz_max r =f= sz r.
Proof.
  intros Hdims Hlen Hcols. unfold coverage_size.
  rewrite length_replicate.
  pose proof (take_pairs_column [] sets c Hcols) as Hhit.
  cbn [app length] in Hhit. rewrite Hlen in Hhit. rewrite Hhit.
  cbn [bind ok]. rewrite np_unique_replicate. cbn [fst snd].
  unfold np_zeros. cbn [length].
  destruct (Nat.ltb_spec maxdims 1) as [?|_]; [lia|].
  cbn [bind ok]. unfold enumerate. cbn [length seq zip zip_with for_each].
  unfold class_step. cbn [fst snd]. unfold mask_col.
  rewrite (mask_rows_all sets (S (S n)) c Hlen). cbn [bind ok].
  rewrite (column_returns sets c Hcols). cbn [bind ok].
  unfold nd_setitem. cbn [nd_shape nd_data Nat.ltb Nat.leb bind ok].
  cbn [prod_list fold_right]. rewrite !Nat.mul_1_r.
  cbn [Nat.mul Nat.add take drop replicate app fst snd].
  set (col := map (fun row => nth c row false) sets).
  destruct (np_mean_between (map Qbool (eq_True col)) 1) as (v & Hv & Hv01).
  { subst col. destruct sets; [discriminate|done]. }
  { apply Forall_forall. intros x Hx.
    apply list_elem_of_fmap in Hx as (b' & -> & _). destruct b'; simpl; lra. }
  destruct (np_mean_between (row_sums sets)
              (Qsum (row_sums sets))) as (s & Hs & Hs0).
  { destruct sets; [discriminate|done]. }
  { assert (Hnn : Forall (fun x => 0 <= x) (row_sums sets)).
    { apply Forall_forall. intros x Hx. unfold row_sums in Hx.
      apply list_elem_of_fmap in Hx as (row' & -> & _).
      apply Qsum_Qbool_between. }
    clear -Hnn. induction Hnn as [|x l Hx Hl IH]; [constructor|].
    assert (Hsum : 0 <= Qsum l).
    { clear -Hl. induction Hl as [|y l Hy _ IH];
        [change (Qsum []) with 0; lra | rewrite Qsum_cons; lra]. }
    constructor; [rewrite Qsum_cons; lra|].
    eapply Forall_impl; [exact IH|]. intros y [? ?]. cbn beta.
    rewrite Qsum_cons. lra. }
  unfold np_mean_bool. rewrite Hv, Hs.
  unfold nd_min, nd_max, nd_reduce. cbn [nd_data finite_cells].
  rewrite finite_cells_zeros. cbn [bind ok].
  eexists. split; [reflexivity|].
  cbn [cls_cvg_min cls_cvg_max cls_sz_min cls_sz_max cvg sz npfloat_eq].
  repeat split.
  - apply (fold_Qmin_zeros n), Hv01.
  - apply (fold_Qmax_zeros (S n)), Hv01.
  - apply (fold_Qmin_zeros n), Hs0.
  - apply (fold_Qmax_zeros (S n)), Hs0.
Qed.

(** X9 on three examples of class 1, all of whose sets contain it. *)
Lemma coverage_size_single_class_witness :
  let sets := [[false; true]; [true; true]; [false; true]] in
  exists r,
    coverage_size 32 sets (replicate 3 1%nat) = ok r /\
    cls_cvg_min r =f= Num 0 /\ cls_cvg_max r =f= cvg r /\
    cls_sz_min r =f= Num 0 /\ cls_sz_max r =f= sz r.
Proof.
  intros sets.
  apply (coverage_size_single_class 32 1 1 sets).
  - lia.
  - reflexivity.
  - repeat constructor.
Defined.

(** ** [accuracy]: more classes, full width, and the exceptions *)

Local Open Scope nat_scope.

Lemma length_filter_impl {A} (P R : A -> Prop)
    `{!forall x, Decision (P x)} `{!forall x, Decision (R x)} (l : list A) :
  (forall x, x ∈ l -> P x -> R x) ->
  length (filter P l) <= length (filter R l).
Proof.
  induction l as [|x l IH]; intros Himp; [reflexivity|].
  assert (IH' : length (filter P l) <= length (filter R l)).
  { apply IH. intros y Hy. apply Himp. by right. }
  rewrite !filter_cons.
  destruct (decide (P x)) as [HP|_].
  - rewrite decide_True by (apply Himp; [left | exact HP]). cbn [length]. lia.
  - destruct (decide (R x)); cbn [length]; lia.
Qed.

Lemma hits_mono (k k' : nat) (output : list (list Q)) (target : list nat) :
  k <= k' -> hits k output target <= hits k' output target.
Proof.
  intros Hk. unfold hits. apply length_filter_impl.
  intros [row t] _. unfold is_hit, top_classes. cbn [fst snd].
  rewrite !bool_decide_eq_true. intros Hin.
  apply elem_of_take in Hin as (i & Hi & Hlt).
  apply elem_of_take. exists i. split; [exact Hi | lia].
Qed.

(** What [accuracy] returns for one [k], read off its unfolding. *)
Lemma accuracy_entry (output : list (list Q)) (target : list nat)
    (maxk k : nat) :
  0 < length target ->
  k <= maxk ->
  Forall (fun row => maxk <= length row) output ->
  (float_sum
     (take k (tensor_eq
                (transpose 0%nat maxk (map (top_classes maxk) output))
                (replicate maxk target)))
   * (100 / Qnat (length target))
   == 100 * (Qnat (hits k output target) / Qnat (length target)))%Q.
Proof.
  intros Hpos Hk Hwide. rewrite (float_sum_hits maxk k) by assumption.
  pose proof (Qnat_pos _ Hpos). field. lra.
Qed.

(** X10: the accuracy does not go down when more of the classes ranked
    first are counted: for [k <= k'], the top-[k] entry [accuracy] returns
    is at most the top-[k'] entry. *)
Theorem accuracy_monotone_in_k (output : list (list Q)) (target : list nat)
    (k k' : nat) (r r' : Q) :
  length output = length target ->
  0 < length target ->
  k <= k' ->
  accuracy output target [k; k'] = ok [r; r'] ->
  (r <= r')%Q.
Proof.
  intros Hlen Hpos Hk Hres.
  destruct (accuracy_ok_wide _ _ _ _ Hres) as (maxk & Hmax & Hwide).
  rewrite (accuracy_unfold output target [k; k'] maxk Hmax Hlen Hpos Hwide)
    in Hres.
  cbn [map] in Hres. injection Hres as <- <-.
  assert (Hk1 : k <= maxk) by (eapply py_max_ge; [exact Hmax | left]).
  assert (Hk2 : k' <= maxk)
    by (eapply py_max_ge; [exact Hmax | right; left]).
  rewrite !accuracy_entry by assumption.
  pose proof (Qnat_le _ _ (hits_mono k k' output target Hk)) as Hh.
  pose proof (Qnat_pos _ Hpos) as Hn.
  apply Qmult_le_l; [lra|].
  apply Qmult_le_compat_r; [exact Hh|].
  apply Qinv_le_0_compat. lra.
Qed.

(** X10 on three examples with three classes. *)
Lemma accuracy_monotone_in_k_witness :
  let output :=
    [[1 # 2; 1 # 3; 1 # 6]; [1 # 10; 7 # 10; 2 # 10]; [0; 1; 0]]%Q in
  let target := [0; 2; 1] in
  accuracy output target [1; 2] = ok [200 # 3; 300 # 3]%Q /\
  (200 # 3 <= 300 # 3)%Q.
Proof.
  intros output target.
  assert (H : accuracy output target [1; 2] = ok [200 # 3; 300 # 3]%Q)
    by reflexivity.
  split; [exact H|].
  apply (accuracy_monotone_in_k output target 1 2 _ _ eq_refl); [|lia|exact H].
  subst target. cbn [length]. lia.
Defined.

Lemma filter_all {A} (P : A -> Prop) `{!forall x, Decision (P x)}
    (l : list A) :
  Forall P l -> filter P l = l.
Proof.
  induction 1 as [|x l Hx _ IH]; [reflexivity|].
  by rewrite filter_cons_True, IH.
Qed.

(** X11: counting as many classes as the rows have columns, every label
    that is a column is a hit, whatever [topk] returns among equal scores:
    [accuracy] with [topk = (C,)] returns what [n] hits among [n] examples
    give, the [float32] product of [n] and [float32(100.0 / n)]. *)
Theorem accuracy_full_width (topk : nat -> list Q -> list nat)
    (output : list (list Q)) (target : list nat) (C : nat) :
  topk_spec topk ->
  0 < length target ->
  (Z.of_nat (length target) <= 2 ^ 24)%Z ->
  Forall2 (fun row t => length row = C /\ t < C) output target ->
  Torch.accuracy topk output target [C]
  = ok [float32_percentage (length target) (length target)].
Proof.
  intros Hspec Hpos _ Hshape.
  pose proof (Forall2_length _ _ _ Hshape) as Hlen.
  assert (Hwide : Forall (fun row => C <= length row) output).
  { eapply Forall2_Forall_l; [exact Hshape|].
    apply Forall_forall. intros t _ row [-> _]. lia. }
  rewrite (torch_accuracy_unfold topk output target [C] C eq_refl
             Hlen Hpos Hwide).
  cbn [map]. do 3 f_equal.
  rewrite (count_true_hits (topk C)) by (lia || by apply topk_spec_NoDup).
  rewrite filter_all; [rewrite length_zip_with; lia|].
  apply Forall_forall. intros [row t] Hex.
  apply list_elem_of_lookup_1 in Hex as [i Hex].
  apply lookup_zip_with_Some in Hex as (row' & t' & [= <- <-] & Hr & Ht).
  destruct (Forall2_lookup_lr _ _ _ _ _ _ Hshape Hr Ht) as [Hrow HtC].
  cbn [fst snd]. rewrite bool_decide_eq_true.
  destruct (Hspec C row ltac:(lia)) as (HlenC & _ & Hnd & Hrange & _).
  rewrite take_ge by lia.
  assert (Hperm : topk C row ≡ₚ seq 0 C).
  { apply submseteq_length_Permutation; [|rewrite length_seq; lia].
    apply NoDup_submseteq; [exact Hnd|].
    intros x Hx. apply elem_of_seq. specialize (Hrange x Hx). lia. }
  rewrite Hperm. apply elem_of_seq. lia.
Qed.

(** X11 on two examples with three classes. *)
Lemma accuracy_full_width_witness :
  let output := [[1 # 2; 1 # 3; 1 # 6]; [1 # 10; 7 # 10; 2 # 10]]%Q in
  let target := [2; 0] in
  Torch.accuracy top_classes output target [3]
  = ok [float32_percentage 2 2].
Proof.
  intros output target.
  apply (accuracy_full_width top_classes output target 3
           top_classes_topk_spec).
  - subst target. cbn [length]. lia.
  - subst target. cbn [length]. lia.
  - repeat constructor.
Defined.

(** X12: the exceptions of [accuracy].  An empty [topk] raises
    [ValueError]; a row with fewer columns than the largest [k] raises
    [RuntimeError]; and with rows wide enough, a target vector that has
    neither one label per row nor a single label raises [RuntimeError]. *)
Theorem accuracy_raises (output : list (list Q)) (target topk : list nat)
    (maxk : nat) :
  accuracy output target [] = raise ValueError /\
  (py_max topk = ok maxk ->
   (exists row, row ∈ output /\ length row < maxk) ->
   accuracy output target topk = raise RuntimeError) /\
  (py_max topk = ok maxk ->
   Forall (fun row => maxk <= length row) output ->
   length target <> length output -> length target <> 1 ->
   accuracy output target topk = raise RuntimeError).
Proof.
  split; [reflexivity|]. split.
  - intros Hmax (row & Hin & Hlt). unfold accuracy. rewrite Hmax.
    cbn [bind ok]. unfold torch_topk.
    rewrite (map_result_raises _ _ RuntimeError row); [reflexivity| |exact Hin|].
    + intros y e'. unfold topk_row.
      destruct (Nat.ltb (length y) maxk); [by intros [= <-] | discriminate].
    + unfold topk_row.
      destruct (Nat.ltb_spec (length row) maxk); [reflexivity | lia].
  - intros Hmax Hwide Hlen H1. unfold accuracy. rewrite Hmax.
    cbn [bind ok]. rewrite (torch_topk_returns maxk output Hwide).
    cbn [bind ok]. unfold expand_as.
    destruct (Nat.eqb_spec (length target) (length output)); [done|].
    destruct target as [|t [|t' target]]; try reflexivity.
    cbn [length] in H1. lia.
Qed.

(** X12 with a row of two scores asked for its three best, and with two
    labels for three rows. *)
Lemma accuracy_raises_witness :
  accuracy [[1 # 2; 1 # 3]]%Q [0] [1; 3] = raise RuntimeError /\
  accuracy [[1]; [2]; [3]]%Q [0; 0] [1] = raise RuntimeError.
Proof.
  split.
  - apply (proj1 (proj2 (accuracy_raises [[1 # 2; 1 # 3]]%Q [0] [1; 3] 3)));
      [reflexivity|].
    exists [1 # 2; 1 # 3]%Q. split; [left | cbn [length]; lia].
  - apply (proj2 (proj2 (accuracy_raises [[1]; [2]; [3]]%Q [0; 0] [1] 1)));
      [reflexivity | repeat constructor | discriminate | discriminate].
Defined.

Local Close Scope nat_scope.

(** ** [get_model]: one network per name *)

(** X13: two names for which [get_model] returns the same architecture
    are the same name. *)
Theorem get_model_injective (a b : string) (m : architecture) :
  get_model a = ok m -> get_model b = ok m -> a = b.
Proof.
  unfold get_model.
  repeat match goal with
         | |- context [String.eqb a ?s] =>
             destruct (String.eqb_spec a s) as [->|?]
         end;
  repeat match goal with
         | |- context [String.eqb b ?s] =>
             destruct (String.eqb_spec b s) as [->|?]
         end;
  intros H1 H2; try reflexivity; unfold ok, raise in H1, H2; congruence.
Qed.

(** X13 at a recognized name. *)
Lemma get_model_injective_witness :
  get_model "VGG16" = ok vgg16 /\
  forall b, get_model b = ok vgg16 -> "VGG16"%string = b.
Proof.
  split; [reflexivity|]. intros b Hb.
  exact (get_model_injective "VGG16" b vgg16 eq_refl Hb).
Defined.

(** ** [get_logits_targets]: loaders that do not fit their dataset *)

Local Open Scope nat_scope.

Lemma for_each_app {A S} (body : S -> A -> result S) (l1 l2 : list A)
    (s : S) :
  for_each body (l1 ++ l2) s
  = let! s' := for_each body l1 s in for_each body l2 s'.
Proof.
  revert s. induction l1 as [|x l1 IH]; intros s; [reflexivity|].
  cbn [app for_each]. destruct (body s x) as [e|s']; [reflexivity|].
  cbn [bind]. apply IH.
Qed.

Section InferenceRunnerBounds.

Context {Image : Type}.
Variable model : list Image -> result (list (list Q)).

(** X14: when the batches yield fewer examples than the dataset of the
    loader has, the table still has one row per example of the dataset:
    the rows of the examples seen come first, the other rows and labels
    keep the zeros they were allocated with. *)
Theorem get_logits_targets_short_loader (loader : @Loader Image)
    (outs : list (list (list Q))) :
  Forall2 (answers model) (batches loader) outs ->
  Forall (fun b => length (snd b) = length (fst b)) (batches loader) ->
  n_examples (batches loader) <= dataset_len loader ->
  exists ds,
    get_logits_targets model loader = ok ds /\
    length (td_logits ds) = dataset_len loader /\
    length (td_labels ds) = dataset_len loader /\
    take (n_examples (batches loader)) (td_logits ds) = concat outs /\
    forall j, n_examples (batches loader) <= j < dataset_len loader ->
              td_logits ds !! j = Some (replicate n_classes 0%Q) /\
              td_labels ds !! j = Some 0%Z.
Proof.
  intros Hans Hlab HN.
  rewrite (get_logits_targets_result model loader outs Hans Hlab HN).
  pose proof (concat_outs_length model _ _ Hans) as Hrows.
  pose proof (concat_labels_length _ Hlab) as Hlabels.
  eexists. split; [reflexivity|]. cbn [td_logits td_labels].
  split; [|split; [|split]].
  - rewrite length_app, length_replicate, Hrows. lia.
  - rewrite length_app, length_map, length_replicate, Hlabels. lia.
  - rewrite <- Hrows. apply take_app_length.
  - intros j Hj. split.
    + rewrite lookup_app_r by lia. apply lookup_replicate_2. lia.
    + rewrite lookup_app_r by (rewrite length_map; lia).
      apply lookup_replicate_2. rewrite length_map. lia.
Qed.

(** The turn of the loop on a full table. *)
Lemma batch_step_full (rows : list (list Q)) (labels : list Z)
    (b : list Image * list Z) (out : list (list Q)) :
  answers model b out ->
  length (snd b) = length (fst b) ->
  length labels = length rows ->
  (2 <= length (fst b) ->
   batch_step model (mk_runner_state rows labels (length rows)) b
   = raise RuntimeError) /\
  (length (fst b) = 1 ->
   batch_step model (mk_runner_state rows labels (length rows)) b
   = ok (mk_runner_state rows labels (length rows + 1))).
Proof.
  intros (Hm & Hlen & Hw) Hb Hlabels.
  unfold batch_step. cbn [rs_i rs_logits rs_labels].
  rewrite Hm. cbn [bind ok]. unfold assign_rows.
  rewrite (broadcast_rows_same out Hw). cbn [bind ok].
  unfold assign_slice.
  replace (Nat.min (length rows) (length rows)) with (length rows) by lia.
  replace (Nat.min (length rows + length (fst b)) (length rows))
    with (length rows) by lia.
  replace (Nat.max (length rows) (length rows)) with (length rows) by lia.
  rewrite Hlabels.
  replace (Nat.min (length rows) (length rows)) with (length rows) by lia.
  replace (Nat.min (length rows + length (fst b)) (length rows))
    with (length rows) by lia.
  replace (Nat.max (length rows) (length rows)) with (length rows) by lia.
  rewrite Nat.sub_diag. split.
  - intros Hk. rewrite <- Hlen in Hk.
    destruct out as [|r1 [|r2 out]]; cbn [length] in Hk; try lia.
    reflexivity.
  - intros Hk. rewrite Hk.
    assert (Hout : length out = 1) by lia.
    assert (Hlab : length (map float32_of_long (snd b)) = 1)
      by (rewrite length_map; lia).
    destruct out as [|r1 [|r2 out]]; try discriminate Hout.
    destruct (map float32_of_long (snd b)) as [|t1 [|t2 ts]];
      try discriminate Hlab.
    cbn [broadcast_to length Nat.eqb replicate bind ok app].
    rewrite !take_drop. reflexivity.
Qed.

(** X15: a batch that arrives when the table is full.  With two examples
    or more the assignment to the empty slice raises [RuntimeError]; a
    batch of a single example is broadcast to the empty slice, and the
    pass returns the table as if the batch had not been there. *)
Theorem get_logits_targets_past_the_end (loader : @Loader Image)
    (bs : list (list Image * list Z)) (b : list Image * list Z)
    (outs : list (list (list Q))) (out : list (list Q)) :
  batches loader = bs ++ [b] ->
  Forall2 (answers model) bs outs ->
  answers model b out ->
  Forall (fun b => length (snd b) = length (fst b)) (bs ++ [b]) ->
  n_examples bs = dataset_len loader ->
  (2 <= length (fst b) ->
   get_logits_targets model loader = raise RuntimeError) /\
  (length (fst b) = 1 ->
   get_logits_targets model loader
   = ok (mk_TensorDataset (concat outs)
           (map float32_of_long (concat (map snd bs))))).
Proof.
  intros Hbs Hans Hb Hlab HN.
  apply Forall_app in Hlab as [Hlab Hlabb]. apply Forall_inv in Hlabb.
  unfold get_logits_targets, runner_init. rewrite Hbs, for_each_app.
  pose proof (for_each_batch_step model bs outs [] [] 0 Hans Hlab eq_refl)
    as H.
  rewrite Nat.add_0_r, HN in H. cbn [app length replicate Nat.add] in H.
  rewrite !app_nil_r in H. rewrite H. cbn [bind ok for_each].
  pose proof (concat_outs_length model _ _ Hans) as Hrows.
  pose proof (concat_labels_length _ Hlab) as Hlabels.
  rewrite <- HN, <- Hrows.
  destruct (batch_step_full (concat outs)
              (map float32_of_long (concat (map snd bs))) b out Hb Hlabb)
    as [Hmany Hone].
  { rewrite length_map. congruence. }
  split; intros Hk.
  - by rewrite (Hmany Hk).
  - by rewrite (Hone Hk).
Qed.

(** X16: an exception of the network ends the pass: when the network
    raises on a batch, having answered the batches before it,
    [get_logits_targets] raises the same exception. *)
Theorem get_logits_targets_model_raises (loader : @Loader Image)
    (bs rest : list (list Image * list Z)) (b : list Image * list Z)
    (outs : list (list (list Q))) (e : exn) :
  batches loader = bs ++ b :: rest ->
  Forall2 (answers model) bs outs ->
  Forall (fun b => length (snd b) = length (fst b)) bs ->
  n_examples bs <= dataset_len loader ->
  model (fst b) = raise e ->
  get_logits_targets model loader = raise e.
Proof.
  intros Hbs Hans Hlab HN Hraise.
  unfold get_logits_targets, runner_init. rewrite Hbs, for_each_app.
  pose proof (for_each_batch_step model bs outs [] []
                (dataset_len loader - n_examples bs) Hans Hlab eq_refl) as H.
  replace (n_examples bs + (dataset_len loader - n_examples bs))
    with (dataset_len loader) in H by lia.
  cbn [app length] in H. rewrite H. cbn [bind ok for_each].
  unfold batch_step. by rewrite Hraise.
Qed.

End InferenceRunnerBounds.

(** X14 on a loader of a dataset of three that yields one batch of two. *)
Lemma get_logits_targets_short_loader_witness :
  let loader := mk_Loader 3 [([4; 5], [3; 7]%Z)] in
  exists ds,
    get_logits_targets Example.model loader = ok ds /\
    length (td_logits ds) = 3 /\
    length (td_labels ds) = 3 /\
    take 2 (td_logits ds) = [Example.net 4; Example.net 5] /\
    forall j, 2 <= j < 3 ->
              td_logits ds !! j = Some (replicate n_classes 0%Q) /\
              td_labels ds !! j = Some 0%Z.
Proof.
  intros loader.
  apply (get_logits_targets_short_loader Example.model loader
           [[Example.net 4; Example.net 5]]).
  - repeat constructor.
  - repeat constructor.
  - unfold n_examples. cbn. lia.
Defined.

(** X15 on a dataset of two: a third example on its own is dropped, two
    more examples raise. *)
Lemma get_logits_targets_past_the_end_witness :
  get_logits_targets Example.model
    (mk_Loader 2 [([4; 5], [3; 7]%Z); ([6], [1]%Z)])
  = ok (mk_TensorDataset [Example.net 4; Example.net 5] [3; 7]%Z) /\
  get_logits_targets Example.model
    (mk_Loader 2 [([4; 5], [3; 7]%Z); ([6; 8], [1; 2]%Z)])
  = raise RuntimeError.
Proof.
  split.
  - refine (proj2 (get_logits_targets_past_the_end Example.model
                     (mk_Loader 2 [([4; 5], [3; 7]%Z); ([6], [1]%Z)])
                     [([4; 5], [3; 7]%Z)] ([6], [1]%Z)
                     [[Example.net 4; Example.net 5]] [Example.net 6]
                     eq_refl _ _ _ eq_refl) eq_refl);
      repeat constructor.
  - refine (proj1 (get_logits_targets_past_the_end Example.model
                     (mk_Loader 2 [([4; 5], [3; 7]%Z); ([6; 8], [1; 2]%Z)])
                     [([4; 5], [3; 7]%Z)] ([6; 8], [1; 2]%Z)
                     [[Example.net 4; Example.net 5]]
                     [Example.net 6; Example.net 8]
                     eq_refl _ _ _ eq_refl) _);
      [repeat constructor .. | cbn [fst length]; lia].
Defined.

(** X16 with a network that runs out of memory on batches of more than
    one image. *)
Lemma get_logits_targets_model_raises_witness :
  let model := fun x : list Example.Image =>
    if Nat.ltb 1 (length x) then raise RuntimeError else Example.model x in
  get_logits_targets model
    (mk_Loader 4 [([4], [3]%Z); ([5; 6], [7; 1]%Z); ([7], [2]%Z)])
  = raise RuntimeError.
Proof.
  intros model.
  apply (get_logits_targets_model_raises model
           (mk_Loader 4 [([4], [3]%Z); ([5; 6], [7; 1]%Z); ([7], [2]%Z)])
           [([4], [3]%Z)] [([7], [2]%Z)] ([5; 6], [7; 1]%Z)
           [[Example.net 4]] RuntimeError eq_refl).
  - repeat constructor.
  - repeat constructor.
  - unfold n_examples. cbn. lia.
  - reflexivity.
Defined.

Local Close Scope nat_scope.

(** ** [get_logits_dataset]: the cache test and the pass *)

Lemma get_logits_targets_ext {Image}
    (model model' : list Image -> result (list (list Q)))
    (loader : @Loader Image) :
  (forall x, model x = model' x) ->
  get_logits_targets model loader = get_logits_targets model' loader.
Proof.
  intros Hext. unfold get_logits_targets. f_equal.
  generalize (runner_init loader).
  induction (batches loader) as [|b bs IH]; intros st; [reflexivity|].
  cbn [for_each]. unfold batch_step at 1 3. rewrite Hext.
  destruct (model' (fst b)) as [e|out]; [reflexivity|]. cbn [bind].
  destruct (assign_rows _ _ _ _) as [e|logits]; [reflexivity|]. cbn [bind].
  destruct (assign_slice _ _ _ _) as [e|labels]; [reflexivity|]. cbn [bind ok].
  apply IH.
Qed.

Section LogitCacheFrame.

Context {Image bytes : Type}.
Variable pickle_dump : TensorDataset -> bytes.
Variable pickle_load : bytes -> result TensorDataset.
Variable ImageFolder : string -> result (list (Image * Z)).
Variable forward : architecture -> list Image -> result (list (list Q)).

Local Abbreviation call :=
  (get_logits_dataset pickle_dump pickle_load ImageFolder forward).

(** X18: the cache is looked up before the name is: for a name that is
    none of the recognized ones, a call that finds no file raises
    [NotImplementedError] and does nothing, and a call that finds a file
    returns what the file holds. *)
Theorem get_logits_dataset_unrecognized
    (modelname datasetname datasetpath cache : string) (w : @world bytes) :
  modelname ∉ recognized_names ->
  let fname := cache_path cache datasetname modelname in
  (files w !! fname = None ->
   call modelname datasetname datasetpath cache w
   = (raise NotImplementedError, w)) /\
  (forall content, files w !! fname = Some content ->
   call modelname datasetname datasetpath cache w
   = (pickle_load content, w)).
Proof.
  intros Hname fname. unfold get_logits_dataset. fold fname. split.
  - intros ->. unfold recompute.
    by rewrite (get_model_unrecognized _ Hname).
  - by intros content ->.
Qed.

(** X19: a call that finds no file, for a recognized name, a folder that
    loads and a network that answers image by image with [n_classes]
    logits: the dataset returned holds the logits of the images in the
    order of the folder and their labels as [float32] holds them, and its
    serialized form is what the file at the derived path holds
    afterwards. *)
Theorem get_logits_dataset_miss
    (modelname datasetname datasetpath cache : string) (w : @world bytes)
    (a : architecture) (dataset : list (Image * Z)) (net : Image -> list Q) :
  let fname := cache_path cache datasetname modelname in
  let ds := mk_TensorDataset (map net (map fst dataset))
              (map float32_of_long (map snd dataset)) in
  files w !! fname = None ->
  get_model modelname = ok a ->
  ImageFolder datasetpath = ok dataset ->
  (forall x, forward a x = ok (map net x)) ->
  (forall img, length (net img) = n_classes) ->
  fst (call modelname datasetname datasetpath cache w) = ok ds /\
  files (snd (call modelname datasetname datasetpath cache w))
  = <[fname := pickle_dump ds]> (files w).
Proof.
  intros fname ds Hfile Hmodel Hfolder Hnet Hwidth.
  unfold get_logits_dataset. fold fname. rewrite Hfile.
  assert (Hpass : recompute pickle_dump ImageFolder forward modelname
                    datasetpath fname w
                  = (ok ds,
                     write_file fname (pickle_dump ds)
                       (log (EvMakedirs (dirname fname))
                          (log (EvInference a (length dataset)) w)))).
  { unfold recompute. rewrite Hmodel, Hfolder. cbn [ok].
    rewrite (get_logits_targets_ext (forward a) (fun x => ok (map net x))
               _ Hnet).
    by rewrite (get_logits_targets_DataLoader net dataset 32)
      by (lia || done). }
  rewrite Hpass. by split.
Qed.

End LogitCacheFrame.

(** X18 with a name in lower case, on the empty disk and on a disk with a
    file at the path. *)
Lemma get_logits_dataset_unrecognized_witness :
  let call := get_logits_dataset Example.pickle_dump Example.pickle_load
                Example.ImageFolder Example.forward
                "resnet18" "imagenet" "/data/imagenet/val" "/cache/" in
  let ds := mk_TensorDataset [] [] in
  let disk := mk_world
                (<["/cache/imagenet/resnet18.pkl"%string
                   := Example.pickle_of ds]> ∅) [] in
  call Example.fresh_disk = (raise NotImplementedError, Example.fresh_disk) /\
  call disk = (ok ds, disk).
Proof.
  intros call ds disk.
  assert (Hname : "resnet18"%string ∉ recognized_names).
  { unfold recognized_names. rewrite !elem_of_cons, elem_of_nil.
    intros H. repeat destruct H as [H|H]; discriminate || done. }
  split.
  - apply (proj1 (get_logits_dataset_unrecognized
                    Example.pickle_dump Example.pickle_load
                    Example.ImageFolder Example.forward
                    "resnet18" "imagenet" "/data/imagenet/val" "/cache/"
                    Example.fresh_disk Hname)).
    reflexivity.
  - apply (proj2 (get_logits_dataset_unrecognized
                    Example.pickle_dump Example.pickle_load
                    Example.ImageFolder Example.forward
                    "resnet18" "imagenet" "/data/imagenet/val" "/cache/"
                    disk Hname) (Example.pickle_of ds)).
    reflexivity.
Defined.

(** X19 on the example folder and the empty disk. *)
Lemma get_logits_dataset_miss_witness :
  let ds := mk_TensorDataset (map Example.net [4; 5; 6]%nat) [3; 7; 1]%Z in
  fst (Example.call Example.fresh_disk) = ok ds /\
  files (snd (Example.call Example.fresh_disk))
  = <[Example.fname := Example.pickle_dump ds]> ∅.
Proof.
  intros ds.
  apply (get_logits_dataset_miss
           Example.pickle_dump Example.pickle_load
           Example.ImageFolder Example.forward
           "ResNet18" "imagenet" "/data/imagenet/val" "/cache/"
           Example.fresh_disk resnet18 Example.dataset Example.net).
  - reflexivity.
  - reflexivity.
  - reflexivity.
  - reflexivity.
  - intros img. apply length_replicate.
Defined.

(** ** [data2tensor] *)

Section Data2TensorFacts.

Context {Image : Type}.
Variable shape : Image -> list nat.

Lemma torch_cat_images_ok (xs ys : list Image) :
  torch_cat_images shape xs = ok ys -> ys = xs /\ xs <> [].
Proof.
  unfold torch_cat_images. destruct xs as [|x rest]; [discriminate|].
  destruct (forallb _ rest); [|discriminate]. by intros [= <-].
Qed.

(** X20: when [data2tensor] returns and when it raises.  On a non-empty
    list of examples whose images have one shape and whose labels are
    below [2^24] in absolute value it returns the images and the labels in
    the order of the list; on the empty list it raises [ValueError]; on
    images of two shapes it raises [RuntimeError]. *)
Theorem data2tensor_outcome (data : list (Image * Z)) :
  (data <> [] ->
   (forall x y, x ∈ data -> y ∈ data -> shape (fst x) = shape (fst y)) ->
   Forall (fun x => (Z.abs (snd x) < 2 ^ 24)%Z) data ->
   data2tensor shape data = ok (map fst data, map snd data)) /\
  (data = [] -> data2tensor shape data = raise ValueError) /\
  (forall x y, x ∈ data -> y ∈ data -> shape (fst x) <> shape (fst y) ->
               data2tensor shape data = raise RuntimeError).
Proof.
  split; [|split].
  - intros Hne Hsame Hexact. destruct data as [|x0 data]; [done|].
    assert (Hlabels : map (fun x => float32_of_long (snd x)) (x0 :: data)
                      = map snd (x0 :: data)).
    { apply map_ext_Forall. eapply Forall_impl; [exact Hexact|].
      intros x Hx. by apply float32_of_long_exact. }
    unfold data2tensor, torch_cat_images. rewrite Hlabels. cbn [map].
    rewrite (proj2 (forallb_forall _ _)); [reflexivity|].
    intros img Himg. apply bool_decide_eq_true.
    apply list_elem_of_In, list_elem_of_fmap in Himg as (y & -> & Hy).
    apply Hsame; [by right | left].
  - by intros ->.
  - intros x y Hx Hy Hdiff. destruct data as [|x0 data].
    { by apply elem_of_nil in Hx. }
    unfold data2tensor, torch_cat_images. cbn [map].
    destruct (forallb _ (map fst data)) eqn:Hall; [|reflexivity].
    exfalso. apply Hdiff.
    assert (Hfirst : forall z, z ∈ x0 :: data -> shape (fst z) = shape (fst x0)).
    { intros z [->|Hz]%elem_of_cons; [reflexivity|].
      rewrite forallb_forall in Hall.
      eapply bool_decide_eq_true_1, Hall, list_elem_of_In, list_elem_of_fmap.
      by exists z. }
    by rewrite (Hfirst x Hx), (Hfirst y Hy).
Qed.

(** X21: pairing the images [data2tensor] returns with the labels it
    returns gives the list of examples back, when every label is an
    integer a [float32] holds exactly. *)
Theorem data2tensor_round_trip (data : list (Image * Z))
    (imgs : list Image) (targets : list Z) :
  data2tensor shape data = ok (imgs, targets) ->
  Forall (fun x => (Z.abs (snd x) < 2 ^ 24)%Z) data ->
  zip imgs targets = data /\ length imgs = length targets.
Proof.
  intros Hres Hexact. unfold data2tensor in Hres.
  apply bind_ok in Hres as (imgs' & Himgs & Hres).
  apply bind_ok in Hres as (targets' & Htargets & Hres).
  injection Hres as <- <-.
  apply torch_cat_images_ok in Himgs as [-> _].
  unfold torch_cat_scalars in Htargets.
  destruct (map _ data) as [|t ts] eqn:Hmap in Htargets; [discriminate|].
  injection Htargets as <-. rewrite <- Hmap. clear Hmap.
  assert (Hlabels : map (fun x => float32_of_long (snd x)) data
                    = map snd data).
  { apply map_ext_Forall. eapply Forall_impl; [exact Hexact|].
    intros x Hx. by apply float32_of_long_exact. }
  rewrite Hlabels. split; [apply zip_fst_snd|]. by rewrite !length_map.
Qed.

End Data2TensorFacts.

(** X21 on two images of one shape, images being their shapes. *)
Lemma data2tensor_round_trip_witness :
  let data := [([3; 224; 224]%nat, 7%Z); ([3; 224; 224]%nat, 999%Z)] in
  data2tensor (fun img => img) data = ok (map fst data, map snd data) /\
  zip (map fst data) (map snd data) = data /\
  length (map fst data) = length (map snd data).
Proof.
  intros data.
  assert (H : data2tensor (fun img => img) data
              = ok (map fst data, map snd data)) by reflexivity.
  split; [exact H|].
  apply (data2tensor_round_trip (fun img => img) data _ _ H).
  repeat constructor.
Defined.

(** ** [split2] and [split2ImageFolder] *)

Lemma py_slice_take {A} (l : list A) (a b : Z) :
  a = 0%Z -> (0 <= b)%Z -> py_slice l a b = take (Z.to_nat b) l.
Proof.
  intros -> Hb. unfold py_slice, clamp_index.
  destruct (Z.ltb_spec b 0) as [?|_]; [lia|]. cbn [Z.ltb Z.compare].
  replace (Z.to_nat (Z.max 0 (Z.min (Z.of_nat (length l)) 0))) with 0%nat
    by lia.
  rewrite drop_0.
  destruct (decide (Z.to_nat b <= length l)%nat) as [Hle|Hgt].
  - f_equal. lia.
  - rewrite (take_ge l (Z.to_nat b)) by lia. apply take_ge. lia.
Qed.

Lemma py_slice_drop {A} (l : list A) (a b : Z) :
  (0 <= a)%Z -> b = Z.of_nat (length l) ->
  py_slice l a b = drop (Z.to_nat a) l.
Proof.
  intros Ha ->. unfold py_slice, clamp_index.
  destruct (Z.ltb_spec a 0) as [?|_]; [lia|].
  destruct (Z.ltb_spec (Z.of_nat (length l)) 0) as [?|_]; [lia|].
  destruct (decide (Z.to_nat a <= length l)%nat) as [Hle|Hgt].
  - replace (Z.to_nat (Z.max 0 (Z.min (Z.of_nat (length l)) a)))
      with (Z.to_nat a) by lia.
    apply take_ge. rewrite length_drop. lia.
  - replace (Z.to_nat (Z.max 0 (Z.min (Z.of_nat (length l)) a)))
      with (length l) by lia.
    rewrite !drop_ge by lia. apply take_nil.
Qed.

Lemma Subset_returns {A} (dataset : list A) (indices : list nat) :
  Forall (fun i => (i < length dataset)%nat) indices ->
  Subset dataset indices = ok (omap (fun i => dataset !! i) indices) /\
  length (omap (fun i => dataset !! i) indices) = length indices.
Proof.
  unfold Subset. induction 1 as [|i indices Hi _ [IH IHlen]]; [done|].
  destruct (lookup_lt_is_Some_2 dataset i Hi) as [x Hx].
  cbn [map_result omap list_omap]. rewrite IH, Hx.
  cbn [bind ok length]. by rewrite IHlen.
Qed.

Lemma omap_lookup_seq {A} (pre l : list A) :
  omap (fun i => (pre ++ l) !! i) (seq (length pre) (length l)) = l.
Proof.
  revert pre. induction l as [|x l IH]; intros pre; [reflexivity|].
  cbn [length seq omap list_omap].
  rewrite (list_lookup_middle pre l x (length pre) eq_refl).
  f_equal. specialize (IH (pre ++ [x])).
  rewrite <- app_assoc, length_app in IH. cbn [app length] in IH.
  by rewrite Nat.add_1_r in IH.
Qed.

Lemma Permutation_seq_valid (draw : list nat) (n : nat) :
  draw ≡ₚ seq 0 n -> Forall (fun i => (i < n)%nat) draw.
Proof.
  intros H. rewrite H. apply Forall_seq. intros j Hj. lia.
Qed.

(** Integer lengths that add up to 1 and are not negative are their own
    fractions of a dataset of one example. *)
Lemma fraction_lengths_unit (a b : Z) :
  (0 <= a)%Z -> (0 <= b)%Z -> (a + b = 1)%Z ->
  fraction_lengths 1 [a; b] = ok [a; b].
Proof.
  intros Ha Hb Hsum. unfold fraction_lengths. cbn [map_result].
  destruct (Z.ltb_spec a 0) as [?|_]; [lia|].
  destruct (Z.ltb_spec 1 a) as [?|_]; [lia|].
  destruct (Z.ltb_spec b 0) as [?|_]; [lia|].
  destruct (Z.ltb_spec 1 b) as [?|_]; [lia|].
  cbn [orb bind ok sum_Z fold_right].
  replace (Z.to_nat (1 - (1 * a + (1 * b + 0)))) with 0%nat by lia.
  cbn [seq fold_left]. by rewrite !Z.mul_1_l.
Qed.

(** A call of [random_split] for two parts, the first of a non-negative
    length: the examples at the first indices drawn, and the others.  With
    fractions, a dataset of one example asks for a second length that is
    not negative. *)
Lemma random_split_two {A} (fractions : bool) (draw : list nat)
    (dataset : list A) (a b : Z) :
  draw ≡ₚ seq 0 (length dataset) ->
  (0 <= a)%Z -> (a + b = Z.of_nat (length dataset))%Z ->
  (fractions = true -> length dataset = 1%nat -> (0 <= b)%Z) ->
  random_split fractions draw dataset [a; b]
  = ok [omap (fun i => dataset !! i) (take (Z.to_nat a) draw);
        omap (fun i => dataset !! i) (drop (Z.to_nat a) draw)].
Proof.
  intros Hdraw Ha Hsum Hfrac. unfold random_split.
  assert (Hlengths :
            (if fractions && (sum_Z [a; b] =? 1)%Z
             then fraction_lengths (Z.of_nat (length dataset)) [a; b]
             else ok [a; b]) = ok [a; b]).
  { destruct fractions; [|reflexivity]. cbn [andb sum_Z fold_right].
    destruct (Z.eqb_spec (a + (b + 0)) 1) as [E|_]; [|reflexivity].
    assert (Hone : length dataset = 1%nat) by lia.
    rewrite Hone. apply fraction_lengths_unit; [lia| |lia].
    by apply Hfrac. }
  rewrite Hlengths. cbn [bind ok sum_Z fold_right].
  destruct (Z.eqb_spec (a + (b + 0)) (Z.of_nat (length dataset))) as [_|?];
    [|lia].
  cbn [negb slice_bounds map_result fst snd].
  pose proof (Permutation_seq_valid _ _ Hdraw) as Hvalid.
  pose proof (Permutation_length Hdraw) as Hlen. rewrite length_seq in Hlen.
  rewrite py_slice_take by lia. rewrite py_slice_drop by lia.
  replace (Z.to_nat (0 + a)) with (Z.to_nat a) by lia.
  replace (Z.to_nat (0 + a + b - b)) with (Z.to_nat a) by lia.
  rewrite (proj1 (Subset_returns dataset _ (Forall_take _ _ _ Hvalid))).
  rewrite (proj1 (Subset_returns dataset _ (Forall_drop _ _ _ Hvalid))).
  reflexivity.
Qed.

Lemma random_split_parts {A} (draw : list nat) (dataset : list A) (k : nat) :
  draw ≡ₚ seq 0 (length dataset) ->
  omap (fun i => dataset !! i) (take k draw)
    ++ omap (fun i => dataset !! i) (drop k draw) ≡ₚ dataset.
Proof.
  intros Hdraw. rewrite <- omap_app, take_drop, Hdraw.
  pose proof (omap_lookup_seq [] dataset) as H. cbn [app length] in H.
  by rewrite H.
Qed.

(** [split2ImageFolder] goes on, once the folder is loaded, as [split2]
    does. *)
Lemma split2ImageFolder_loaded {A} (fractions : bool)
    (image_folder : string -> result (list A)) (draw1 draw2 : list nat)
    (path : string) (n1 n2 : Z) :
  split2ImageFolder fractions image_folder draw1 draw2 path n1 n2
  = let! dataset := image_folder path in
    split2 fractions draw1 draw2 dataset n1 n2.
Proof.
  unfold split2ImageFolder, split2.
  destruct (image_folder path) as [e|dataset]; reflexivity.
Qed.

(** X22: for sizes [0 <= n1 <= L] and [0 <= n2] on a dataset of [L]
    examples, [split2] and, on the folder it loads, [split2ImageFolder]
    return [n1] examples and [n2] examples, or the [L - n1] left when they
    are fewer than [n2]; together the two parts use no example of the
    dataset twice, and they use every example when [n1 + n2] reaches [L].
    With the fractions of torch 1.13 this holds when [n2 <= L - n1] or
    [L - n1] is not 1. *)
Theorem split2_parts {A} (fractions : bool)
    (image_folder : string -> result (list A)) (path : string)
    (draw1 draw2 : list nat) (dataset : list A) (n1 n2 : Z) :
  (0 <= n1 <= Z.of_nat (length dataset))%Z ->
  (0 <= n2)%Z ->
  (n2 <= Z.of_nat (length dataset) - n1)%Z \/ fractions = false
    \/ (Z.of_nat (length dataset) - n1 <> 1)%Z ->
  draw1 ≡ₚ seq 0 (length dataset) ->
  draw2 ≡ₚ seq 0 (length dataset - Z.to_nat n1) ->
  exists data1 data2,
    split2 fractions draw1 draw2 dataset n1 n2 = ok (data1, data2) /\
    (image_folder path = ok dataset ->
     split2ImageFolder fractions image_folder draw1 draw2 path n1 n2
     = ok (data1, data2)) /\
    length data1 = Z.to_nat n1 /\
    length data2 = Z.to_nat (Z.min n2 (Z.of_nat (length dataset) - n1)) /\
    data1 ++ data2 ⊆+ dataset /\
    ((Z.of_nat (length dataset) <= n1 + n2)%Z ->
     data1 ++ data2 ≡ₚ dataset).
Proof.
  intros Hn1 Hn2 Hcase Hdraw1 Hdraw2.
  assert (Hsplit : exists data1 data2,
             split2 fractions draw1 draw2 dataset n1 n2 = ok (data1, data2) /\
             length data1 = Z.to_nat n1 /\
             length data2
             = Z.to_nat (Z.min n2 (Z.of_nat (length dataset) - n1)) /\
             data1 ++ data2 ⊆+ dataset /\
             ((Z.of_nat (length dataset) <= n1 + n2)%Z ->
              data1 ++ data2 ≡ₚ dataset)).
  { unfold split2.
    rewrite (random_split_two fractions draw1 dataset) by (done || lia).
    cbn [bind ok unpack2 fst snd].
    set (data1 := omap (fun i => dataset !! i) (take (Z.to_nat n1) draw1)).
    set (temp := omap (fun i => dataset !! i) (drop (Z.to_nat n1) draw1)).
    pose proof (Permutation_seq_valid _ _ Hdraw1) as Hvalid1.
    pose proof (Permutation_length Hdraw1) as Hlen1.
    rewrite length_seq in Hlen1.
    assert (Hd1 : length data1 = Z.to_nat n1).
    { subst data1.
      rewrite (proj2 (Subset_returns dataset _ (Forall_take _ _ _ Hvalid1))).
      rewrite length_take. lia. }
    assert (Htemp : length temp = (length dataset - Z.to_nat n1)%nat).
    { subst temp.
      rewrite (proj2 (Subset_returns dataset _ (Forall_drop _ _ _ Hvalid1))).
      rewrite length_drop. lia. }
    rewrite <- Htemp in Hdraw2.
    rewrite (random_split_two fractions draw2 temp)
      by (done || lia || (intros Hf Hone; destruct Hcase as [?|[?|?]];
                          [lia | congruence | lia])).
    cbn [bind ok unpack2 fst snd].
    set (data2 := omap (fun i => temp !! i) (take (Z.to_nat n2) draw2)).
    set (rest := omap (fun i => temp !! i) (drop (Z.to_nat n2) draw2)).
    pose proof (Permutation_seq_valid _ _ Hdraw2) as Hvalid2.
    pose proof (Permutation_length Hdraw2) as Hlen2.
    rewrite length_seq in Hlen2.
    assert (Hparts1 : data1 ++ temp ≡ₚ dataset)
      by (by apply random_split_parts).
    assert (Hparts2 : data2 ++ rest ≡ₚ temp)
      by (by apply random_split_parts).
    exists data1, data2. split; [reflexivity|]. split; [exact Hd1|].
    split; [|split].
    - subst data2.
      rewrite (proj2 (Subset_returns temp _ (Forall_take _ _ _ Hvalid2))).
      rewrite length_take. lia.
    - rewrite <- Hparts1, <- Hparts2.
      apply submseteq_skips_l, submseteq_inserts_r. reflexivity.
    - intros Hall. rewrite <- Hparts1, <- Hparts2.
      assert (Hrest : rest = []).
      { subst rest. by rewrite drop_ge by lia. }
      by rewrite Hrest, app_nil_r. }
  destruct Hsplit as (data1 & data2 & Hres & Hrest).
  exists data1, data2. split; [exact Hres|]. split; [|exact Hrest].
  intros Hfolder. by rewrite split2ImageFolder_loaded, Hfolder.
Qed.

(** X22 on five examples, split into two, two and one left out, with the
    fractions of torch 1.13. *)
Lemma split2_parts_witness :
  let dataset := ["a"; "b"; "c"; "d"; "e"]%string in
  let image_folder := fun _ : string => ok dataset in
  exists data1 data2,
    split2 true [2; 0; 4; 1; 3]%nat [1; 2; 0]%nat dataset 2 2
    = ok (data1, data2) /\
    (image_folder "val"%string = ok dataset ->
     split2ImageFolder true image_folder [2; 0; 4; 1; 3]%nat [1; 2; 0]%nat
       "val" 2 2 = ok (data1, data2)) /\
    length data1 = 2%nat /\
    length data2 = 2%nat /\
    data1 ++ data2 ⊆+ dataset /\
    ((5 <= 2 + 2)%Z -> data1 ++ data2 ≡ₚ dataset).
Proof.
  intros dataset image_folder.
  apply (split2_parts true image_folder "val"
           [2; 0; 4; 1; 3]%nat [1; 2; 0]%nat dataset 2 2).
  - cbn. lia.
  - lia.
  - left. cbn. lia.
  - apply (bool_decide_unpack _). vm_compute. exact I.
  - apply (bool_decide_unpack _). vm_compute. exact I.
Defined.

(** X23: a first size larger than the dataset makes [split2] raise
    [ValueError], with or without fractions.  Without them it is the
    second call of [random_split] that raises: the two lengths of the
    first, [n1] and [L - n1], still add up to the size of the dataset. *)
Theorem split2_first_size_too_large {A} (fractions : bool)
    (draw1 draw2 : list nat) (dataset : list A) (n1 n2 : Z) :
  draw1 ≡ₚ seq 0 (length dataset) ->
  (Z.of_nat (length dataset) < n1)%Z ->
  split2 fractions draw1 draw2 dataset n1 n2 = raise ValueError /\
  (fractions = false ->
   exists data1 temp,
     random_split fractions draw1 dataset
       [n1; (Z.of_nat (length dataset) - n1)%Z]
     = ok [data1; temp]).
Proof.
  intros Hdraw1 Hn1.
  pose proof (Permutation_length Hdraw1) as Hlen1.
  rewrite length_seq in Hlen1.
  assert (Hsecond : forall temp : list A,
             length temp = 0%nat ->
             random_split fractions draw2 temp
               [n2; (Z.of_nat (length dataset) - n1 - n2)%Z]
             = raise ValueError).
  { intros temp Htemp. unfold random_split. cbn [sum_Z fold_right].
    destruct (Z.eqb_spec
                (n2 + (Z.of_nat (length dataset) - n1 - n2 + 0)) 1)
      as [?|_]; [lia|].
    rewrite andb_false_r. cbn [bind ok sum_Z fold_right]. rewrite Htemp.
    destruct (Z.eqb_spec
                (n2 + (Z.of_nat (length dataset) - n1 - n2 + 0)) (Z.of_nat 0))
      as [?|_]; [lia | reflexivity]. }
  assert (Hfirst : fractions = false \/ length dataset <> 1%nat ->
             split2 fractions draw1 draw2 dataset n1 n2 = raise ValueError /\
             exists data1 temp,
               random_split fractions draw1 dataset
                 [n1; (Z.of_nat (length dataset) - n1)%Z]
               = ok [data1; temp]).
  { intros Hcase.
    pose proof (random_split_two fractions draw1 dataset n1
                  (Z.of_nat (length dataset) - n1) Hdraw1) as Hsplit.
    assert (Hone : fractions = true -> length dataset = 1%nat ->
                   (0 <= Z.of_nat (length dataset) - n1)%Z).
    { intros Hf Hl. destruct Hcase; congruence. }
    specialize (Hsplit ltac:(lia) ltac:(lia) Hone).
    split; [|by eexists _, _].
    unfold split2. rewrite Hsplit. cbn [bind ok unpack2 fst snd].
    rewrite Hsecond; [reflexivity|].
    rewrite drop_ge by lia. reflexivity. }
  split.
  - destruct fractions; [|by apply Hfirst; left].
    destruct (decide (length dataset = 1%nat)) as [Hone|Hne];
      [|by apply Hfirst; right].
    unfold split2, random_split. cbn [sum_Z fold_right andb].
    destruct (Z.eqb_spec (n1 + (Z.of_nat (length dataset) - n1 + 0)) 1)
      as [_|?]; [|lia].
    unfold fraction_lengths. cbn [map_result].
    destruct (Z.ltb_spec n1 0) as [?|_]; [lia|].
    destruct (Z.ltb_spec 1 n1) as [_|?]; [reflexivity | lia].
  - intros Hf. apply Hfirst. by left.
Qed.

(** X23 on three examples asked for four. *)
Lemma split2_first_size_too_large_witness :
  split2 true [1; 0; 2]%nat [] ["a"; "b"; "c"]%string 4 0
  = raise ValueError.
Proof.
  apply (split2_first_size_too_large true [1; 0; 2]%nat []
           ["a"; "b"; "c"]%string 4 0).
  - apply (bool_decide_unpack _). vm_compute. exact I.
  - cbn. lia.
Defined.

(** ** [AverageMeter]: when [update] raises *)

Section AverageMeterRaises.
Import AverageMeter.

Lemma updates_uncaught_nonneg (m : t) (calls : list (Q * Z)) :
  (0 < count m)%Z ->
  Forall (fun c => (0 <= snd c)%Z) calls ->
  updates_uncaught m calls = (updates m calls, ok tt).
Proof.
  intros Hm H. revert m Hm.
  induction H as [|[v n] calls Hn _ IH]; intros m Hm; [reflexivity|].
  cbn [snd] in Hn. cbn [updates_uncaught fst snd].
  unfold updates. cbn [fold_left fst snd]. unfold update.
  destruct (Z.eqb_spec (count m + n) 0) as [E|_]; [lia|].
  apply IH. cbn [count]. lia.
Qed.

(** X25: once a batch with an example has been counted, no [update] with
    a batch size that is not negative raises, empty batches included: the
    count stays positive. *)
Theorem average_meter_first_batch (m : t) (v : Q) (n : Z)
    (calls : list (Q * Z)) :
  (0 < n)%Z ->
  Forall (fun c => (0 <= snd c)%Z) calls ->
  updates_uncaught (reset m) ((v, n) :: calls)
  = (updates (reset m) ((v, n) :: calls), ok tt) /\
  (0 < count (updates (reset m) ((v, n) :: calls)))%Z.
Proof.
  intros Hn Hcalls. split.
  - cbn [updates_uncaught fst snd]. unfold updates.
    cbn [fold_left fst snd]. unfold update at 1 3.
    cbn [reset count]. rewrite Z.add_0_l.
    destruct (Z.eqb_spec n 0) as [E|_]; [lia|].
    apply updates_uncaught_nonneg; [cbn [count]; lia | exact Hcalls].
  - destruct (updates_sum_count (reset m) ((v, n) :: calls)) as [_ ->].
    cbn [reset count]. rewrite Z.add_0_l.
    change (total_count ((v, n) :: calls)) with (n + total_count calls)%Z.
    assert (Hnn : (0 <= total_count calls)%Z).
    { clear -Hcalls. induction Hcalls as [|c l Hc _ IH]; [done|].
      change (total_count (c :: l)) with (snd c + total_count l)%Z. lia. }
    lia.
Qed.

(** X25 with a second batch that is empty. *)
Lemma average_meter_first_batch_witness :
  let m := init "Acc@1" ":6.2f" in
  let calls := [(80, 32%Z); (5, 0%Z); (90, 8%Z)] in
  updates_uncaught (reset m) calls = (updates (reset m) calls, ok tt) /\
  (0 < count (updates (reset m) calls))%Z.
Proof.
  intros m calls.
  apply (average_meter_first_batch m 80 32 [(5, 0%Z); (90, 8%Z)]).
  - lia.
  - repeat constructor; cbn [snd]; lia.
Defined.

End AverageMeterRaises.
